(** * Inactivity report: a shallow embedding of [inactivity_report.py]

    The development follows the Python script top-down: the three regular
    expressions and the backtracking matcher that gives them the meaning
    they have under [re.match], [datetime.strptime] for the four formats of
    [parse_date], the ingestion loop of [analyze_chat], and the status rule
    that the report, the CSV export and the pie chart each recompute.

    Conventions.
    - A Python [str] is a [string]; a character is its code point, taken in
      the range 0..255.
    - A Python [int] is a [Z]; a Python [float] is a binary64 [float].
    - The insertion-ordered [defaultdict] is an association list kept in
      insertion order, with at most one entry per key.
    - [datetime.now()] is a parameter [now] of the functions that call it. *)

From Stdlib Require Import QArith Qpower Lqa.
From Stdlib Require Import ZArith List String Ascii Bool Lia Floats.
From Stdlib Require Import Permutation Sorted.
Import ListNotations.

Local Open Scope string_scope.
Local Open Scope Z_scope.

(* ================================================================== *)
(** ** Characters and strings *)

Definition code (c : ascii) : nat := nat_of_ascii c.

(** [str.isspace] on code points below 256: TAB..CR, FS..US, SPACE, NEL and
    NBSP. It is also what [\s] matches in a [str] pattern. *)
Definition is_space (c : ascii) : bool :=
  let n := code c in
  ((9 <=? n) && (n <=? 13) || (28 <=? n) && (n <=? 32)
   || (n =? 133) || (n =? 160))%nat.

(** [\d] on code points below 256. *)
Definition is_digit (c : ascii) : bool :=
  let n := code c in ((48 <=? n) && (n <=? 57))%nat.

Definition newline : ascii := ascii_of_nat 10.

(** [.] without DOTALL: any character but a line feed. *)
Definition dot (c : ascii) : bool := negb (Ascii.eqb c newline).

Definition one_of (cs : string) (c : ascii) : bool :=
  existsb (Ascii.eqb c) (list_ascii_of_string cs).

Definition in_range (lo hi : ascii) (c : ascii) : bool :=
  ((code lo <=? code c) && (code c <=? code hi))%nat.

Fixpoint lstrip (s : string) : string :=
  match s with
  | String c s' => if is_space c then lstrip s' else s
  | EmptyString => EmptyString
  end.

Fixpoint rstrip (s : string) : string :=
  match s with
  | String c s' =>
      match rstrip s' with
      | EmptyString => if is_space c then EmptyString else String c EmptyString
      | t => String c t
      end
  | EmptyString => EmptyString
  end.

(** [str.strip()] with no argument. *)
Definition strip (s : string) : string := rstrip (lstrip s).

(** [s.startswith(p)], returning what follows the prefix. *)
Fixpoint drop_prefix (p s : string) : option string :=
  match p, s with
  | EmptyString, _ => Some s
  | String a p', String b s' => if Ascii.eqb a b then drop_prefix p' s' else None
  | String _ _, EmptyString => None
  end.

(* ================================================================== *)
(** ** Regular expressions under [re.match]

    The fragment the script and [_strptime] use: literals, character
    classes, bounded and unbounded repetition of a class (greedy or lazy),
    ordered alternation, capturing groups and [$]. Matching is the
    backtracking search of [re]: alternatives left to right, a greedy
    repetition longest first, a lazy one shortest first; the first complete
    path is the match. *)

Inductive regex : Type :=
| REps
| RLit (l : string)
| RSet (p : ascii -> bool)
| RRep (greedy : bool) (p : ascii -> bool) (lo : nat) (hi : option nat)
| RSeq (r1 r2 : regex)
| RAlt (r1 r2 : regex)
| RGroup (name : string) (r : regex)
| REnd.

Declare Scope regex_scope.
Delimit Scope regex_scope with re.
Bind Scope regex_scope with regex.
Notation "r1 ;; r2" := (RSeq r1 r2) (at level 45, right associativity) : regex_scope.
Notation "r1 || r2" := (RAlt r1 r2) : regex_scope.

(** [p*], [p*?], [p+], [p?], [p{n}], [p{m,n}]. *)
Definition star (p : ascii -> bool) : regex := RRep true p 0 None.
Definition lazy_star (p : ascii -> bool) : regex := RRep false p 0 None.
Definition plus (p : ascii -> bool) : regex := RRep true p 1 None.
Definition opt (p : ascii -> bool) : regex := RRep true p 0 (Some 1%nat).
Definition times (n : nat) (p : ascii -> bool) : regex := RRep true p n (Some n).
Definition between (m n : nat) (p : ascii -> bool) : regex := RRep true p m (Some n).

(** Group name to captured text; the latest binding of a name is in front. *)
Definition captures : Type := list (string * string).

Fixpoint group (name : string) (caps : captures) : option string :=
  match caps with
  | [] => None
  | (n, v) :: rest => if String.eqb n name then Some v else group name rest
  end.

(** [$] without MULTILINE: at the end, or just before a final line feed. *)
Definition at_end (s : string) : bool :=
  match s with
  | EmptyString => true
  | String c EmptyString => Ascii.eqb c newline
  | _ => false
  end.

Definition may_repeat (hi : option nat) : bool :=
  match hi with Some O => false | _ => true end.

Section Matcher.
Context {R : Type}.

(** Repetition of a class: [k] receives the text consumed and the rest. *)
Fixpoint rep (greedy : bool) (p : ascii -> bool) (lo : nat) (hi : option nat)
    (s : string) (k : string -> string -> option R) {struct s} : option R :=
  match s with
  | String c s' =>
      if p c && may_repeat hi then
        if greedy then
          match rep greedy p (Nat.pred lo) (option_map Nat.pred hi) s'
                  (fun m rest => k (String c m) rest) with
          | Some x => Some x
          | None => match lo with O => k EmptyString s | S _ => None end
          end
        else
          match (match lo with O => k EmptyString s | S _ => None end) with
          | Some x => Some x
          | None => rep greedy p (Nat.pred lo) (option_map Nat.pred hi) s'
                      (fun m rest => k (String c m) rest)
          end
      else match lo with O => k EmptyString s | S _ => None end
  | EmptyString => match lo with O => k EmptyString s | S _ => None end
  end.

(** [rmatch r s caps k]: match [r] at the front of [s]; on each way of
    matching, in priority order, call [k] with the text consumed, the
    rest and the groups, until [k] answers. *)
Fixpoint rmatch (r : regex) (s : string) (caps : captures)
    (k : string -> string -> captures -> option R) {struct r} : option R :=
  match r with
  | REps => k EmptyString s caps
  | RLit l =>
      match drop_prefix l s with
      | Some rest => k l rest caps
      | None => None
      end
  | RSet p =>
      match s with
      | String c rest => if p c then k (String c EmptyString) rest caps else None
      | EmptyString => None
      end
  | RRep g p lo hi => rep g p lo hi s (fun m rest => k m rest caps)
  | RSeq r1 r2 =>
      rmatch r1 s caps (fun m1 s1 c1 =>
        rmatch r2 s1 c1 (fun m2 s2 c2 => k (m1 ++ m2) s2 c2))
  | RAlt r1 r2 =>
      match rmatch r1 s caps k with
      | Some x => Some x
      | None => rmatch r2 s caps k
      end
  | RGroup name r1 =>
      rmatch r1 s caps (fun m rest c1 => k m rest ((name, m) :: c1))
  | REnd => if at_end s then k EmptyString s caps else None
  end.
End Matcher.

(** A match object: [end] is given by the unconsumed rest. *)
Record match_obj : Type := MkMatch {
  matched : string;      (* group(0) *)
  unmatched : string;    (* the subject from [end()] on *)
  groups : captures
}.

(** [pattern.match(s)]: anchored at the start of [s] (which makes a leading
    [^] redundant), not at its end. *)
Definition re_match (r : regex) (s : string) : option match_obj :=
  rmatch r s [] (fun m rest caps => Some (MkMatch m rest caps)).

(** [m.group(name)] for a group that took part in the match. *)
Definition grp (name : string) (m : match_obj) : string :=
  match group name (groups m) with Some v => v | None => EmptyString end.

(* ------------------------------------------------------------------ *)
(** *** The script's three patterns (lines 9-11) *)

(** Line 9. Group 1 is the date and time: [\d{1,2}/\d{1,2}/\d{2,4}], a comma
    and a space, [\d{1,2}:\d{2}], then optionally [\s?[APMapm]{2}] in a
    group that does not capture. After [" - "] group 2 is the sender, a lazy
    run of any characters up to [": "], and group 3 the body, a greedy run of
    any characters up to [$]. *)
Definition LINE_PATTERN : regex :=
  (RGroup "1"
     (between 1 2 is_digit ;; RLit "/" ;; between 1 2 is_digit ;; RLit "/" ;;
      between 2 4 is_digit ;; RLit ", " ;;
      between 1 2 is_digit ;; RLit ":" ;; times 2 is_digit ;;
      ((opt is_space ;; times 2 (one_of "APMapm")) || REps)) ;;
   RLit " - " ;; RGroup "2" (lazy_star dot) ;; RLit ": " ;;
   RGroup "3" (star dot) ;; REnd)%re.

(** Line 10. Groups 1 and 2 are both greedy runs of any characters, with the
    literal [" added "] between them and [$] after. *)
Definition ADDED_PATTERN : regex :=
  (RGroup "1" (star dot) ;; RLit " added " ;; RGroup "2" (star dot) ;; REnd)%re.

(** Line 11. Group 1 is a greedy run of any characters, followed by the
    literal text and [$]. *)
Definition JOINED_PATTERN : regex :=
  (RGroup "1" (star dot) ;; RLit " joined using this group's invite link" ;;
   REnd)%re.

(* ================================================================== *)
(** ** [datetime]

    A naive [datetime] is its seven fields. Ordering is the lexicographic
    order of the fields; subtraction goes through the proleptic Gregorian
    ordinal of the date, as in [datetime.py]. *)

Record datetime : Type := MkDatetime {
  year : Z; month : Z; day : Z;
  hour : Z; minute : Z; second : Z; microsecond : Z
}.

Definition _is_leap (y : Z) : bool :=
  (y mod 4 =? 0) && (negb (y mod 100 =? 0) || (y mod 400 =? 0)).

Definition _DAYS_IN_MONTH : list Z :=
  [-1; 31; 28; 31; 30; 31; 30; 31; 31; 30; 31; 30; 31].

Definition _DAYS_BEFORE_MONTH : list Z :=
  [-1; 0; 31; 59; 90; 120; 151; 181; 212; 243; 273; 304; 334].

Definition _days_in_month (y m : Z) : Z :=
  if (m =? 2) && _is_leap y then 29 else nth (Z.to_nat m) _DAYS_IN_MONTH 0.

Definition _days_before_year (y : Z) : Z :=
  let y1 := y - 1 in y1 * 365 + y1 / 4 - y1 / 100 + y1 / 400.

Definition _days_before_month (y m : Z) : Z :=
  nth (Z.to_nat m) _DAYS_BEFORE_MONTH 0
  + (if (2 <? m) && _is_leap y then 1 else 0).

Definition _ymd2ord (y m d : Z) : Z :=
  _days_before_year y + _days_before_month y m + d.

Definition toordinal (t : datetime) : Z := _ymd2ord (year t) (month t) (day t).

(** The range checks of the [datetime] constructor ([ValueError] outside). *)
Definition valid_datetime (t : datetime) : bool :=
  (1 <=? year t) && (year t <=? 9999)
  && (1 <=? month t) && (month t <=? 12)
  && (1 <=? day t) && (day t <=? _days_in_month (year t) (month t))
  && (0 <=? hour t) && (hour t <=? 23)
  && (0 <=? minute t) && (minute t <=? 59)
  && (0 <=? second t) && (second t <=? 59)
  && (0 <=? microsecond t) && (microsecond t <=? 999999).

(** The tuple that [datetime] comparison compares. *)
Definition fields (t : datetime) : list Z :=
  [year t; month t; day t; hour t; minute t; second t; microsecond t].

Fixpoint lex_compare (a b : list Z) : comparison :=
  match a, b with
  | [], [] => Eq
  | [], _ :: _ => Lt
  | _ :: _, [] => Gt
  | x :: a', y :: b' =>
      match x ?= y with
      | Eq => lex_compare a' b'
      | c => c
      end
  end.

(** [a > b] on datetimes. *)
Definition dt_gt (a b : datetime) : bool :=
  match lex_compare (fields a) (fields b) with Gt => true | _ => false end.

(** Microseconds since the start of ordinal day 0. *)
Definition to_micros (t : datetime) : Z :=
  (toordinal t * 86400 + (second t + minute t * 60 + hour t * 3600)) * 1000000
  + microsecond t.

(** [(a - b).days]: a [timedelta] is normalised so that its seconds and
    microseconds are not negative, hence the floor. *)
Definition days_between (a b : datetime) : Z :=
  (to_micros a - to_micros b) / 86400000000.

(* ================================================================== *)
(** ** [datetime.strptime]

    [_strptime] turns the format into a regular expression (each directive
    a named group, each run of white space [\s+], everything else itself),
    matches it at the front of the text under IGNORECASE, refuses a match
    that leaves text over, converts the groups, and builds the [datetime].
    Every failure is a [ValueError], here [None]. The locale is the C
    locale, whose AM/PM markers are "am" and "pm". *)

Definition lower_char (c : ascii) : ascii :=
  if in_range "A" "Z" c then ascii_of_nat (code c + 32) else c.

Fixpoint lower (s : string) : string :=
  match s with
  | EmptyString => EmptyString
  | String c s' => String (lower_char c) (lower s')
  end.

(** A literal letter under IGNORECASE. *)
Definition ci (a : ascii) (c : ascii) : bool := Ascii.eqb (lower_char c) a.

(** The regular expression of a directive, from [TimeRE.__init__]. *)
Definition directive (c : ascii) : option regex :=
  let d := is_digit in
  if Ascii.eqb c "d" then
    Some (RGroup "d" (RSet (one_of "3") ;; RSet (in_range "0" "1")
                      || RSet (in_range "1" "2") ;; RSet d
                      || RSet (one_of "0") ;; RSet (in_range "1" "9")
                      || RSet (in_range "1" "9")
                      || RSet (one_of " ") ;; RSet (in_range "1" "9")))%re
  else if Ascii.eqb c "m" then
    Some (RGroup "m" (RSet (one_of "1") ;; RSet (in_range "0" "2")
                      || RSet (one_of "0") ;; RSet (in_range "1" "9")
                      || RSet (in_range "1" "9")))%re
  else if Ascii.eqb c "Y" then Some (RGroup "Y" (times 4 d))
  else if Ascii.eqb c "y" then Some (RGroup "y" (times 2 d))
  else if Ascii.eqb c "H" then
    Some (RGroup "H" (RSet (one_of "2") ;; RSet (in_range "0" "3")
                      || RSet (in_range "0" "1") ;; RSet d
                      || RSet d))%re
  else if Ascii.eqb c "I" then
    Some (RGroup "I" (RSet (one_of "1") ;; RSet (in_range "0" "2")
                      || RSet (one_of "0") ;; RSet (in_range "1" "9")
                      || RSet (in_range "1" "9")))%re
  else if Ascii.eqb c "M" then
    Some (RGroup "M" (RSet (in_range "0" "5") ;; RSet d || RSet d))%re
  else if Ascii.eqb c "p" then
    Some (RGroup "p" (RSet (ci "a") ;; RSet (ci "m")
                      || RSet (ci "p") ;; RSet (ci "m")))%re
  else None.

(** [TimeRE.pattern]: the format read left to right. [in_space] says that
    the previous character was white space, so that a run gives one [\s+]. *)
Fixpoint format_regex (in_space : bool) (format : string) : option regex :=
  match format with
  | EmptyString => Some REps
  | String c rest =>
      if Ascii.eqb c "%" then
        match rest with
        | String x rest' =>
            match directive x, format_regex false rest' with
            | Some r, Some r' => Some (r ;; r')%re
            | _, _ => None
            end
        | EmptyString => None
        end
      else if is_space c then
        match format_regex true rest with
        | Some r' => Some (if in_space then r' else (plus is_space ;; r')%re)
        | None => None
        end
      else
        match format_regex false rest with
        | Some r' => Some (RSet (ci (lower_char c)) ;; r')%re
        | None => None
        end
  end.

Definition digit_value (c : ascii) : Z := Z.of_nat (code c) - 48.

(** [int(s)] for a run of decimal digits, white space around it ignored. *)
Definition py_int (s : string) : Z :=
  fold_left (fun acc c => acc * 10 + digit_value c)
            (list_ascii_of_string (strip s)) 0.

Definition found_year (caps : captures) : Z :=
  match group "y" caps, group "Y" caps with
  | Some v, _ => let y := py_int v in if y <=? 68 then y + 2000 else y + 1900
  | None, Some v => py_int v
  | None, None => 1900
  end.

Definition found_hour (caps : captures) : Z :=
  match group "I" caps, group "H" caps with
  | Some v, _ =>
      let h := py_int v in
      let ampm := match group "p" caps with Some p => lower p | None => "" end in
      if (ampm =? "")%string || (ampm =? "am")%string then
        (if h =? 12 then 0 else h)
      else if (ampm =? "pm")%string then
        (if h =? 12 then h else h + 12)
      else h
  | None, Some v => py_int v
  | None, None => 0
  end.

Definition found_field (name : string) (default : Z) (caps : captures) : Z :=
  match group name caps with Some v => py_int v | None => default end.

Definition strptime (data_string format : string) : option datetime :=
  match format_regex false format with
  | None => None
  | Some format_re =>
      match re_match format_re data_string with
      | None => None
      | Some found =>
          if negb (unmatched found =? "")%string then None
          else
            let caps := groups found in
            let t := MkDatetime (found_year caps)
                                (found_field "m" 1 caps) (found_field "d" 1 caps)
                                (found_hour caps) (found_field "M" 0 caps) 0 0 in
            if valid_datetime t then Some t else None
      end
  end.

(* ------------------------------------------------------------------ *)
(** *** [parse_date] (lines 14-26) *)

Definition formats : list string :=
  [ "%d/%m/%Y, %H:%M";
    "%d/%m/%y, %H:%M";
    "%m/%d/%Y, %I:%M %p";
    "%m/%d/%y, %I:%M %p" ].

(** The [for] loop with its [try]/[except ValueError: continue]. *)
Fixpoint first_parse (date_str : string) (fmts : list string) : option datetime :=
  match fmts with
  | [] => None
  | fmt :: rest =>
      match strptime date_str fmt with
      | Some t => Some t
      | None => first_parse date_str rest
      end
  end.

Definition parse_date (date_str : string) : option datetime :=
  first_parse date_str formats.

(* ================================================================== *)
(** ** The participants dictionary

    [defaultdict(lambda: {"messages": 0, "last": None})]: a [dict] keeps its
    keys in the order they were first inserted, and looking up a missing key
    inserts the default for it. *)

Record stats : Type := MkStats {
  messages : Z;
  last : option datetime
}.

Definition default_stats : stats := MkStats 0 None.

Section Dict.
Context {V : Type}.

Fixpoint lookup (key : string) (d : list (string * V)) : option V :=
  match d with
  | [] => None
  | (k, v) :: d' => if String.eqb k key then Some v else lookup key d'
  end.

(** Mutation of the value stored under [key]; the key keeps its place. *)
Fixpoint update (key : string) (f : V -> V) (d : list (string * V))
    : list (string * V) :=
  match d with
  | [] => []
  | (k, v) :: d' =>
      if String.eqb k key then (k, f v) :: d' else (k, v) :: update key f d'
  end.

Definition keys (d : list (string * V)) : list string := map fst d.
Definition values (d : list (string * V)) : list V := map snd d.
End Dict.

(** The effect of [participants[key]] on the dictionary: [__missing__]
    appends the default under a key that is not there yet. *)
Definition ensure (key : string) (d : list (string * stats))
    : list (string * stats) :=
  match lookup key d with
  | Some _ => d
  | None => d ++ [(key, default_stats)]
  end.

(* ================================================================== *)
(** ** [analyze_chat] (lines 29-69) *)

Record state : Type := MkState {
  participants : list (string * stats);
  total_messages : Z
}.

Definition initial : state := MkState [] 0.

Definition bump (s : stats) : stats := MkStats (messages s + 1) (last s).
Definition set_last (dt : datetime) (s : stats) : stats :=
  MkStats (messages s) (Some dt).

(** Lines 60-63. After the first [participants[sender]] the record is
    there, so the later subscripts only read or write it. *)
Definition record_message (sender : string) (dt : datetime) (st : state) : state :=
  let d := update sender bump (ensure sender (participants st)) in
  let total := total_messages st + 1 in
  let newer :=
    match lookup sender d with
    | Some s =>
        match last s with
        | None => true
        | Some l => dt_gt dt l
        end
    | None => true
    end in
  MkState (if newer then update sender (set_last dt) d else d) total.

Definition record_member (name : string) (st : state) : state :=
  MkState (ensure name (participants st)) (total_messages st).

(** The body of the [for] loop, lines 35-63; each [continue] is a branch
    that returns the state. *)
Definition process_line (st : state) (raw : string) : state :=
  let line := strip raw in
  match re_match ADDED_PATTERN line with
  | Some m_added => record_member (strip (grp "2" m_added)) st
  | None =>
      match re_match JOINED_PATTERN line with
      | Some m_joined => record_member (strip (grp "1" m_joined)) st
      | None =>
          match re_match LINE_PATTERN line with
          | None => st
          | Some m =>
              match parse_date (grp "1" m) with
              | None => st
              | Some dt => record_message (grp "2" m) dt st
              end
          end
      end
  end.

Definition ingest (lines : list string) : state :=
  fold_left process_line lines initial.

(** A Python number: [contribution] is the [int] 0 of the [else] branch or
    the [float] that [round] returns. *)
Inductive pynum : Type :=
| PyInt (z : Z)
| PyFloat (f : float).

(** [float(z)], correctly rounded, for [0 <= z < 2^63]. *)
Definition float_of_Z (z : Z) : float :=
  PrimFloat.of_uint63 (Uint63.of_Z z).

(** The integer nearest to [m * 2^e], ties to even. *)
Definition nearest_even (m e : Z) : Z :=
  if 0 <=? e then m * 2 ^ e
  else
    let den := 2 ^ (- e) in
    let q := m / den in
    let r := m mod den in
    if 2 * r <? den then q
    else if den <? 2 * r then q + 1
    else if Z.even q then q else q + 1.

(** [round(x, 2)] on a float: the exact value of [x] is rounded to hundredths,
    ties to even, and the double nearest to that decimal is returned (the
    quotient of the two exactly represented operands, correctly rounded). *)
Definition round2 (x : float) : float :=
  match Prim2SF x with
  | S754_finite sign m e =>
      let r := (float_of_Z (nearest_even (Z.pos m * 100) e) / 100)%float in
      if sign then (- r)%float else r
  | _ => x
  end.

(** Line 67: [round(messages/total_messages*100, 2) if total_messages else 0].
    For counts below 2^53 the true division of two [int]s is the quotient of
    the converted operands. *)
Definition contribution_of (msgs total : Z) : pynum :=
  if total =? 0 then PyInt 0
  else PyFloat (round2 (float_of_Z msgs / float_of_Z total * 100)%float).

(** A finalized record: the dictionary of a participant once line 67 has
    added its third key. *)
Record record : Type := MkRecord {
  r_messages : Z;
  r_last : option datetime;
  contribution : pynum
}.

Definition finalize_stats (total : Z) (s : stats) : record :=
  MkRecord (messages s) (last s) (contribution_of (messages s) total).

Definition finalize (st : state) : list (string * record) * Z :=
  (map (fun kv => (fst kv, finalize_stats (total_messages st) (snd kv)))
       (participants st),
   total_messages st).

(** [analyze_chat] on the lines that iterating over the file yields. *)
Definition analyze_chat (lines : list string) : list (string * record) * Z :=
  finalize (ingest lines).

(* ================================================================== *)
(** ** Status: the four places that compute it *)

(** [x >= 1] and [x < 1] on a Python number. *)
Definition ge1 (x : pynum) : bool :=
  match x with
  | PyInt z => 1 <=? z
  | PyFloat f => (1 <=? f)%float
  end.

Definition lt1 (x : pynum) : bool :=
  match x with
  | PyInt z => z <? 1
  | PyFloat f => (f <? 1)%float
  end.

(** The condition of lines 77, 96, 103 and 117, with [and] short-circuiting
    from the left; a [datetime] is always true, so [stats["last"]] is true
    exactly when it is not [None]. *)
Definition is_active (now : datetime) (inactivity_days : Z) (r : record) : bool :=
  (1 <=? r_messages r) && ge1 (contribution r)
  && match r_last r with
     | Some l => days_between now l <=? inactivity_days
     | None => false
     end.

(** The condition of line 152, with [or] short-circuiting from the left. *)
Definition pie_inactive (now : datetime) (inactivity_days : Z) (r : record) : bool :=
  (r_messages r <? 1) || lt1 (contribution r)
  || match r_last r with
     | None => true
     | Some l => inactivity_days <? days_between now l
     end.

(** Lines 72-81: the pair [(active_count, inactive_count)]. *)
Fixpoint member_status_counts_loop (now : datetime) (inactivity_days : Z)
    (rs : list record) (active_count inactive_count : Z) : Z * Z :=
  match rs with
  | [] => (active_count, inactive_count)
  | r :: rs' =>
      if is_active now inactivity_days r
      then member_status_counts_loop now inactivity_days rs' (active_count + 1) inactive_count
      else member_status_counts_loop now inactivity_days rs' active_count (inactive_count + 1)
  end.

Definition member_status_counts (now : datetime) (ps : list (string * record))
    (inactivity_days : Z) : Z * Z :=
  member_status_counts_loop now inactivity_days (values ps) 0 0.

Definition default_inactivity_days : Z := 90.

(** [sorted(items, key=...)]: a stable sort, so that items with equal keys keep
    the order they have in [items]. An item goes in front of the first
    already sorted item whose key is not smaller than its own. *)
Section Sorted.
Context {A : Type} (key : A -> Z * Z).

(** [a <= b] on pairs of integers. *)
Definition key_le (a b : Z * Z) : bool :=
  (fst a <? fst b) || ((fst a =? fst b) && (snd a <=? snd b)).

Fixpoint insert_sorted (x : A) (l : list A) : list A :=
  match l with
  | [] => [x]
  | y :: l' =>
      if key_le (key x) (key y) then x :: l else y :: insert_sorted x l'
  end.

Definition sorted (items : list A) : list A :=
  fold_right insert_sorted [] items.

(** [x] may stand before [y]: its key is not the greater one. *)
Definition key_ordered (x y : A) : Prop := key_le (key x) (key y) = true.
End Sorted.

(** The [key] of lines 95-98. *)
Definition report_key (now : datetime) (x : string * record) : Z * Z :=
  ((if is_active now 90 (snd x) then 0 else 1), - r_messages (snd x)).

Definition status_text (active : bool) : string :=
  if active then "Active" else "Inactive".

(** A row of the table or of the CSV file. *)
Definition row : Type := string * Z * pynum * string.

Definition make_row (active : record -> bool) (x : string * record) : row :=
  (fst x, r_messages (snd x), contribution (snd x), status_text (active (snd x))).

Record report : Type := MkReport {
  report_members : Z;
  report_active : Z;
  report_inactive : Z;
  report_total_messages : Z;
  report_rows : list row
}.

(** Lines 84-105. [now0] is the instant read inside [member_status_counts]
    and [now] the one read at line 92. *)
Definition print_report (now0 now : datetime) (ps : list (string * record))
    (total : Z) : report :=
  let '(active_count, inactive_count) :=
    member_status_counts now0 ps default_inactivity_days in
  let sorted_participants := sorted (report_key now) ps in
  MkReport (Z.of_nat (List.length ps)) active_count inactive_count total
           (map (make_row (is_active now 90)) sorted_participants).

Record csv_file : Type := MkCsv {
  csv_rows : list row;
  csv_members : Z;
  csv_active : Z;
  csv_inactive : Z
}.

(** Lines 108-125. [now] is read at line 109, [now0] inside the call of
    [member_status_counts] at line 110. *)
Definition export_csv (now now0 : datetime) (ps : list (string * record)) : csv_file :=
  let '(active_count, inactive_count) :=
    member_status_counts now0 ps default_inactivity_days in
  MkCsv (map (make_row (is_active now 90)) ps)
        (Z.of_nat (List.length ps)) active_count inactive_count.

(** A cell handed to [writer.writerow]: a [str], an [int] or the number of
    the contribution. *)
Inductive cell : Type :=
| CStr (s : string)
| CInt (z : Z)
| CNum (x : pynum).

(** Lines 114-124: the rows written to the file, in order: the header, one
    row for each participant, an empty row and the three summary rows. *)
Definition csv_written (f : csv_file) : list (list cell) :=
  ([CStr "Participant"; CStr "Messages"; CStr "Contribution (%)"; CStr "Status"]
   :: map (fun r : row =>
             let '(sender, messages, contribution, status) := r in
             [CStr sender; CInt messages; CNum contribution; CStr status])
          (csv_rows f))
  ++ [ [];
       [CStr "Total Members"; CInt (csv_members f)];
       [CStr "Active Members"; CInt (csv_active f)];
       [CStr "Inactive Members"; CInt (csv_inactive f)] ].

(** Lines 148-154: the two numbers handed to [plt.pie]. *)
Fixpoint pie_inactive_count (now : datetime) (inactivity_days : Z)
    (rs : list record) (inactive_count : Z) : Z :=
  match rs with
  | [] => inactive_count
  | r :: rs' =>
      pie_inactive_count now inactivity_days rs'
        (if pie_inactive now inactivity_days r then inactive_count + 1
         else inactive_count)
  end.

Definition plot_activity_pie (now : datetime) (ps : list (string * record))
    (inactivity_days : Z) : Z * Z :=
  let inactive_count := pie_inactive_count now inactivity_days (values ps) 0 in
  (Z.of_nat (List.length ps) - inactive_count, inactive_count).

(* ================================================================== *)
(** ** [plot_leaderboard] and [main] (lines 128-168) *)

(** [sorted(items, key=..., reverse=True)]: the list is reversed, sorted and
    reversed back, so that items with equal keys still keep the order they
    have in [items]. *)
Definition sorted_reverse {A : Type} (key : A -> Z * Z) (items : list A) : list A :=
  rev (sorted key (rev items)).

(** The [key] of line 129, a single integer: as a pair whose second
    component is constant it compares as that integer does. *)
Definition leaderboard_key (x : string * record) : Z * Z := (r_messages (snd x), 0).

(** What [plot_leaderboard] hands to [plt.bar]: the names, the heights and
    the colour of each bar, the first one repainted by line 140. *)
Record leaderboard : Type := MkLeaderboard {
  lb_names : list string;
  lb_msgs : list Z;
  lb_colors : list string
}.

Definition plot_leaderboard (ps : list (string * record)) : leaderboard :=
  let sorted_participants := firstn 5 (sorted_reverse leaderboard_key ps) in
  let names := map fst sorted_participants in
  let msgs := map (fun x => r_messages (snd x)) sorted_participants in
  let bars := map (fun _ => "#4CAF50") msgs in
  MkLeaderboard names msgs
    (match bars with
     | [] => []
     | _ :: others => "#FFD700" :: others
     end).

(** What one run shows: the report, the CSV file, the bar chart and the two
    numbers of the pie chart. *)
Record outputs : Type := MkOutputs {
  out_report : report;
  out_csv : csv_file;
  out_leaderboard : leaderboard;
  out_pie : Z * Z
}.

(** [main] on the lines of the chat file. The five instants are the values
    of [datetime.now()] in the order the calls are made: inside
    [member_status_counts] and at line 92 for the report, at line 109 and
    inside [member_status_counts] for the CSV file, and at line 150. *)
Definition main (lines : list string) (t1 t2 t3 t4 t5 : datetime) : outputs :=
  let '(participants, total_messages) := analyze_chat lines in
  MkOutputs (print_report t1 t2 participants total_messages)
            (export_csv t3 t4 participants)
            (plot_leaderboard participants)
            (plot_activity_pie t5 participants default_inactivity_days).

(* ================================================================== *)
(** ** Notions used to state the properties *)

(** Every character of [s] satisfies [p]. *)
Fixpoint all (p : ascii -> bool) (s : string) : bool :=
  match s with
  | EmptyString => true
  | String c s' => p c && all p s'
  end.

(** The name that line 40 computes, when the pattern of line 38 matches. *)
Definition added_member (line : string) : option string :=
  match re_match ADDED_PATTERN line with
  | Some m_added => Some (strip (grp "2" m_added))
  | None => None
  end.

(** The literal between the two groups of [ADDED_PATTERN]. *)
Definition added_token : string := " added ".

(** The continuations of the two groups of [ADDED_PATTERN]: what follows
    group 1, and what [$] accepts after group 2. *)
Definition added_tail (m1 m2 rest : string) : option match_obj :=
  if at_end rest
  then Some (MkMatch (m1 ++ added_token ++ m2 ++ "") rest [("2", m2); ("1", m1)])
  else None.

Definition added_after_group1 (m1 s1 : string) : option match_obj :=
  match drop_prefix added_token s1 with
  | Some rest => rep true dot 0 None rest (added_tail m1)
  | None => None
  end.

(** The branch of the loop body that a stripped line takes, in the
    specification's vocabulary: the tests of lines 38-58 in their order. *)
Inductive event : Type :=
| MemberAddedEvent (memberName : string)
| MemberJoinedEvent (memberName : string)
| MessageEvent (timestamp : datetime) (sender body : string)
| Unrecognized.

Definition classify (line : string) : event :=
  match re_match ADDED_PATTERN line with
  | Some m_added => MemberAddedEvent (strip (grp "2" m_added))
  | None =>
      match re_match JOINED_PATTERN line with
      | Some m_joined => MemberJoinedEvent (strip (grp "1" m_joined))
      | None =>
          match re_match LINE_PATTERN line with
          | None => Unrecognized
          | Some m =>
              match parse_date (grp "1" m) with
              | None => Unrecognized
              | Some dt => MessageEvent dt (grp "2" m) (grp "3" m)
              end
          end
      end
  end.

(** What each branch does to the state. *)
Definition apply_event (st : state) (e : event) : state :=
  match e with
  | MemberAddedEvent name | MemberJoinedEvent name => record_member name st
  | MessageEvent dt sender _ => record_message sender dt st
  | Unrecognized => st
  end.

(** The timestamps of the messages that [name] sent, in transcript order. *)
Fixpoint timestamps_of (name : string) (lines : list string) : list datetime :=
  match lines with
  | [] => []
  | raw :: rest =>
      match classify (strip raw) with
      | MessageEvent dt sender _ =>
          if String.eqb sender name then dt :: timestamps_of name rest
          else timestamps_of name rest
      | _ => timestamps_of name rest
      end
  end.

(** [sum(... for stats in participants.values())]. *)
Definition sum_messages (d : list (string * stats)) : Z :=
  fold_right Z.add 0 (map messages (values d)).

Definition sum_r_messages (d : list (string * record)) : Z :=
  fold_right Z.add 0 (map r_messages (values d)).

(** The record of [name], or the default one that a first subscript makes. *)
Definition stats_of (name : string) (d : list (string * stats)) : stats :=
  match lookup name d with
  | Some s => s
  | None => default_stats
  end.

(** [max(current, timestamp)], an absent [current] counting as minus infinity. *)
Definition later_of (current : option datetime) (timestamp : datetime) : datetime :=
  match current with
  | None => timestamp
  | Some l => if dt_gt timestamp l then timestamp else l
  end.

(** The line of the example and the instant it carries. *)
Definition alice_line : string := "12/5/23, 14:05 - Alice: hello".
Definition alice_time : datetime := MkDatetime 2023 5 12 14 5 0 0.

(** A message line with a month/day date and a 24-hour time, which no format
    of [parse_date] reads. *)
Definition unparsed_line : string := "12/25/23, 14:05 - Bob: hello".

(** The latest of a run of timestamps, folded the way line 62 does. *)
Definition latest (ts : list datetime) : option datetime :=
  fold_left (fun acc t => Some (later_of acc t)) ts None.

(** The example of the status rule: five messages, half a percent of the
    traffic, last seen the day before [noon]. *)
Definition noon : datetime := MkDatetime 2024 6 15 12 0 0 0.
Definition day_before : datetime := MkDatetime 2024 6 14 12 0 0 0.
Definition small_talker : record := MkRecord 5 (Some day_before) (PyFloat 0.5).

(** The example of the ranking: A and C active with ten messages each, B
    with fifty messages but last seen long before [noon]; the records were
    created in the order A, B, C. *)
Definition long_ago : datetime := MkDatetime 2023 1 1 9 30 0 0.
Definition ranking_example : list (string * record) :=
  [ ("A", MkRecord 10 (Some day_before) (contribution_of 10 70));
    ("B", MkRecord 50 (Some long_ago) (contribution_of 50 70));
    ("C", MkRecord 10 (Some day_before) (contribution_of 10 70)) ].

(** The order of the report, in words: an active record goes before an
    inactive one, and of two records of the same status the one with more
    messages goes first. *)
Definition ranks_before (now : datetime) (x y : string * record) : Prop :=
  (is_active now 90 (snd x) = true /\ is_active now 90 (snd y) = false)
  \/ (is_active now 90 (snd x) = is_active now 90 (snd y)
      /\ r_messages (snd y) <= r_messages (snd x)).

(** The records of one status and one message count. *)
Definition same_rank (now : datetime) (active : bool) (count : Z)
    (x : string * record) : bool :=
  Bool.eqb (is_active now 90 (snd x)) active && (r_messages (snd x) =? count).

(** The example of the contribution: ten messages, two of them from Eve,
    and Frank only added. *)
Definition eve_transcript : list string :=
  [ "1/6/24, 09:00 - Bob: morning";
    "1/6/24, 09:01 - Eve: hello";
    "1/6/24, 09:02 - Bob added Frank";
    "1/6/24, 09:03 - Bob: welcome";
    "1/6/24, 09:04 - Bob: anyone there";
    "2/6/24, 10:15 - Eve: yes";
    "2/6/24, 10:16 - Bob: good";
    "3/6/24, 11:00 - Bob: agenda";
    "3/6/24, 11:01 - Bob: item one";
    "3/6/24, 11:02 - Bob: item two";
    "3/6/24, 11:03 - Bob: done" ].

(** A Python number of which exactly one of [x >= 1] and [x < 1] holds:
    every [int], and every [float] but a NaN. *)
Definition is_number (x : pynum) : bool := xorb (ge1 x) (lt1 x).

(** How many rows carry a status. *)
Definition count_status (status : string) (rows : list row) : Z :=
  Z.of_nat (List.length (filter (fun r : row => String.eqb (snd r) status) rows)).

(** How many records a predicate holds of. *)
Definition count_records (p : record -> bool) (ps : list (string * record)) : Z :=
  Z.of_nat (List.length (filter p (values ps))).

(** No record has a negative count. *)
Definition counts_nonneg (d : list (string * stats)) : Prop :=
  Forall (fun kv => 0 <= messages (snd kv)) d.

(** The columns of a row. *)
Definition row_name (r : row) : string := fst (fst (fst r)).
Definition row_messages (r : row) : Z := snd (fst (fst r)).
Definition row_status (r : row) : string := snd r.

(** The sum of the Messages column. *)
Definition messages_column_sum (rows : list row) : Z :=
  fold_right Z.add 0 (map row_messages rows).

(** The literal that ends a joined line, and the continuation of group 1 of
    [JOINED_PATTERN]. *)
Definition joined_suffix : string := " joined using this group's invite link".

Definition joined_after_group1 (m1 s1 : string) : option match_obj :=
  match drop_prefix joined_suffix s1 with
  | Some rest =>
      if at_end rest
      then Some (MkMatch (m1 ++ joined_suffix ++ "") rest [("1", m1)])
      else None
  | None => None
  end.

(** [token in line]. *)
Definition contains (token line : string) : Prop :=
  exists a b, line = a ++ token ++ b.

(** The line names [name]: as the member of an added or joined event, or as
    the sender of a message. *)
Definition mentions (name raw : string) : bool :=
  match classify (strip raw) with
  | MemberAddedEvent n | MemberJoinedEvent n => String.eqb n name
  | MessageEvent _ sender _ => String.eqb sender name
  | Unrecognized => false
  end.

(** The line is counted as a message. *)
Definition is_message (raw : string) : bool :=
  match classify (strip raw) with
  | MessageEvent _ _ _ => true
  | _ => false
  end.

(** A timestamp as [parse_date] makes them: a real calendar date and time of
    day, to the minute. *)
Definition to_the_minute (t : datetime) : Prop :=
  valid_datetime t = true /\ second t = 0 /\ microsecond t = 0.

(** The number of days of a year. *)
Definition year_length (y : Z) : Z := if _is_leap y then 366 else 365.

(** The date and time part of [LINE_PATTERN], the inside of its group 1,
    and the continuations of its three groups. *)
Definition line_date : regex :=
  (between 1 2 is_digit ;; RLit "/" ;; between 1 2 is_digit ;; RLit "/" ;;
   between 2 4 is_digit ;; RLit ", " ;;
   between 1 2 is_digit ;; RLit ":" ;; times 2 is_digit ;;
   ((opt is_space ;; times 2 (one_of "APMapm")) || REps))%re.

Definition line_tail (caps : captures) (d sender body rest : string)
    : option match_obj :=
  if at_end rest
  then Some (MkMatch (d ++ " - " ++ sender ++ ": " ++ body ++ "") rest
                     (("3", body) :: ("2", sender) :: ("1", d) :: caps))
  else None.

Definition line_after_sender (caps : captures) (d sender s3 : string)
    : option match_obj :=
  match drop_prefix ": " s3 with
  | Some s4 => rep true dot 0 None s4 (line_tail caps d sender)
  | None => None
  end.

Definition line_after_date (caps : captures) (d s1 : string) : option match_obj :=
  match drop_prefix " - " s1 with
  | Some s2 => rep false dot 0 None s2 (line_after_sender caps d)
  | None => None
  end.

(** The expression has no capturing group. *)
Fixpoint group_free (r : regex) : bool :=
  match r with
  | RGroup _ _ => false
  | RSeq r1 r2 | RAlt r1 r2 => group_free r1 && group_free r2
  | _ => true
  end.

(** The texts that an expression can consume, captures left aside. *)
Fixpoint lang (r : regex) (m : string) : Prop :=
  match r with
  | REps | REnd => m = ""
  | RLit l => m = l
  | RSet p => exists c, m = String c "" /\ p c = true
  | RRep _ p lo hi =>
      all p m = true /\ (lo <= String.length m)%nat
      /\ match hi with
         | None => True
         | Some h => (String.length m <= h)%nat
         end
  | RSeq r1 r2 => exists m1 m2, m = m1 ++ m2 /\ lang r1 m1 /\ lang r2 m2
  | RAlt r1 r2 => lang r1 m \/ lang r2 m
  | RGroup _ r1 => lang r1 m
  end.

(** The expression of a directive that [_strptime] knows. *)
Definition dir (c : ascii) : regex :=
  match directive c with
  | Some r => r
  | None => REps
  end.

(** The last character of a text. *)
Definition ends_with (c : ascii) (s : string) : Prop :=
  exists init, s = init ++ String c "".

Definition digit_or_space (c : ascii) : bool := is_digit c || Ascii.eqb c " ".

(** The expressions of the two families of formats, with the year directive
    [y] left open: day first with a 24-hour clock, month first with a
    12-hour clock and a marker. *)
Definition sep (c : ascii) : regex := RSet (ci c).

Definition day_first_regex (y : ascii) : regex :=
  (dir "d" ;; sep "/" ;; dir "m" ;; sep "/" ;; dir y ;; sep "," ;; plus is_space ;;
   dir "H" ;; sep ":" ;; dir "M" ;; REps)%re.

Definition month_first_regex (y : ascii) : regex :=
  (dir "m" ;; sep "/" ;; dir "d" ;; sep "/" ;; dir y ;; sep "," ;; plus is_space ;;
   dir "I" ;; sep ":" ;; dir "M" ;; plus is_space ;; dir "p" ;; REps)%re.

(** What a date that a format reads looks like: two short runs of digits
    (or a space), each followed by a slash, a year of [n] digits followed by
    a comma, and a last character that is a digit for the 24-hour clock and
    an M for the 12-hour clock. *)
Definition date_shape (clock24 : bool) (n : nat) (s : string) : Prop :=
  exists a b y rest c,
    s = a ++ "/" ++ b ++ "/" ++ y ++ "," ++ rest
    /\ all digit_or_space a = true /\ all digit_or_space b = true
    /\ all is_digit y = true /\ String.length y = n
    /\ ends_with c s
    /\ (if clock24 then is_digit c = true else ci "m" c = true).

(** The clock and the number of digits of the year of each format. *)
Definition format_shape (fmt : string) : bool * nat :=
  if (fmt =? "%d/%m/%Y, %H:%M")%string then (true, 4%nat)
  else if (fmt =? "%d/%m/%y, %H:%M")%string then (true, 2%nat)
  else if (fmt =? "%m/%d/%Y, %I:%M %p")%string then (false, 4%nat)
  else (false, 2%nat).

(** The integer in the second column of a written row, when there is one. *)
Definition second_column (r : list cell) : option Z :=
  match r with
  | _ :: CInt z :: _ => Some z
  | _ => None
  end.

(** The sum of the integers that stand under the header of the second
    column, "Messages", in the rows of a file. *)
Definition file_column_sum (rows : list (list cell)) : Z :=
  fold_right (fun r acc => match second_column r with
                           | Some z => z + acc
                           | None => acc
                           end) 0 (tl rows).

(** The share [msgs / total * 100] rounded to two decimals as a rational
    number, counted in hundredths: the integer nearest to
    [10000 * msgs / total], a share halfway between two hundredths going to
    the even one, the rule that [round] documents. *)
Definition rounded_share (msgs total : Z) : Z :=
  let q := 10000 * msgs / total in
  let r := (10000 * msgs) mod total in
  if 2 * r <? total then q
  else if total <? 2 * r then q + 1
  else if Z.even q then q else q + 1.

(** The exact share lies halfway between two hundredths. *)
Definition share_is_tie (msgs total : Z) : bool :=
  2 * ((10000 * msgs) mod total) =? total.

(** Three messages, one of them from Ann: shares of a third and two thirds. *)
Definition thirds_transcript : list string :=
  [ "1/6/24, 09:00 - Ann: one";
    "1/6/24, 09:01 - Ben: two";
    "1/6/24, 09:02 - Ben: three" ].

(** 160 messages: 23 from Eve, 49 from Dan and 88 from Bob. The shares of
    Eve and Dan, 14.375 and 30.625, lie halfway between two hundredths. *)
Definition tie_transcript : list string :=
  (repeat "1/6/24, 09:00 - Eve: a" 23 ++ repeat "1/6/24, 09:01 - Dan: b" 49
   ++ repeat "1/6/24, 09:02 - Bob: c" 88)%list.

(** The position of [r / d] with respect to one half, for [0 <= r < d], as
    the rounding of [SpecFloat] records it. *)
Definition loc_of (r d : Z) : location :=
  if r =? 0 then loc_Exact else loc_Inexact (2 * r ?= d).

(** The quotient [p / d] with the position of what is left. *)
Definition rec_of (p d : Z) : shr_record :=
  shr_record_of_loc (p / d) (loc_of (p mod d) d).

(** The rational value of a positive finite binary64 number. *)
Definition Qvalue (m : positive) (e : Z) : Q := (inject_Z (Z.pos m) * 2 ^ e)%Q.


(* ================================================================== *)
(** * Properties *)

(** ** Strings *)

Lemma append_nil_r (s : string) : s ++ "" = s.
Proof. induction s as [|c s IH]; simpl; [reflexivity | now rewrite IH]. Qed.

Lemma append_assoc (a b c : string) : (a ++ b) ++ c = a ++ (b ++ c).
Proof. induction a as [|x a IH]; simpl; [reflexivity | now rewrite IH]. Qed.

Lemma length_append (a b : string) :
  String.length (a ++ b) = (String.length a + String.length b)%nat.
Proof. induction a as [|x a IH]; simpl; [reflexivity | now rewrite IH]. Qed.

Lemma all_append (p : ascii -> bool) (a b : string) :
  all p (a ++ b) = all p a && all p b.
Proof.
  induction a as [|x a IH]; simpl; [reflexivity|].
  now rewrite IH, andb_assoc.
Qed.

Lemma drop_prefix_spec (p s r : string) :
  drop_prefix p s = Some r <-> s = p ++ r.
Proof.
  revert s; induction p as [|a p IH]; intros s; simpl.
  - split; [now intros [= ->] | now intros ->].
  - destruct s as [|b s].
    + split; discriminate.
    + destruct (Ascii.eqb_spec a b) as [->|Hab].
      * rewrite IH. split; [now intros -> | now intros [= ->]].
      * split; [discriminate | intros [= E _]; now elim Hab].
Qed.

Lemma drop_prefix_append (p r : string) : drop_prefix p (p ++ r) = Some r.
Proof. now apply drop_prefix_spec. Qed.

(** ** The greedy star *)

Section GreedyStar.
Context {R : Type} (p : ascii -> bool).

(** No split of the subject is accepted: the repetition fails. *)
Lemma rep_star_none (g : bool) (s : string) (k : string -> string -> option R) :
  (forall u v, s = u ++ v -> all p u = true -> k u v = None) ->
  rep g p 0 None s k = None.
Proof.
  revert k; induction s as [|c s IH]; intros k Hk; simpl.
  - now apply (Hk "" "").
  - assert (H0 : k "" (String c s) = None) by now apply (Hk "" (String c s)).
    assert (Hrec : p c = true ->
                   rep g p 0 None s (fun m rest => k (String c m) rest) = None).
    { intros Hc. apply IH. intros u v -> Hu. apply (Hk (String c u) v); simpl.
      - reflexivity.
      - now rewrite Hc. }
    destruct (p c); simpl; [|exact H0].
    rewrite (Hrec eq_refl), H0. now destruct g.
Qed.

(** Some split is accepted: the repetition succeeds. *)
Lemma rep_star_some (g : bool) (s : string) (k : string -> string -> option R)
    (u v : string) (x : R) :
  s = u ++ v -> all p u = true -> k u v = Some x ->
  exists y, rep g p 0 None s k = Some y.
Proof.
  revert k u; induction s as [|c s IH]; intros k u Hs Hu Hk.
  - destruct u; [|discriminate]. simpl in Hs; subst v. simpl. eauto.
  - destruct u as [|d u].
    + simpl in Hs; subst v. simpl.
      destruct (p c); simpl; [|eauto].
      destruct g.
      * destruct (rep true p 0 None s (fun m rest => k (String c m) rest)); eauto.
      * rewrite Hk. eauto.
    + simpl in Hs. injection Hs as <- ->. simpl in Hu.
      apply andb_prop in Hu as [Hc Hu].
      destruct (IH (fun m rest => k (String c m) rest) u eq_refl Hu Hk) as [y Hy].
      simpl. rewrite Hc. simpl. destruct g.
      * rewrite Hy. eauto.
      * destruct (k "" (String c (u ++ v))); eauto.
Qed.

(** What a greedy star returns is the answer of the continuation at the
    longest accepted split. *)
Lemma rep_star_greedy_inv (s : string) (k : string -> string -> option R) (x : R) :
  rep true p 0 None s k = Some x ->
  exists u v, s = u ++ v /\ all p u = true /\ k u v = Some x /\
    forall u' v', s = u' ++ v' -> all p u' = true ->
                  (String.length u < String.length u')%nat -> k u' v' = None.
Proof.
  revert k; induction s as [|c s IH]; intros k H; simpl in H.
  - exists "", "". repeat split; auto.
    intros u' v' E _ Hlt. destruct u'; [simpl in Hlt; lia | discriminate].
  - destruct (p c) eqn:Hc; simpl in H.
    + destruct (rep true p 0 None s (fun m rest => k (String c m) rest)) eqn:Hr.
      * injection H as ->.
        destruct (IH _ Hr) as (u & v & -> & Hu & Hk & Hmax).
        exists (String c u), v. simpl. rewrite Hc, Hu. repeat split; auto.
        intros u' v' E Hu' Hlt. destruct u' as [|d u']; [simpl in Hlt; lia|].
        simpl in E. injection E as <- E. simpl in Hu'.
        apply andb_prop in Hu' as [_ Hu'].
        apply (Hmax u' v' E Hu'). simpl in Hlt. lia.
      * exists "", (String c s). repeat split; auto.
        intros u' v' E Hu' Hlt. destruct u' as [|d u']; [simpl in Hlt; lia|].
        simpl in E. injection E as <- E. simpl in Hu'.
        apply andb_prop in Hu' as [_ Hu'].
        assert (Hn : forall a b, s = a ++ b -> all p a = true ->
                                 k (String c a) b = None).
        { intros a b Eab Ha.
          destruct (k (String c a) b) eqn:Hk; [|reflexivity].
          destruct (rep_star_some true s (fun m rest => k (String c m) rest)
                      a b r Eab Ha Hk) as [y Hy].
          congruence. }
        now apply Hn.
    + exists "", (String c s). repeat split; auto.
      intros u' v' E Hu' Hlt. destruct u' as [|d u']; [simpl in Hlt; lia|].
      simpl in E. injection E as <- E. simpl in Hu'.
      rewrite Hc in Hu'. discriminate.
Qed.
End GreedyStar.

(** ** The added pattern *)


Lemma added_pattern_unfold (line : string) :
  re_match ADDED_PATTERN line = rep true dot 0 None line added_after_group1.
Proof. reflexivity. Qed.

Lemma at_end_dot (s : string) : all dot s = true -> at_end s = true -> s = "".
Proof.
  destruct s as [|c [|d s]]; simpl; try easy.
  unfold dot. intros H E. rewrite E in H. discriminate.
Qed.

(** On text without a line feed the second group takes everything. *)
Lemma added_group2_all (m1 rest : string) :
  all dot rest = true ->
  rep true dot 0 None rest (added_tail m1)
  = Some (MkMatch (m1 ++ added_token ++ rest ++ "") "" [("2", rest); ("1", m1)]).
Proof.
  intros Hdot.
  destruct (rep_star_some dot true rest (added_tail m1) rest "" _
              (eq_sym (append_nil_r rest)) Hdot eq_refl) as [y Hy].
  rewrite Hy.
  apply rep_star_greedy_inv in Hy as (u & v & E & Hu & Hk & _).
  unfold added_tail in Hk. destruct (at_end v) eqn:Hv; [|discriminate].
  assert (v = "").
  { apply at_end_dot; [|exact Hv]. rewrite E, all_append in Hdot.
    now apply andb_prop in Hdot. }
  subst v. rewrite append_nil_r in E. subst u. now injection Hk as <-.
Qed.

Lemma process_line_added (st : state) (raw : string) (m : match_obj) :
  re_match ADDED_PATTERN (strip raw) = Some m ->
  process_line st raw = record_member (strip (grp "2" m)) st.
Proof. unfold process_line. now intros ->. Qed.

(** C3, as the code has it. A stripped line [a ++ " added " ++ b] (a line of
    a text file, so without a line feed) always matches the added pattern,
    which is tried first: the line is consumed as an added-event whatever
    else it looks like. Group 1 is greedy, so the member name is the text
    after the LAST occurrence of " added ", stripped of white space. *)
Theorem added_line_takes_last_token (a b : string) :
  all dot (a ++ added_token ++ b) = true ->
  exists m a' b',
    re_match ADDED_PATTERN (a ++ added_token ++ b) = Some m
    /\ a ++ added_token ++ b = a' ++ added_token ++ b'
    /\ grp "1" m = a' /\ grp "2" m = b'
    /\ (forall a'' b'', a ++ added_token ++ b = a'' ++ added_token ++ b'' ->
                        (String.length a'' <= String.length a')%nat)
    /\ added_member (a ++ added_token ++ b) = Some (strip b')
    /\ forall st raw, strip raw = a ++ added_token ++ b ->
                      process_line st raw = record_member (strip b') st.
Proof.
  intros Hdot. set (line := a ++ added_token ++ b) in *.
  assert (Hinner : forall x y, line = x ++ added_token ++ y ->
            all dot x = true /\
            added_after_group1 x (added_token ++ y)
            = Some (MkMatch (x ++ added_token ++ y ++ "") ""
                            [("2", y); ("1", x)])).
  { intros x y E. rewrite E, !all_append in Hdot.
    apply andb_prop in Hdot as [Hx Hy]. apply andb_prop in Hy as [_ Hy].
    split; [exact Hx|].
    unfold added_after_group1. rewrite drop_prefix_append.
    now apply added_group2_all. }
  destruct (Hinner a b eq_refl) as [Ha Hab].
  destruct (rep_star_some dot true line added_after_group1 a (added_token ++ b) _
              eq_refl Ha Hab) as [m Hm].
  pose proof Hm as Hinv.
  apply rep_star_greedy_inv in Hinv as (u & v & E & Hu & Hk & Hmax).
  unfold added_after_group1 in Hk.
  destruct (drop_prefix added_token v) as [rest|] eqn:Hv; [|discriminate].
  apply drop_prefix_spec in Hv. subst v.
  destruct (Hinner u rest E) as [_ Hur].
  unfold added_after_group1 in Hur. rewrite drop_prefix_append in Hur.
  rewrite Hur in Hk. injection Hk as <-.
  assert (Hre : re_match ADDED_PATTERN line
                = Some (MkMatch (u ++ added_token ++ rest ++ "") ""
                                [("2", rest); ("1", u)]))
    by (rewrite added_pattern_unfold; exact Hm).
  exists (MkMatch (u ++ added_token ++ rest ++ "") "" [("2", rest); ("1", u)]), u, rest.
  split; [exact Hre|]. split; [exact E|].
  split; [reflexivity|]. split; [reflexivity|]. split.
  - intros a'' b'' E''.
    destruct (Nat.le_gt_cases (String.length a'') (String.length u)) as [|Hlt];
      [assumption|].
    destruct (Hinner a'' b'' E'') as [Ha'' Hk''].
    rewrite (Hmax a'' (added_token ++ b'') E'' Ha'' Hlt) in Hk''. discriminate.
  - split.
    + unfold added_member. now rewrite Hre.
    + intros st raw Hraw. rewrite <- Hraw in Hre.
      now rewrite (process_line_added st raw _ Hre).
Qed.

Lemma added_line_takes_last_token_witness :
  exists m a' b',
    re_match ADDED_PATTERN ("Bob" ++ added_token ++ "Carol") = Some m
    /\ "Bob" ++ added_token ++ "Carol" = a' ++ added_token ++ b'
    /\ grp "1" m = a' /\ grp "2" m = b'
    /\ (forall a'' b'', "Bob" ++ added_token ++ "Carol" = a'' ++ added_token ++ b'' ->
                        (String.length a'' <= String.length a')%nat)
    /\ added_member ("Bob" ++ added_token ++ "Carol") = Some (strip b')
    /\ forall st raw, strip raw = "Bob" ++ added_token ++ "Carol" ->
                      process_line st raw = record_member (strip b') st.
Proof. apply (added_line_takes_last_token "Bob" "Carol"). reflexivity. Defined.

(** C3 as the specification words it, refuted: in "A added B added C" the
    first " added " follows "A", and the remainder after it is "B added C";
    the code names the member "C". *)
Lemma added_member_not_after_first_token :
  added_member ("A" ++ added_token ++ "B added C") = Some "C"
  /\ added_member ("A" ++ added_token ++ "B added C") <> Some "B added C".
Proof. split; [reflexivity | discriminate]. Qed.

(** ** The loop body and the events *)

Lemma process_line_classify (st : state) (raw : string) :
  process_line st raw = apply_event st (classify (strip raw)).
Proof.
  unfold process_line, classify.
  destruct (re_match ADDED_PATTERN (strip raw)); [reflexivity|].
  destruct (re_match JOINED_PATTERN (strip raw)); [reflexivity|].
  destruct (re_match LINE_PATTERN (strip raw)); [|reflexivity].
  now destruct (parse_date _).
Qed.

(** C4. The example line takes the message branch: neither the added nor
    the joined pattern matches it, the line pattern gives the date and time,
    the sender "Alice" and the body "hello", the day/month/4-digit-year
    format fails and the day/month/2-digit-year 24-hour format, the second
    of the list, gives 12 May 2023, 14:05. *)
Theorem alice_line_is_a_message :
  classify (strip alice_line) = MessageEvent alice_time "Alice" "hello"
  /\ re_match ADDED_PATTERN (strip alice_line) = None
  /\ re_match JOINED_PATTERN (strip alice_line) = None
  /\ option_map groups (re_match LINE_PATTERN (strip alice_line))
     = Some [("3", "hello"); ("2", "Alice"); ("1", "12/5/23, 14:05")]
  /\ nth_error formats 0 = Some "%d/%m/%Y, %H:%M"
  /\ strptime "12/5/23, 14:05" "%d/%m/%Y, %H:%M" = None
  /\ nth_error formats 1 = Some "%d/%m/%y, %H:%M"
  /\ strptime "12/5/23, 14:05" "%d/%m/%y, %H:%M" = Some alice_time
  /\ parse_date "12/5/23, 14:05" = Some alice_time
  /\ forall st, process_line st alice_line = record_message "Alice" alice_time st.
Proof.
  repeat split; vm_compute; reflexivity.
Qed.

(** ** [parse_date] *)

Lemma first_parse_some (s : string) (fmts : list string) (dt : datetime) :
  first_parse s fmts = Some dt <->
  exists i fmt, nth_error fmts i = Some fmt /\ strptime s fmt = Some dt /\
    forall j fmt', (j < i)%nat -> nth_error fmts j = Some fmt' ->
                   strptime s fmt' = None.
Proof.
  induction fmts as [|f fmts IH]; simpl.
  - split; [discriminate|]. intros (i & fmt & H & _). now destruct i.
  - destruct (strptime s f) eqn:Hf.
    + split.
      * intros [= ->]. exists 0%nat, f. repeat split; auto. intros j ? Hj. lia.
      * intros (i & fmt & Hi & Hs & Hprev). destruct i as [|i].
        -- simpl in Hi. injection Hi as <-. congruence.
        -- specialize (Hprev 0%nat f (Nat.lt_0_succ i) eq_refl). congruence.
    + rewrite IH. split.
      * intros (i & fmt & Hi & Hs & Hprev). exists (S i), fmt. repeat split; auto.
        intros [|j] fmt' Hj Hn; simpl in Hn.
        -- now injection Hn as <-.
        -- apply (Hprev j); [lia | exact Hn].
      * intros (i & fmt & Hi & Hs & Hprev). destruct i as [|i].
        -- simpl in Hi. injection Hi as <-. congruence.
        -- exists i, fmt. repeat split; auto.
           intros j fmt' Hj Hn. apply (Hprev (S j)); [lia | exact Hn].
Qed.

Lemma first_parse_none (s : string) (fmts : list string) :
  first_parse s fmts = None <-> forall fmt, In fmt fmts -> strptime s fmt = None.
Proof.
  induction fmts as [|f fmts IH]; simpl.
  - split; [intros _ ? [] | reflexivity].
  - destruct (strptime s f) eqn:Hf.
    + split; [discriminate|]. intros H. rewrite (H f) in Hf; [discriminate | now left].
    + rewrite IH. split.
      * intros H fmt [<-|Hin]; auto.
      * intros H fmt Hin. apply H. now right.
Qed.

(** A successful [strptime] matched the whole text. *)
Lemma strptime_no_residue (s fmt : string) (dt : datetime) :
  strptime s fmt = Some dt ->
  exists r found, format_regex false fmt = Some r
                  /\ re_match r s = Some found /\ unmatched found = "".
Proof.
  unfold strptime. destruct (format_regex false fmt) as [r|]; [|discriminate].
  destruct (re_match r s) as [found|] eqn:Hfound; [|discriminate].
  destruct (String.eqb_spec (unmatched found) "") as [Hrest|]; simpl; [|discriminate].
  intros _. exists r, found. auto.
Qed.

(** C5. For a stripped line that the added and joined
    patterns leave alone and that matches the line pattern, [parse_date]
    tries the four formats in their order and returns what the first
    format that reads the whole date gives; when none does, the line yields
    no event and the state stays as it was. *)
Theorem message_line_date_parsing (line : string) (m : match_obj) :
  re_match ADDED_PATTERN line = None ->
  re_match JOINED_PATTERN line = None ->
  re_match LINE_PATTERN line = Some m ->
  formats = [ "%d/%m/%Y, %H:%M"; "%d/%m/%y, %H:%M";
              "%m/%d/%Y, %I:%M %p"; "%m/%d/%y, %I:%M %p" ]
  /\ (forall dt, parse_date (grp "1" m) = Some dt <->
        exists i fmt, nth_error formats i = Some fmt
          /\ strptime (grp "1" m) fmt = Some dt
          /\ forall j fmt', (j < i)%nat -> nth_error formats j = Some fmt' ->
                            strptime (grp "1" m) fmt' = None)
  /\ (forall dt fmt, strptime (grp "1" m) fmt = Some dt ->
        exists r found, format_regex false fmt = Some r
          /\ re_match r (grp "1" m) = Some found /\ unmatched found = "")
  /\ (forall dt, parse_date (grp "1" m) = Some dt ->
        classify line = MessageEvent dt (grp "2" m) (grp "3" m))
  /\ ((forall fmt, In fmt formats -> strptime (grp "1" m) fmt = None) ->
        classify line = Unrecognized
        /\ forall st raw, strip raw = line -> process_line st raw = st).
Proof.
  intros Ha Hj Hm. split; [reflexivity|]. split; [|split; [|split]].
  - intros dt. apply first_parse_some.
  - intros dt fmt. apply strptime_no_residue.
  - intros dt Hdt. unfold classify. now rewrite Ha, Hj, Hm, Hdt.
  - intros Hnone. apply first_parse_none in Hnone.
    assert (Hc : classify line = Unrecognized).
    { unfold classify, parse_date. now rewrite Ha, Hj, Hm, Hnone. }
    split; [exact Hc|].
    intros st raw <-. now rewrite process_line_classify, Hc.
Qed.

Lemma message_line_date_parsing_witness :
  (forall fmt, In fmt formats -> strptime "12/25/23, 14:05" fmt = None)
  /\ classify unparsed_line = Unrecognized
  /\ (forall st raw, strip raw = unparsed_line -> process_line st raw = st)
  /\ parse_date "12/5/23, 14:05" = Some alice_time
  /\ classify alice_line = MessageEvent alice_time "Alice" "hello".
Proof.
  assert (Hnone : forall fmt, In fmt formats ->
                    strptime "12/25/23, 14:05" fmt = None).
  { intros fmt [<-|[<-|[<-|[<-|[]]]]]; vm_compute; reflexivity. }
  assert (Ha : re_match ADDED_PATTERN unparsed_line = None)
    by (vm_compute; reflexivity).
  assert (Hj : re_match JOINED_PATTERN unparsed_line = None)
    by (vm_compute; reflexivity).
  assert (Hm : re_match LINE_PATTERN unparsed_line
               = Some (MkMatch unparsed_line ""
                         [("3", "hello"); ("2", "Bob"); ("1", "12/25/23, 14:05")]))
    by (vm_compute; reflexivity).
  destruct (message_line_date_parsing unparsed_line _ Ha Hj Hm)
    as (_ & _ & _ & _ & Hskip).
  assert (Ha' : re_match ADDED_PATTERN alice_line = None)
    by (vm_compute; reflexivity).
  assert (Hj' : re_match JOINED_PATTERN alice_line = None)
    by (vm_compute; reflexivity).
  assert (Hm' : re_match LINE_PATTERN alice_line
                = Some (MkMatch alice_line ""
                          [("3", "hello"); ("2", "Alice"); ("1", "12/5/23, 14:05")]))
    by (vm_compute; reflexivity).
  destruct (message_line_date_parsing alice_line _ Ha' Hj' Hm')
    as (_ & _ & _ & Hmsg & _).
  assert (Hp : parse_date "12/5/23, 14:05" = Some alice_time)
    by (vm_compute; reflexivity).
  split; [exact Hnone|]. split; [exact (proj1 (Hskip Hnone))|].
  split; [exact (proj2 (Hskip Hnone))|]. split; [exact Hp|].
  exact (Hmsg alice_time Hp).
Defined.

(** ** The dictionary *)

Section DictFacts.
Context {V : Type}.
Implicit Types (d : list (string * V)) (f : V -> V).

Lemma lookup_app key d d' :
  lookup key (d ++ d')
  = match lookup key d with Some v => Some v | None => lookup key d' end.
Proof.
  induction d as [|[k v] d IH]; simpl; [reflexivity|].
  now destruct (String.eqb k key).
Qed.

Lemma lookup_update_same key f d :
  lookup key (update key f d) = option_map f (lookup key d).
Proof.
  induction d as [|[k v] d IH]; simpl; [reflexivity|].
  destruct (String.eqb k key) eqn:E; simpl; rewrite E; [reflexivity | exact IH].
Qed.

Lemma lookup_update_other key other f d :
  other <> key -> lookup other (update key f d) = lookup other d.
Proof.
  intros Hne. induction d as [|[k v] d IH]; simpl; [reflexivity|].
  destruct (String.eqb_spec k key) as [->|Hk]; simpl.
  - destruct (String.eqb_spec key other) as [->|_]; [now elim Hne | reflexivity].
  - now rewrite IH.
Qed.

Lemma keys_update key f d : keys (update key f d) = keys d.
Proof.
  induction d as [|[k v] d IH]; simpl; [reflexivity|].
  destruct (String.eqb k key); simpl; [reflexivity | now rewrite IH].
Qed.

Lemma lookup_None_keys key d : lookup key d = None <-> ~ In key (keys d).
Proof.
  induction d as [|[k v] d IH]; simpl; [tauto|].
  destruct (String.eqb_spec k key) as [->|Hk].
  - split; [discriminate | intros H; elim H; now left].
  - rewrite IH. split; [intros H [E|Hin]; [now elim Hk | now elim H] | tauto].
Qed.

Lemma lookup_In key v d : lookup key d = Some v -> In (key, v) d.
Proof.
  induction d as [|[k w] d IH]; simpl; [discriminate|].
  destruct (String.eqb_spec k key) as [->|Hk].
  - intros [= ->]. now left.
  - intros H. right. now apply IH.
Qed.

Lemma In_lookup key v d :
  NoDup (keys d) -> In (key, v) d -> lookup key d = Some v.
Proof.
  induction d as [|[k w] d IH]; simpl; [easy|].
  intros Hnd [E|Hin].
  - injection E as -> ->. now rewrite String.eqb_refl.
  - inversion Hnd as [|? ? Hk Hnd']; subst.
    destruct (String.eqb_spec k key) as [->|_].
    + elim Hk. change (In (fst (key, v)) (map fst d)). now apply in_map.
    + now apply IH.
Qed.
End DictFacts.

Lemma ensure_lookup_same (key : string) (d : list (string * stats)) :
  lookup key (ensure key d) = Some (stats_of key d).
Proof.
  unfold ensure, stats_of. destruct (lookup key d) eqn:E; [exact E|].
  rewrite lookup_app, E. simpl. now rewrite String.eqb_refl.
Qed.

Lemma ensure_lookup_other (key other : string) (d : list (string * stats)) :
  other <> key -> lookup other (ensure key d) = lookup other d.
Proof.
  intros Hne. unfold ensure. destruct (lookup key d); [reflexivity|].
  rewrite lookup_app. destruct (lookup other d); [reflexivity|]. simpl.
  destruct (String.eqb_spec key other) as [->|_]; [now elim Hne | reflexivity].
Qed.

Lemma ensure_idempotent (key : string) (d : list (string * stats)) :
  ensure key (ensure key d) = ensure key d.
Proof.
  unfold ensure at 1. now rewrite ensure_lookup_same.
Qed.

Lemma ensure_extends (key : string) (d : list (string * stats)) :
  (lookup key d <> None /\ ensure key d = d)
  \/ (lookup key d = None /\ ensure key d = (d ++ [(key, default_stats)])%list).
Proof.
  unfold ensure. destruct (lookup key d); [left | right]; split; congruence.
Qed.

Lemma ensure_NoDup (key : string) (d : list (string * stats)) :
  NoDup (keys d) -> NoDup (keys (ensure key d)).
Proof.
  intros Hnd. unfold ensure. destruct (lookup key d) eqn:E; [exact Hnd|].
  unfold keys. rewrite map_app. simpl.
  apply NoDup_app_remove_l with (l := []). simpl.
  apply Permutation_NoDup with (l := key :: map fst d).
  - apply Permutation_cons_append.
  - constructor; [|exact Hnd]. now apply lookup_None_keys.
Qed.

Lemma sum_messages_app (d d' : list (string * stats)) :
  sum_messages (d ++ d') = sum_messages d + sum_messages d'.
Proof.
  unfold sum_messages, values. induction d as [|[k v] d IH]; simpl; [reflexivity|].
  rewrite IH. lia.
Qed.

Lemma sum_messages_ensure (key : string) (d : list (string * stats)) :
  sum_messages (ensure key d) = sum_messages d.
Proof.
  unfold ensure. destruct (lookup key d); [reflexivity|].
  rewrite sum_messages_app. unfold sum_messages. simpl. lia.
Qed.

Lemma sum_messages_update (key : string) (f : stats -> stats)
    (d : list (string * stats)) (s : stats) :
  lookup key d = Some s ->
  sum_messages (update key f d) = sum_messages d - messages s + messages (f s).
Proof.
  unfold sum_messages, values. induction d as [|[k v] d IH]; simpl; [discriminate|].
  destruct (String.eqb k key); simpl.
  - intros [= ->]. lia.
  - intros H. rewrite (IH H). lia.
Qed.

(** ** Added and joined events *)

Lemma record_member_idempotent (name : string) (st : state) :
  record_member name (record_member name st) = record_member name st.
Proof. unfold record_member. simpl. now rewrite ensure_idempotent. Qed.

(** C9. An added or joined event for [name] leaves the total and every
    other record alone, keeps the record of [name] if there is one and
    otherwise appends one with no message and no timestamp; doing it twice
    is doing it once. The two example lines are such events, for "Carol"
    (whatever "Bob" has) and for "Dave". *)
Theorem member_event_only_ensures_record (name : string) (st : state) :
  apply_event st (MemberAddedEvent name) = record_member name st
  /\ apply_event st (MemberJoinedEvent name) = record_member name st
  /\ total_messages (record_member name st) = total_messages st
  /\ lookup name (participants (record_member name st))
     = Some (stats_of name (participants st))
  /\ (lookup name (participants st) = None ->
      lookup name (participants (record_member name st)) = Some (MkStats 0 None)
      /\ participants (record_member name st)
         = (participants st ++ [(name, MkStats 0 None)])%list)
  /\ (lookup name (participants st) <> None ->
      participants (record_member name st) = participants st)
  /\ (forall other, other <> name ->
        lookup other (participants (record_member name st))
        = lookup other (participants st))
  /\ (NoDup (keys (participants st)) ->
      NoDup (keys (participants (record_member name st))))
  /\ record_member name (record_member name st) = record_member name st
  /\ (forall raw, classify (strip raw) = MemberAddedEvent name
                  \/ classify (strip raw) = MemberJoinedEvent name ->
        process_line st raw = record_member name st
        /\ process_line (process_line st raw) raw = process_line st raw)
  /\ classify (strip "Bob added Carol") = MemberAddedEvent "Carol"
  /\ classify (strip "Dave joined using this group's invite link")
     = MemberJoinedEvent "Dave".
Proof.
  split; [reflexivity|]. split; [reflexivity|]. split; [reflexivity|].
  split; [apply ensure_lookup_same|]. split.
  { intros Hnone. simpl. split.
    - rewrite ensure_lookup_same. unfold stats_of. now rewrite Hnone.
    - unfold ensure. now rewrite Hnone. }
  split.
  { intros Hsome. simpl. unfold ensure.
    destruct (lookup name (participants st)); [reflexivity | now elim Hsome]. }
  split; [intros other Hne; now apply ensure_lookup_other|].
  split; [apply ensure_NoDup|].
  split; [apply record_member_idempotent|].
  split.
  { intros raw Hc.
    assert (H : forall s, process_line s raw = record_member name s).
    { intros s. rewrite process_line_classify. now destruct Hc as [-> | ->]. }
    split; [apply H|]. rewrite !H. apply record_member_idempotent. }
  split; vm_compute; reflexivity.
Qed.

(** ** Messages *)

Lemma record_message_participants (sender : string) (dt : datetime) (st : state) :
  lookup sender (participants (record_message sender dt st))
  = Some (MkStats (messages (stats_of sender (participants st)) + 1)
                  (Some (later_of (last (stats_of sender (participants st))) dt))).
Proof.
  unfold record_message. simpl.
  set (d := update sender bump (ensure sender (participants st))).
  assert (Hd : lookup sender d = Some (bump (stats_of sender (participants st)))).
  { unfold d. now rewrite lookup_update_same, ensure_lookup_same. }
  rewrite Hd. unfold later_of, bump at 1. simpl last.
  destruct (last (stats_of sender (participants st))) as [l|] eqn:Hl.
  - destruct (dt_gt dt l).
    + now rewrite lookup_update_same, Hd.
    + rewrite Hd. unfold bump. now rewrite Hl.
  - now rewrite lookup_update_same, Hd.
Qed.

Lemma record_message_other (sender other : string) (dt : datetime) (st : state) :
  other <> sender ->
  lookup other (participants (record_message sender dt st))
  = lookup other (participants st).
Proof.
  intros Hne. unfold record_message. simpl.
  match goal with |- lookup _ (if ?b then _ else _) = _ => destruct b end;
    rewrite ?lookup_update_other by exact Hne; now apply ensure_lookup_other.
Qed.

Lemma record_message_sum (sender : string) (dt : datetime) (st : state) :
  sum_messages (participants (record_message sender dt st))
  = sum_messages (participants st) + 1.
Proof.
  unfold record_message. simpl.
  set (d0 := ensure sender (participants st)).
  assert (H0 : lookup sender d0 = Some (stats_of sender (participants st)))
    by apply ensure_lookup_same.
  assert (H1 : sum_messages (update sender bump d0) = sum_messages (participants st) + 1).
  { rewrite (sum_messages_update _ _ _ _ H0). unfold d0.
    rewrite sum_messages_ensure. simpl. lia. }
  match goal with |- sum_messages (if ?b then _ else _) = _ => destruct b end;
    [|exact H1].
  erewrite sum_messages_update
    by (rewrite lookup_update_same, H0; reflexivity).
  rewrite H1. simpl. lia.
Qed.

Lemma process_line_sum (st : state) (raw : string) :
  sum_messages (participants st) = total_messages st ->
  sum_messages (participants (process_line st raw))
  = total_messages (process_line st raw).
Proof.
  intros H. rewrite process_line_classify.
  destruct (classify (strip raw)) as [n|n|dt sender body|]; unfold apply_event.
  - unfold record_member. simpl. now rewrite sum_messages_ensure.
  - unfold record_member. simpl. now rewrite sum_messages_ensure.
  - rewrite record_message_sum. unfold record_message. simpl. lia.
  - exact H.
Qed.

Lemma fold_process_sum (lines : list string) (st : state) :
  sum_messages (participants st) = total_messages st ->
  sum_messages (participants (fold_left process_line lines st))
  = total_messages (fold_left process_line lines st).
Proof.
  revert st; induction lines as [|raw lines IH]; intros st H; simpl; [exact H|].
  apply IH. now apply process_line_sum.
Qed.

Lemma sum_finalize (st : state) :
  sum_r_messages (fst (finalize st)) = sum_messages (participants st).
Proof.
  unfold finalize, sum_r_messages, sum_messages, values. simpl.
  induction (participants st) as [|[k v] d IH]; simpl; [reflexivity|].
  now rewrite IH.
Qed.

(** C2. Whatever the lines are, after every prefix of them the message
    counts of the records add up to the running total, and so do the counts
    of the finalized records that [analyze_chat] returns. *)
Theorem message_counts_sum_to_total (lines : list string) :
  (forall n, sum_messages (participants (ingest (firstn n lines)))
             = total_messages (ingest (firstn n lines)))
  /\ sum_messages (participants (ingest lines)) = total_messages (ingest lines)
  /\ sum_r_messages (fst (analyze_chat lines)) = snd (analyze_chat lines).
Proof.
  assert (H : forall l, sum_messages (participants (ingest l))
                        = total_messages (ingest l))
    by (intros l; now apply fold_process_sum).
  split; [intros n; apply H|]. split; [apply H|].
  unfold analyze_chat. rewrite sum_finalize. simpl. apply H.
Qed.

(** ** The order of timestamps *)

Lemma lex_compare_refl (a : list Z) : lex_compare a a = Eq.
Proof. induction a as [|x a IH]; simpl; [reflexivity|]. now rewrite Z.compare_refl. Qed.

Lemma lex_compare_antisym (a b : list Z) :
  lex_compare b a = CompOpp (lex_compare a b).
Proof.
  revert b; induction a as [|x a IH]; intros [|y b]; simpl; try reflexivity.
  rewrite (Z.compare_antisym x y). destruct (x ?= y); simpl; auto.
Qed.

Lemma lex_compare_gt_trans (a b c : list Z) :
  lex_compare a b = Gt -> lex_compare b c = Gt -> lex_compare a c = Gt.
Proof.
  revert b c; induction a as [|x a IH]; intros [|y b] [|z c]; simpl;
    try discriminate; try reflexivity.
  destruct (Z.compare_spec x y) as [->|Hxy|Hxy]; try discriminate.
  - destruct (Z.compare_spec y z) as [->|Hyz|Hyz]; try discriminate.
    + apply IH.
    + reflexivity.
  - intros _. destruct (Z.compare_spec y z) as [->|Hyz|Hyz]; try discriminate.
    + intros _. destruct (Z.compare_spec x z); [lia | lia | reflexivity].
    + intros _. destruct (Z.compare_spec x z); [lia | lia | reflexivity].
Qed.

Lemma dt_gt_irrefl (a : datetime) : dt_gt a a = false.
Proof. unfold dt_gt. now rewrite lex_compare_refl. Qed.

Lemma dt_gt_asym (a b : datetime) : dt_gt a b = true -> dt_gt b a = false.
Proof.
  unfold dt_gt. rewrite (lex_compare_antisym (fields a) (fields b)).
  now destruct (lex_compare (fields a) (fields b)).
Qed.

Lemma dt_gt_trans (a b c : datetime) :
  dt_gt a b = true -> dt_gt b c = true -> dt_gt a c = true.
Proof.
  unfold dt_gt. intros Hab Hbc.
  destruct (lex_compare (fields a) (fields b)) eqn:Eab; try discriminate.
  destruct (lex_compare (fields b) (fields c)) eqn:Ebc; try discriminate.
  now rewrite (lex_compare_gt_trans _ _ _ Eab Ebc).
Qed.

(** [later_of] is the maximum: one of its arguments, below neither. *)
Lemma later_of_max (current : option datetime) (t : datetime) :
  dt_gt t (later_of current t) = false
  /\ (forall l, current = Some l ->
        dt_gt l (later_of current t) = false
        /\ (later_of current t = l \/ later_of current t = t))
  /\ (current = None -> later_of current t = t).
Proof.
  destruct current as [l|]; simpl.
  - destruct (dt_gt t l) eqn:Hgt.
    + split; [apply dt_gt_irrefl|]. split; [|discriminate].
      intros ? [= <-]. split; [now apply dt_gt_asym | now right].
    + split; [exact Hgt|]. split; [|discriminate].
      intros ? [= <-]. split; [apply dt_gt_irrefl | now left].
  - split; [apply dt_gt_irrefl|]. split; [discriminate | reflexivity].
Qed.

Lemma latest_snoc (ts : list datetime) (t : datetime) :
  latest (ts ++ [t]) = Some (later_of (latest ts) t).
Proof. unfold latest. now rewrite fold_left_app. Qed.

(** [latest] is the maximum of the list, and absent only for no timestamp. *)
Lemma latest_spec (ts : list datetime) :
  (latest ts = None <-> ts = [])
  /\ forall l, latest ts = Some l ->
       In l ts /\ forall t, In t ts -> dt_gt t l = false.
Proof.
  induction ts as [|t ts IH] using rev_ind.
  - split; [easy|]. discriminate.
  - rewrite latest_snoc. split.
    + split; [discriminate|]. intros E. now destruct ts.
    + intros l' [= <-]. destruct (latest ts) as [l|] eqn:El.
      * destruct IH as [_ IH]. destruct (IH l eq_refl) as [Hin Hmax].
        simpl. destruct (dt_gt t l) eqn:Htl.
        -- split; [apply in_or_app; right; now left|].
           intros u Hu. apply in_app_or in Hu as [Hu | [<- | []]];
             [|apply dt_gt_irrefl].
           destruct (dt_gt u t) eqn:Hut; [|reflexivity].
           pose proof (dt_gt_trans u t l Hut Htl) as H.
           rewrite (Hmax u Hu) in H. discriminate.
        -- split; [apply in_or_app; now left|].
           intros u Hu. apply in_app_or in Hu as [Hu | [<- | []]];
             [now apply Hmax | exact Htl].
      * destruct IH as [IH _]. rewrite (proj1 IH eq_refl). simpl. split.
        -- now left.
        -- intros u [<- | []]. apply dt_gt_irrefl.
Qed.

(** ** What the loop has recorded after a run of lines *)

Lemma timestamps_of_app (name : string) (l1 l2 : list string) :
  timestamps_of name (l1 ++ l2)
  = (timestamps_of name l1 ++ timestamps_of name l2)%list.
Proof.
  induction l1 as [|raw l1 IH]; simpl; [reflexivity|].
  destruct (classify (strip raw)); try exact IH.
  destruct (String.eqb sender name); simpl; now rewrite IH.
Qed.

Lemma ingest_snoc (lines : list string) (raw : string) :
  ingest (lines ++ [raw]) = process_line (ingest lines) raw.
Proof. unfold ingest. now rewrite fold_left_app. Qed.

Lemma stats_of_ensure (key name : string) (d : list (string * stats)) :
  stats_of name (ensure key d) = stats_of name d.
Proof.
  destruct (String.eqb_spec name key) as [->|Hne].
  - unfold stats_of at 1. now rewrite ensure_lookup_same.
  - unfold stats_of. now rewrite ensure_lookup_other.
Qed.

(** The record of every name holds the number of its messages so far and
    the latest of their timestamps. *)
Lemma ingest_tracks (lines : list string) (name : string) :
  stats_of name (participants (ingest lines))
  = MkStats (Z.of_nat (List.length (timestamps_of name lines)))
            (latest (timestamps_of name lines)).
Proof.
  induction lines as [|raw lines IH] using rev_ind; [reflexivity|].
  rewrite ingest_snoc, timestamps_of_app, process_line_classify.
  change (timestamps_of name [raw]) with
    (match classify (strip raw) with
     | MessageEvent dt sender _ => if String.eqb sender name then [dt] else []
     | _ => []
     end).
  destruct (classify (strip raw)) as [n|n|dt sender body|]; unfold apply_event.
  - rewrite app_nil_r. unfold record_member. simpl participants.
    now rewrite stats_of_ensure.
  - rewrite app_nil_r. unfold record_member. simpl participants.
    now rewrite stats_of_ensure.
  - destruct (String.eqb_spec sender name) as [->|Hne].
    + unfold stats_of at 1. rewrite record_message_participants, IH.
      cbn [messages last]. rewrite latest_snoc, length_app. simpl List.length.
      f_equal. lia.
    + rewrite app_nil_r. unfold stats_of at 1.
      rewrite record_message_other by congruence. exact IH.
  - rewrite app_nil_r. exact IH.
Qed.

Lemma lookup_finalize (st : state) (name : string) :
  lookup name (fst (finalize st))
  = option_map (finalize_stats (total_messages st)) (lookup name (participants st)).
Proof.
  unfold finalize. simpl. induction (participants st) as [|[k v] d IH]; simpl;
    [reflexivity|].
  now destruct (String.eqb k name).
Qed.

(** A line never takes a record away, lowers its count or moves its
    timestamp back. *)
Lemma process_line_monotone (st : state) (raw name : string) (s : stats) :
  lookup name (participants st) = Some s ->
  exists s', lookup name (participants (process_line st raw)) = Some s'
    /\ messages s <= messages s'
    /\ (forall l, last s = Some l ->
          exists l', last s' = Some l' /\ dt_gt l l' = false).
Proof.
  intros Hs.
  assert (Hsame : forall st', lookup name (participants st') = Some s ->
            exists s', lookup name (participants st') = Some s'
              /\ messages s <= messages s'
              /\ (forall l, last s = Some l ->
                    exists l', last s' = Some l' /\ dt_gt l l' = false)).
  { intros st' H. exists s. split; [exact H|]. split; [lia|].
    intros l Hl. exists l. split; [exact Hl | apply dt_gt_irrefl]. }
  assert (Hens : forall n, lookup name (ensure n (participants st)) = Some s).
  { intros n. destruct (String.eqb_spec name n) as [->|Hne].
    - rewrite ensure_lookup_same. unfold stats_of. now rewrite Hs.
    - now rewrite ensure_lookup_other. }
  rewrite process_line_classify.
  destruct (classify (strip raw)) as [n|n|dt sender body|]; unfold apply_event.
  - apply (Hsame (record_member n st)). apply Hens.
  - apply (Hsame (record_member n st)). apply Hens.
  - destruct (String.eqb_spec name sender) as [->|Hne].
    + rewrite record_message_participants. unfold stats_of. rewrite Hs.
      eexists. split; [reflexivity|]. cbn [messages last]. split; [lia|].
      intros l Hl. eexists. split; [reflexivity|].
      rewrite Hl. destruct (later_of_max (Some l) dt) as (_ & H & _).
      exact (proj1 (H l eq_refl)).
    + apply (Hsame (record_message sender dt st)).
      now rewrite record_message_other.
  - now apply Hsame.
Qed.

(** C7. A message event adds one to the sender's count and to the total and
    sets the sender's timestamp to the later of the old one and the new one,
    an absent one counting as minus infinity; no line moves a timestamp back;
    and in what [analyze_chat] returns the timestamp of a record is the
    maximum over that participant's messages, absent exactly when there are
    none. *)
Theorem message_event_counts_and_latest
    (sender body : string) (dt : datetime) (st : state)
    (lines : list string) (name : string) :
  apply_event st (MessageEvent dt sender body) = record_message sender dt st
  /\ total_messages (record_message sender dt st) = total_messages st + 1
  /\ lookup sender (participants (record_message sender dt st))
     = Some (MkStats (messages (stats_of sender (participants st)) + 1)
                     (Some (later_of (last (stats_of sender (participants st))) dt)))
  /\ (dt_gt dt (later_of (last (stats_of sender (participants st))) dt) = false
      /\ (forall l, last (stats_of sender (participants st)) = Some l ->
            dt_gt l (later_of (Some l) dt) = false
            /\ (later_of (Some l) dt = l \/ later_of (Some l) dt = dt))
      /\ later_of None dt = dt)
  /\ (forall other, other <> sender ->
        lookup other (participants (record_message sender dt st))
        = lookup other (participants st))
  /\ (forall raw s, lookup name (participants st) = Some s ->
        exists s', lookup name (participants (process_line st raw)) = Some s'
          /\ messages s <= messages s'
          /\ (forall l, last s = Some l ->
                exists l', last s' = Some l' /\ dt_gt l l' = false))
  /\ (forall r, lookup name (fst (analyze_chat lines)) = Some r ->
        r_messages r = Z.of_nat (List.length (timestamps_of name lines))
        /\ (r_last r = None <-> timestamps_of name lines = [])
        /\ (forall l, r_last r = Some l ->
              In l (timestamps_of name lines)
              /\ forall t, In t (timestamps_of name lines) -> dt_gt t l = false))
  /\ (timestamps_of name lines <> [] ->
        exists r, lookup name (fst (analyze_chat lines)) = Some r).
Proof.
  split; [reflexivity|]. split; [reflexivity|].
  split; [apply record_message_participants|].
  split.
  { split; [exact (proj1 (later_of_max _ dt))|]. split; [|reflexivity].
    intros l _. destruct (later_of_max (Some l) dt) as (_ & H & _).
    exact (H l eq_refl). }
  split; [intros other; apply record_message_other|].
  split; [intros raw s; apply process_line_monotone|].
  pose proof (ingest_tracks lines name) as Htr.
  unfold analyze_chat. rewrite lookup_finalize.
  unfold stats_of in Htr.
  destruct (lookup name (participants (ingest lines))) as [s|]; simpl.
  - split; [|intros _; eauto].
    intros r [= <-]. simpl. rewrite Htr. simpl.
    split; [reflexivity|]. split; [apply latest_spec | apply latest_spec].
  - split; [discriminate|]. intros Hne.
    injection Htr as Hlen _.
    destruct (timestamps_of name lines); [now elim Hne | discriminate].
Qed.


(** ** The status rule *)

Lemma is_active_iff (now : datetime) (inactivity_days : Z) (r : record) :
  is_active now inactivity_days r = true <->
  1 <= r_messages r /\ ge1 (contribution r) = true
  /\ exists l, r_last r = Some l /\ days_between now l <= inactivity_days.
Proof.
  unfold is_active. rewrite !andb_true_iff, Z.leb_le.
  destruct (r_last r) as [l|].
  - rewrite Z.leb_le. split.
    + intros [[Hm Hc] Hd]. repeat split; auto. now exists l.
    + intros (Hm & Hc & l' & [= <-] & Hd). auto.
  - split; [intros [_ H]; discriminate | intros (_ & _ & l & H & _); discriminate].
Qed.

(** C1. The status is Active exactly when the record has a message, a
    contribution of at least 1, a last timestamp, and that timestamp is at
    most [inactivity_days] days before [now]; otherwise it is Inactive. Five
    messages at half a percent are Inactive however recent, and so is a
    record without messages, whatever else it holds. *)
Theorem active_iff_four_conditions (now : datetime) (inactivity_days : Z) (r : record) :
  (is_active now inactivity_days r = true <->
     1 <= r_messages r /\ ge1 (contribution r) = true
     /\ exists l, r_last r = Some l /\ days_between now l <= inactivity_days)
  /\ (status_text (is_active now inactivity_days r) = "Active" <->
        is_active now inactivity_days r = true)
  /\ (status_text (is_active now inactivity_days r) = "Inactive" <->
        is_active now inactivity_days r = false)
  /\ member_status_counts now [("p", r)] inactivity_days
     = (if is_active now inactivity_days r then (1, 0) else (0, 1))
  /\ default_inactivity_days = 90
  /\ (r_messages r = 5 -> contribution r = PyFloat 0.5 ->
        is_active now inactivity_days r = false)
  /\ (days_between noon day_before = 1
      /\ is_active noon default_inactivity_days small_talker = false)
  /\ (r_messages r = 0 -> is_active now inactivity_days r = false).
Proof.
  split; [apply is_active_iff|].
  split; [destruct (is_active now inactivity_days r); simpl; split; congruence|].
  split; [destruct (is_active now inactivity_days r); simpl; split; congruence|].
  split.
  { unfold member_status_counts. simpl.
    now destruct (is_active now inactivity_days r). }
  split; [reflexivity|]. split.
  { intros Hm Hc. unfold is_active. rewrite Hc. simpl.
    now rewrite andb_false_r. }
  split; [split; vm_compute; reflexivity|].
  intros Hm. unfold is_active. now rewrite Hm.
Qed.


(** ** The stable sort *)

Section SortedFacts.
Context {A : Type} (key : A -> Z * Z).

Lemma key_le_iff (a b : Z * Z) :
  key_le a b = true <-> fst a < fst b \/ (fst a = fst b /\ snd a <= snd b).
Proof.
  unfold key_le. rewrite orb_true_iff, andb_true_iff, Z.ltb_lt, Z.eqb_eq, Z.leb_le.
  tauto.
Qed.

Lemma key_le_refl (a : Z * Z) : key_le a a = true.
Proof. apply key_le_iff. lia. Qed.

Lemma key_le_total (a b : Z * Z) : key_le a b = false -> key_le b a = true.
Proof.
  intros H. apply key_le_iff.
  destruct (key_le a b) eqn:E; [discriminate|].
  assert (Hn : ~ (fst a < fst b \/ (fst a = fst b /\ snd a <= snd b)))
    by (rewrite <- key_le_iff; congruence).
  lia.
Qed.

Lemma key_le_trans (a b c : Z * Z) :
  key_le a b = true -> key_le b c = true -> key_le a c = true.
Proof. rewrite !key_le_iff. lia. Qed.

Lemma insert_sorted_perm (x : A) (l : list A) :
  Permutation (insert_sorted key x l) (x :: l).
Proof.
  induction l as [|y l IH]; simpl; [reflexivity|].
  destruct (key_le (key x) (key y)); [reflexivity|].
  rewrite IH. apply perm_swap.
Qed.

Lemma sorted_perm (l : list A) : Permutation (sorted key l) l.
Proof.
  induction l as [|x l IH]; simpl; [reflexivity|].
  rewrite insert_sorted_perm. now constructor.
Qed.

Lemma insert_sorted_ordered (x : A) (l : list A) :
  StronglySorted (key_ordered key) l -> StronglySorted (key_ordered key) (insert_sorted key x l).
Proof.
  induction l as [|y l IH]; intros Hs; simpl.
  - constructor; constructor.
  - inversion Hs as [|? ? Hl Hy]; subst.
    destruct (key_le (key x) (key y)) eqn:E.
    + constructor; [exact Hs|]. constructor; [exact E|].
      eapply Forall_impl; [|exact Hy]. intros z Hz.
      unfold key_ordered in *. now apply key_le_trans with (key y).
    + constructor; [now apply IH|].
      eapply Permutation_Forall; [symmetry; apply insert_sorted_perm|].
      constructor; [now apply key_le_total | exact Hy].
Qed.

Lemma sorted_ordered (l : list A) : StronglySorted (key_ordered key) (sorted key l).
Proof.
  induction l as [|x l IH]; simpl; [constructor|].
  now apply insert_sorted_ordered.
Qed.

(** Stability: among items that are pairwise no greater than one another,
    hence of one key, the sort keeps the order of the input. *)
Lemma insert_sorted_filter (p : A -> bool) (x : A) (l : list A) :
  (forall a b, p a = true -> p b = true -> key_le (key a) (key b) = true) ->
  filter p (insert_sorted key x l) = filter p (x :: l).
Proof.
  intros Hp. induction l as [|y l IH]; simpl; [reflexivity|].
  destruct (key_le (key x) (key y)) eqn:E; [reflexivity|].
  simpl. rewrite IH. simpl.
  destruct (p x) eqn:Hx, (p y) eqn:Hy; try reflexivity.
  rewrite (Hp x y Hx Hy) in E. discriminate.
Qed.

Lemma sorted_filter (p : A -> bool) (l : list A) :
  (forall a b, p a = true -> p b = true -> key_le (key a) (key b) = true) ->
  filter p (sorted key l) = filter p l.
Proof.
  intros Hp. induction l as [|x l IH]; simpl; [reflexivity|].
  rewrite (insert_sorted_filter p x _ Hp). simpl. now rewrite IH.
Qed.
End SortedFacts.

Lemma report_key_ordered (now : datetime) (x y : string * record) :
  key_ordered (report_key now) x y <-> ranks_before now x y.
Proof.
  unfold key_ordered, ranks_before, report_key. rewrite key_le_iff. simpl.
  destruct (is_active now 90 (snd x)), (is_active now 90 (snd y));
    split; intros H; intuition (try discriminate; try lia).
Qed.

(** C6. The rows of the report are the records sorted by status, active
    first, then by message count, larger first: the sorted list is a
    permutation of the records, every row ranks before all rows below it,
    and the records of one status and one count stand in the order of the
    dictionary, the order of their creation. The example gives A, C, B. *)
Theorem report_order_is_status_then_count (now0 now : datetime)
    (ps : list (string * record)) (total : Z) :
  report_rows (print_report now0 now ps total)
  = map (make_row (is_active now 90)) (sorted (report_key now) ps)
  /\ Permutation (sorted (report_key now) ps) ps
  /\ StronglySorted (ranks_before now) (sorted (report_key now) ps)
  /\ (forall active count,
        filter (same_rank now active count) (sorted (report_key now) ps)
        = filter (same_rank now active count) ps)
  /\ map fst (sorted (report_key noon) ranking_example) = ["A"; "C"; "B"]
  /\ map (fun x => (is_active noon 90 (snd x), r_messages (snd x))) ranking_example
     = [(true, 10); (false, 50); (true, 10)].
Proof.
  split.
  { unfold print_report.
    now destruct (member_status_counts now0 ps default_inactivity_days). }
  split; [apply sorted_perm|]. split.
  { pose proof (sorted_ordered (report_key now) ps) as H.
    induction H as [|x l Hl IH Hx]; constructor; [exact IH|].
    eapply Forall_impl; [|exact Hx]. intros y. apply report_key_ordered. }
  split.
  { intros active count. apply sorted_filter.
    intros a b Ha Hb. unfold same_rank in Ha, Hb.
    apply andb_prop in Ha as [Ha1 Ha2], Hb as [Hb1 Hb2].
    apply eqb_prop in Ha1, Hb1. apply Z.eqb_eq in Ha2, Hb2.
    apply key_le_iff. unfold report_key. simpl. rewrite Ha1, Hb1, Ha2, Hb2. lia. }
  split; vm_compute; reflexivity.
Qed.


(** ** The contribution *)

Lemma finalize_contributions (st : state) :
  Forall (fun r => contribution r = contribution_of (r_messages r) (total_messages st))
         (values (fst (finalize st))).
Proof.
  unfold finalize, values. simpl.
  induction (participants st) as [|[k v] d IH]; simpl; constructor; auto.
Qed.


(** ** Binary64: the contribution is never a NaN

    The facts below are read off the IEEE 754 specification of the
    primitive operations ([SpecFloat]): rounding a non-negative mantissa
    gives no NaN, a count below 2^53 converts to a finite non-zero float,
    and division by and multiplication with such a float give no NaN. *)

Lemma shr_1_nonneg (mrs : shr_record) : 0 <= shr_m mrs -> 0 <= shr_m (shr_1 mrs).
Proof.
  destruct mrs as [m r s]. destruct m as [|[p|p|]|p]; simpl; intros H; lia.
Qed.

Lemma iter_pos_invariant {A : Type} (P : A -> Prop) (f : A -> A) :
  (forall x, P x -> P (f x)) -> forall n x, P x -> P (iter_pos f n x).
Proof.
  intros Hf. induction n as [n IH|n IH|]; intros x Hx; simpl; auto.
Qed.

Lemma shr_nonneg (mrs : shr_record) (e n : Z) :
  0 <= shr_m mrs -> 0 <= shr_m (fst (shr mrs e n)).
Proof.
  intros H. unfold shr. destruct n as [|p|p]; simpl; auto.
  now apply (iter_pos_invariant (fun r => 0 <= shr_m r) shr_1 shr_1_nonneg).
Qed.

Lemma shr_record_of_loc_m (m : Z) (l : location) : shr_m (shr_record_of_loc m l) = m.
Proof. now destruct l as [|[]]. Qed.

Lemma shr_fexp_nonneg (m e : Z) (l : location) :
  0 <= m -> 0 <= shr_m (fst (shr_fexp prec emax m e l)).
Proof.
  intros H. unfold shr_fexp. apply shr_nonneg. now rewrite shr_record_of_loc_m.
Qed.

Lemma round_nearest_even_nonneg (m : Z) (l : location) :
  0 <= m -> 0 <= round_nearest_even m l.
Proof.
  intros H. destruct l as [|[]]; simpl; try lia. destruct (Z.even m); lia.
Qed.

Lemma binary_round_aux_not_nan (sx : bool) (mx ex : Z) (lx : location) :
  0 <= mx -> binary_round_aux prec emax sx mx ex lx <> S754_nan.
Proof.
  intros H. unfold binary_round_aux.
  pose proof (shr_fexp_nonneg mx ex lx H) as H1.
  destruct (shr_fexp prec emax mx ex lx) as [mrs' e']. simpl in H1.
  pose proof (shr_fexp_nonneg _ e' loc_Exact
                (round_nearest_even_nonneg _ (loc_of_shr_record mrs') H1)) as H2.
  destruct (shr_fexp prec emax _ e' loc_Exact) as [mrs'' e'']. simpl in H2.
  destruct (shr_m mrs'') as [|m|m]; [discriminate | | lia].
  destruct (e'' <=? emax - prec); discriminate.
Qed.

Lemma binary_normalize_not_nan (m e : Z) (szero : bool) :
  binary_normalize prec emax m e szero <> S754_nan.
Proof.
  unfold binary_normalize, binary_round.
  destruct m as [|p|p]; [discriminate | |];
    destruct (shl_align _ _ _) as [mz ez]; now apply binary_round_aux_not_nan.
Qed.

Lemma SFmul_not_nan (x : spec_float) (sy : bool) (my : positive) (ey : Z) :
  x <> S754_nan -> SFmul prec emax x (S754_finite sy my ey) <> S754_nan.
Proof.
  intros Hx. destruct x as [s|s| |s m e]; simpl; try discriminate; [now elim Hx|].
  now apply binary_round_aux_not_nan.
Qed.

Lemma SFdiv_not_nan (x : spec_float) (sy : bool) (my : positive) (ey : Z) :
  x <> S754_nan -> SFdiv prec emax x (S754_finite sy my ey) <> S754_nan.
Proof.
  intros Hx. destruct x as [s|s| |s m e]; simpl; try discriminate; [now elim Hx|].
  unfold SFdiv_core_binary.
  set (e' := Z.min _ _). set (s' := e - ey - e').
  set (m' := match s' with Z0 => _ | Zpos _ => _ | Zneg _ => _ end).
  assert (Hm' : 0 <= m').
  { unfold m'. destruct s'; try lia. apply Z.shiftl_nonneg. lia. }
  pose proof (Z_div_mod m' (Z.pos my) eq_refl) as Hdiv.
  destruct (Z.div_eucl m' (Z.pos my)) as [q r].
  apply binary_round_aux_not_nan. nia.
Qed.

Lemma digits2_pos_lower (p : positive) : 2 ^ (Z.pos (digits2_pos p) - 1) <= Z.pos p.
Proof.
  induction p as [p IH|p IH|]; simpl digits2_pos; [| |simpl; lia].
  - rewrite Pos2Z.inj_succ.
    replace (Z.succ (Z.pos (digits2_pos p)) - 1)
      with (Z.succ (Z.pos (digits2_pos p) - 1)) by lia.
    rewrite Z.pow_succ_r by lia. lia.
  - rewrite Pos2Z.inj_succ.
    replace (Z.succ (Z.pos (digits2_pos p)) - 1)
      with (Z.succ (Z.pos (digits2_pos p) - 1)) by lia.
    rewrite Z.pow_succ_r by lia. lia.
Qed.

Lemma digits2_pos_bound (p : positive) (n : Z) :
  0 <= n -> Z.pos p < 2 ^ n -> Z.pos (digits2_pos p) <= n.
Proof.
  intros Hn Hp. destruct (Z.le_gt_cases (Z.pos (digits2_pos p)) n) as [|Hgt];
    [assumption|].
  pose proof (digits2_pos_lower p) as Hl.
  assert (2 ^ n <= 2 ^ (Z.pos (digits2_pos p) - 1))
    by (apply Z.pow_le_mono_r; lia).
  lia.
Qed.

Lemma digits2_pos_iter_xO (p q : positive) :
  digits2_pos (Pos.iter xO p q) = (digits2_pos p + q)%positive.
Proof.
  induction q as [|q IH] using Pos.peano_ind.
  - simpl. lia.
  - rewrite Pos.iter_succ. simpl. rewrite IH. lia.
Qed.

(** A mantissa of 53 digits in the normal range is its own rounding. *)
Lemma binary_round_aux_canonical (mz : positive) (ez : Z) :
  Z.pos (digits2_pos mz) = 53 -> -1074 <= ez <= 971 ->
  binary_round_aux prec emax false (Z.pos mz) ez loc_Exact = S754_finite false mz ez.
Proof.
  intros Hd He.
  assert (Hs : forall l, l = loc_Exact ->
            shr_fexp prec emax (Z.pos mz) ez l
            = (Build_shr_record (Z.pos mz) false false, ez)).
  { intros l ->. unfold shr_fexp, fexp, emin, Zdigits2. rewrite Hd.
    unfold prec, emax.
    replace (Z.max (53 + ez - 53) (3 - 1024 - 53) - ez) with 0 by lia.
    reflexivity. }
  unfold binary_round_aux. rewrite (Hs _ eq_refl). cbn [shr_m loc_of_shr_record
    round_nearest_even]. rewrite (Hs _ eq_refl). cbn [shr_m].
  unfold prec, emax. destruct (Z.leb_spec ez (1024 - 53)); [reflexivity | lia].
Qed.

(** [float(t)] for a count below 2^53 is finite and not zero. *)
Lemma binary_normalize_count (t : Z) :
  0 < t < 2 ^ 53 ->
  exists mz ez, binary_normalize prec emax t 0 false = S754_finite false mz ez.
Proof.
  intros [Ht0 Ht]. destruct t as [|p|p]; try lia.
  unfold binary_normalize, binary_round, shl_align, fexp, emin.
  pose proof (digits2_pos_bound p 53 ltac:(lia) Ht) as Hd.
  unfold prec, emax.
  replace (Z.max (Z.pos (digits2_pos p) + 0 - 53) (3 - 1024 - 53) - 0)
    with (Z.pos (digits2_pos p) - 53) by lia.
  replace (Z.max (Z.pos (digits2_pos p) + 0 - 53) (3 - 1024 - 53))
    with (Z.pos (digits2_pos p) - 53) by lia.
  destruct (Z.pos (digits2_pos p) - 53) as [|q|q] eqn:E; try lia;
    cbv beta iota.
  - eexists _, _. apply binary_round_aux_canonical; lia.
  - eexists _, _. apply binary_round_aux_canonical.
    + rewrite digits2_pos_iter_xO. lia.
    + lia.
Qed.

Lemma float_of_Z_spec (z : Z) :
  0 <= z < 2 ^ 63 -> Prim2SF (float_of_Z z) = binary_normalize prec emax z 0 false.
Proof.
  intros Hz. unfold float_of_Z. rewrite of_uint63_spec, Uint63.of_Z_spec.
  rewrite Z.mod_small; [reflexivity|]. exact Hz.
Qed.

Lemma float_of_Z_not_nan (z : Z) : Prim2SF (float_of_Z z) <> S754_nan.
Proof. unfold float_of_Z. rewrite of_uint63_spec. apply binary_normalize_not_nan. Qed.

Lemma SFopp_not_nan (x : spec_float) : x <> S754_nan -> SFopp x <> S754_nan.
Proof. destruct x; simpl; congruence. Qed.

Lemma round2_not_nan (x : float) :
  Prim2SF x <> S754_nan -> Prim2SF (round2 x) <> S754_nan.
Proof.
  intros Hx. unfold round2.
  assert (H100 : exists m e, Prim2SF 100 = S754_finite false m e)
    by (eexists _, _; vm_compute; reflexivity).
  destruct H100 as (m100 & e100 & H100).
  destruct (Prim2SF x) as [s|s| |s m e] eqn:E; try congruence.
  assert (Hr : Prim2SF (float_of_Z (nearest_even (Z.pos m * 100) e) / 100)
               <> S754_nan).
  { rewrite div_spec, H100. apply SFdiv_not_nan, float_of_Z_not_nan. }
  destruct s; [|exact Hr]. rewrite opp_spec. now apply SFopp_not_nan.
Qed.

(** The share of a count in a total below 2^53 is a number. *)
Lemma share_not_nan (msgs total : Z) :
  0 < total < 2 ^ 53 ->
  Prim2SF (round2 (float_of_Z msgs / float_of_Z total * 100)) <> S754_nan.
Proof.
  intros Ht. apply round2_not_nan.
  assert (H100 : exists m e, Prim2SF 100 = S754_finite false m e)
    by (eexists _, _; vm_compute; reflexivity).
  destruct H100 as (m100 & e100 & H100).
  destruct (binary_normalize_count total Ht) as (mt & et & Hfin).
  rewrite mul_spec, H100. apply SFmul_not_nan.
  rewrite div_spec, (float_of_Z_spec total) by lia. rewrite Hfin.
  apply SFdiv_not_nan, float_of_Z_not_nan.
Qed.

Lemma is_number_int (z : Z) : is_number (PyInt z) = true.
Proof.
  unfold is_number, ge1, lt1.
  destruct (Z.leb_spec 1 z), (Z.ltb_spec z 1); simpl; try reflexivity; lia.
Qed.

Lemma is_number_float (f : float) :
  Prim2SF f <> S754_nan -> is_number (PyFloat f) = true.
Proof.
  intros Hf. unfold is_number, ge1, lt1. rewrite leb_spec, ltb_spec.
  replace (Prim2SF 1) with (S754_finite false 4503599627370496 (-52))
    by (vm_compute; reflexivity).
  destruct (Prim2SF f) as [s|s| |s m e]; [| | now elim Hf |].
  - now destruct s.
  - now destruct s.
  - unfold SFleb, SFltb, SFcompare. destruct s; [reflexivity|].
    rewrite (Z.compare_antisym (-52) e).
    destruct (-52 ?= e); cbn [CompOpp]; try reflexivity.
    replace (Pos.compare_cont Eq m 4503599627370496)
      with (CompOpp (Pos.compare_cont Eq 4503599627370496 m))
      by apply (Pos.compare_cont_antisym 4503599627370496 m Eq).
    destruct (Pos.compare_cont Eq 4503599627370496 m); reflexivity.
Qed.

Lemma is_number_complement (x : pynum) :
  is_number x = true -> lt1 x = negb (ge1 x).
Proof. unfold is_number. now destruct (ge1 x), (lt1 x). Qed.

Lemma contribution_of_number (msgs total : Z) :
  0 <= total < 2 ^ 53 -> is_number (contribution_of msgs total) = true.
Proof.
  intros Ht. unfold contribution_of.
  destruct (Z.eqb_spec total 0) as [E|E]; [apply is_number_int|].
  apply is_number_float, share_not_nan. lia.
Qed.


(** ** Counts stay within the number of lines *)

Lemma update_counts_nonneg (key : string) (f : stats -> stats)
    (d : list (string * stats)) :
  (forall s, 0 <= messages s -> 0 <= messages (f s)) ->
  counts_nonneg d -> counts_nonneg (update key f d).
Proof.
  intros Hf. unfold counts_nonneg.
  induction d as [|[k v] d IH]; intros H; simpl; [constructor|].
  inversion H as [|? ? Hv Hd]; subst.
  destruct (String.eqb k key); constructor; auto. simpl. now apply Hf.
Qed.

Lemma ensure_counts_nonneg (key : string) (d : list (string * stats)) :
  counts_nonneg d -> counts_nonneg (ensure key d).
Proof.
  intros H. unfold ensure. destruct (lookup key d); [exact H|].
  apply Forall_app. split; [exact H|]. constructor; [simpl; lia | constructor].
Qed.

Lemma process_line_counts (st : state) (raw : string) :
  counts_nonneg (participants st) ->
  counts_nonneg (participants (process_line st raw))
  /\ total_messages st <= total_messages (process_line st raw)
     <= total_messages st + 1.
Proof.
  intros H. rewrite process_line_classify.
  destruct (classify (strip raw)) as [n|n|dt sender body|]; unfold apply_event.
  - split; [now apply ensure_counts_nonneg | simpl; lia].
  - split; [now apply ensure_counts_nonneg | simpl; lia].
  - split; [|simpl; lia]. unfold record_message. cbn [participants].
    assert (Hb : counts_nonneg (update sender bump (ensure sender (participants st)))).
    { apply update_counts_nonneg; [intros s Hs; simpl; lia|].
      now apply ensure_counts_nonneg. }
    match goal with |- counts_nonneg (if ?b then _ else _) => destruct b end;
      [|exact Hb].
    apply update_counts_nonneg; [intros s Hs; exact Hs | exact Hb].
  - split; [exact H | lia].
Qed.

Lemma ingest_counts (lines : list string) :
  counts_nonneg (participants (ingest lines))
  /\ 0 <= total_messages (ingest lines) <= Z.of_nat (List.length lines).
Proof.
  induction lines as [|raw lines IH] using rev_ind.
  - split; [constructor | simpl; lia].
  - rewrite ingest_snoc, length_app. destruct IH as [Hc Ht].
    destruct (process_line_counts (ingest lines) raw Hc) as [Hc' Ht'].
    split; [exact Hc'|]. simpl List.length. lia.
Qed.

(** No contribution in what [analyze_chat] returns is a NaN, for a
    transcript of fewer than 2^53 lines. *)
Lemma snapshot_numbers (lines : list string) :
  Z.of_nat (List.length lines) < 2 ^ 53 ->
  Forall (fun r => is_number (contribution r) = true)
         (values (fst (analyze_chat lines))).
Proof.
  intros Hlen. unfold analyze_chat.
  eapply Forall_impl; [|apply finalize_contributions].
  intros r ->. apply contribution_of_number.
  pose proof (ingest_counts lines) as [_ Ht]. lia.
Qed.

(** ** Binary64: how far the contribution is from the exact share

    The rounding that [SpecFloat] specifies for the primitive division and
    multiplication is followed on the quotient of two integers: shifting
    keeps track of the position of what is cut off, rounding to nearest
    even leaves at most half a unit in the last of 53 places, and so the
    quotient and the product each carry a relative error of at most 2^-53. *)

Lemma new_location_spec (d r : Z) :
  0 < d -> 0 <= r < d -> new_location d r = loc_of r d.
Proof.
  intros Hd Hr. unfold new_location, new_location_even, new_location_odd, loc_of.
  destruct (Z.even d) eqn:Ev; [reflexivity|].
  destruct (r =? 0); [reflexivity|]. f_equal.
  assert (Hodd : Z.odd d = true) by (rewrite <- Z.negb_even, Ev; reflexivity).
  apply Z.odd_spec in Hodd as [h Hh].
  destruct (Z.compare_spec (2 * r + 1) d), (Z.compare_spec (2 * r) d);
    try reflexivity; lia.
Qed.

Lemma loc_of_shr_record_of_loc (m : Z) (l : location) :
  loc_of_shr_record (shr_record_of_loc m l) = l.
Proof. now destruct l as [|[]]. Qed.

Lemma shr_1_spec (m : Z) (r s : bool) :
  0 <= m ->
  shr_1 (Build_shr_record m r s) = Build_shr_record (m / 2) (Z.odd m) (r || s).
Proof.
  intros Hm. destruct m as [|[p|p|]|p]; try lia; cbn [shr_1].
  - reflexivity.
  - f_equal. rewrite Pos2Z.inj_xI. apply Z.div_unique with 1; lia.
  - f_equal. rewrite Pos2Z.inj_xO. apply Z.div_unique with 0; lia.
  - reflexivity.
Qed.

Lemma shr_1_rec_of (p d : Z) :
  0 <= p -> 0 < d -> shr_1 (rec_of p d) = rec_of p (2 * d).
Proof.
  intros Hp Hd. unfold rec_of.
  pose proof (Z.div_pos p d Hp Hd) as Hq.
  pose proof (Z.mod_pos_bound p d Hd) as Hr.
  pose proof (Z.div_mod p d ltac:(lia)) as E.
  pose proof (Z.mod_pos_bound (p / d) 2 eq_refl) as Hb.
  pose proof (Z.div_mod (p / d) 2 ltac:(lia)) as E2.
  assert (Hq2 : p / (2 * d) = p / d / 2).
  { rewrite (Z.mul_comm 2 d). symmetry. apply Z.div_div; lia. }
  assert (Hr2 : p mod (2 * d) = (p / d) mod 2 * d + p mod d).
  { symmetry. apply Z.mod_unique with (p / d / 2); nia. }
  rewrite Hq2, Hr2.
  assert (Hodd : Z.odd (p / d) = ((p / d) mod 2 =? 1)).
  { rewrite Zodd_mod. reflexivity. }
  unfold loc_of at 1.
  destruct (Z.eqb_spec (p mod d) 0) as [Hz|Hz].
  - cbn [shr_record_of_loc]. rewrite shr_1_spec by exact Hq. rewrite Hodd, Hz.
    unfold loc_of. destruct (Z.eqb_spec ((p / d) mod 2) 1) as [H1|H1].
    + rewrite H1. destruct (Z.eqb_spec (1 * d + 0) 0); [lia|].
      replace (2 * (1 * d + 0) ?= 2 * d) with Eq
        by (symmetry; apply Z.compare_eq_iff; lia). reflexivity.
    + replace ((p / d) mod 2) with 0 by lia. reflexivity.
  - assert (Hs : forall c, shr_1 (shr_record_of_loc (p / d) (loc_Inexact c))
                  = Build_shr_record (p / d / 2) (Z.odd (p / d)) true).
    { intros []; cbn [shr_record_of_loc]; rewrite shr_1_spec by exact Hq;
        reflexivity. }
    rewrite Hs, Hodd. unfold loc_of.
    destruct (Z.eqb_spec ((p / d) mod 2) 1) as [H1|H1].
    + rewrite H1. destruct (Z.eqb_spec (1 * d + p mod d) 0); [lia|].
      replace (2 * (1 * d + p mod d) ?= 2 * d) with Gt
        by (symmetry; apply Z.compare_gt_iff; lia). reflexivity.
    + replace ((p / d) mod 2) with 0 by lia.
      destruct (Z.eqb_spec (0 * d + p mod d) 0); [lia|].
      replace (2 * (0 * d + p mod d) ?= 2 * d) with Lt
        by (symmetry; apply Z.compare_lt_iff; lia). reflexivity.
Qed.

Lemma iter_shr_1_rec_of (p : Z) (n : positive) (d : Z) :
  0 <= p -> 0 < d ->
  iter_pos shr_1 n (rec_of p d) = rec_of p (d * 2 ^ Z.pos n).
Proof.
  intros Hp. revert d. induction n as [n IH|n IH|]; intros d Hd; cbn [iter_pos].
  - rewrite shr_1_rec_of, IH, IH by (try apply Z.mul_pos_pos; lia).
    f_equal. replace (Z.pos n~1) with (Z.pos n + Z.pos n + 1) by lia.
    rewrite !Z.pow_add_r by lia. ring.
  - rewrite IH, IH by (try apply Z.mul_pos_pos; lia).
    f_equal. replace (Z.pos n~0) with (Z.pos n + Z.pos n) by lia.
    rewrite !Z.pow_add_r by lia. ring.
  - rewrite shr_1_rec_of by assumption. f_equal. lia.
Qed.

Lemma digits2_pos_upper (p : positive) : Z.pos p < 2 ^ Z.pos (digits2_pos p).
Proof.
  induction p as [p IH|p IH|]; simpl digits2_pos; [| |simpl; lia];
    rewrite Pos2Z.inj_succ, Z.pow_succ_r by lia; lia.
Qed.

Lemma Zdigits2_bounds (m : Z) :
  0 < m -> 2 ^ (Zdigits2 m - 1) <= m < 2 ^ Zdigits2 m.
Proof.
  destruct m as [|p|p]; try lia. intros _. simpl Zdigits2.
  split; [apply digits2_pos_lower | apply digits2_pos_upper].
Qed.

Lemma Zdigits2_unique (m d : Z) :
  0 < d -> 2 ^ (d - 1) <= m < 2 ^ d -> Zdigits2 m = d.
Proof.
  intros Hd [Hl Hu].
  assert (Hm : 0 < m) by (pose proof (Z.pow_pos_nonneg 2 (d - 1)); lia).
  destruct (Zdigits2_bounds m Hm) as [Hl' Hu'].
  assert (Hpos : 0 < Zdigits2 m) by (destruct m; simpl; lia).
  destruct (Z.lt_trichotomy (Zdigits2 m) d) as [H|[H|H]]; [|exact H|].
  - assert (2 ^ Zdigits2 m <= 2 ^ (d - 1)) by (apply Z.pow_le_mono_r; lia). lia.
  - assert (2 ^ d <= 2 ^ (Zdigits2 m - 1)) by (apply Z.pow_le_mono_r; lia). lia.
Qed.

Lemma shr_fexp_rec_of (p d e n : Z) :
  0 <= p -> 0 < d -> 0 <= n -> Zdigits2 (p / d) = 53 + n -> -1074 <= e + n ->
  shr_fexp prec emax (p / d) e (loc_of (p mod d) d) = (rec_of p (d * 2 ^ n), e + n).
Proof.
  intros Hp Hd Hn Hdig He. unfold shr_fexp, fexp, emin. rewrite Hdig.
  unfold prec, emax.
  replace (Z.max (53 + n + e - 53) (3 - 1024 - 53) - e) with n by lia.
  fold (rec_of p d). unfold shr. destruct n as [|q|q]; try lia.
  - f_equal; [|lia]. f_equal. simpl. lia.
  - now rewrite iter_shr_1_rec_of.
Qed.

Lemma round_nearest_even_rec_of (p d : Z) :
  0 <= p -> 0 < d ->
  - d <= 2 * (round_nearest_even (shr_m (rec_of p d))
                (loc_of_shr_record (rec_of p d)) * d - p) <= d
  /\ p / d <= round_nearest_even (shr_m (rec_of p d))
                (loc_of_shr_record (rec_of p d)) <= p / d + 1.
Proof.
  intros Hp Hd. unfold rec_of.
  rewrite shr_record_of_loc_m, loc_of_shr_record_of_loc.
  pose proof (Z.mod_pos_bound p d Hd) as Hr.
  pose proof (Z.div_mod p d ltac:(lia)) as E.
  unfold loc_of. destruct (Z.eqb_spec (p mod d) 0) as [Hz|Hz];
    cbn [round_nearest_even]; [nia|].
  destruct (Z.compare_spec (2 * (p mod d)) d); [|nia|nia].
  destruct (Z.even (p / d)); nia.
Qed.

(** Rounding [p / d * 2^e] to binary64, when the quotient has at least 53
    binary digits and the result stays in the normal range: the result is
    a 53-digit mantissa within half a unit of the exact value, taken at the
    exponent at which the quotient has 53 digits. *)
Lemma binary_round_aux_rec_of (p d e n : Z) :
  0 <= p -> 0 < d -> 0 <= n -> Zdigits2 (p / d) = 53 + n ->
  -1074 <= e + n -> e + n + 1 <= 971 ->
  exists mr c,
    binary_round_aux prec emax false (p / d) e (loc_of (p mod d) d)
    = S754_finite false mr (e + n + c)
    /\ 2 ^ 52 <= Z.pos mr < 2 ^ 53
    /\ 0 <= c <= 1
    /\ - (d * 2 ^ n) <= 2 * (Z.pos mr * 2 ^ c * (d * 2 ^ n) - p) <= d * 2 ^ n
    /\ 2 ^ 52 * (d * 2 ^ n) <= p.
Proof.
  intros Hp Hd Hn Hdig He1 He2.
  assert (Hpow : 0 < 2 ^ n) by (apply Z.pow_pos_nonneg; lia).
  assert (HD : 0 < d * 2 ^ n) by (apply Z.mul_pos_pos; lia).
  assert (Hq : 0 < p / d).
  { pose proof (Z.div_pos p d Hp Hd).
    destruct (Z.eq_dec (p / d) 0) as [E|E]; [|lia].
    rewrite E in Hdig. change (Zdigits2 0) with 0 in Hdig. lia. }
  destruct (Zdigits2_bounds (p / d) Hq) as [Hlo Hhi]. rewrite Hdig in Hlo, Hhi.
  replace (53 + n - 1) with (52 + n) in Hlo by lia.
  rewrite Z.pow_add_r in Hlo, Hhi by lia.
  assert (Hdd : p / (d * 2 ^ n) = p / d / 2 ^ n) by (symmetry; apply Z.div_div; lia).
  assert (Hlo' : 2 ^ 52 <= p / (d * 2 ^ n)).
  { rewrite Hdd. apply Z.div_le_lower_bound; lia. }
  assert (Hhi' : p / (d * 2 ^ n) < 2 ^ 53).
  { rewrite Hdd. apply Z.div_lt_upper_bound; lia. }
  assert (Hbig : 2 ^ 52 * (d * 2 ^ n) <= p).
  { pose proof (Z.mul_div_le p (d * 2 ^ n) HD). nia. }
  unfold binary_round_aux.
  rewrite (shr_fexp_rec_of p d e n) by assumption.
  destruct (round_nearest_even_rec_of p (d * 2 ^ n) Hp HD) as [Hnear Hk].
  set (k := round_nearest_even _ _) in *.
  assert (Hs : forall c, 0 <= c -> Zdigits2 k = 53 + c ->
            shr_fexp prec emax k (e + n) loc_Exact
            = (rec_of k (1 * 2 ^ c), e + n + c)).
  { intros c Hc Hdk. pose proof (shr_fexp_rec_of k 1 (e + n) c) as H.
    rewrite Z.div_1_r, Z.mod_1_r in H. apply H; lia. }
  assert (Hm : forall c, shr_m (rec_of k (1 * 2 ^ c)) = k / 2 ^ c).
  { intros c. unfold rec_of. rewrite shr_record_of_loc_m. f_equal. lia. }
  destruct (Z.eq_dec k (2 ^ 53)) as [Htop|Htop].
  - rewrite (Hs 1) by (try lia; rewrite Htop; reflexivity).
    rewrite Hm, Htop. exists 4503599627370496%positive, 1.
    replace ((e + n + 1) <=? emax - prec) with true
      by (symmetry; apply Z.leb_le; unfold emax, prec; lia).
    split; [reflexivity|]. rewrite Htop in Hnear.
    repeat split; try lia; try exact Hbig.
  - rewrite (Hs 0) by (try lia; apply Zdigits2_unique; lia).
    rewrite Hm. replace (k / 2 ^ 0) with k by (simpl; now rewrite Z.div_1_r).
    destruct k as [|mr|mr]; try lia. exists mr, 0.
    replace (e + n + 0) with (e + n) by lia.
    replace ((e + n) <=? emax - prec) with true
      by (symmetry; apply Z.leb_le; unfold emax, prec; lia).
    split; [reflexivity|].
    replace (Z.pos mr * 2 ^ 0) with (Z.pos mr) by (simpl; lia).
    repeat split; try lia; try exact Hbig.
Qed.

Lemma Qpow2_pos (e : Z) : (0 < 2 ^ e)%Q.
Proof. apply Qpower_0_lt. reflexivity. Qed.

Lemma Qpow2_add (a b : Z) : (2 ^ (a + b) == 2 ^ a * 2 ^ b)%Q.
Proof. apply Qpower_plus. discriminate. Qed.

Lemma inject_Z_pow2 (n : Z) : 0 <= n -> (inject_Z (2 ^ n) == 2 ^ n)%Q.
Proof. intros Hn. now rewrite Zpower_Qpower. Qed.

(** Half a unit in the last of 53 places is a relative error of at most
    [2^-53]. *)
Lemma half_unit_relative (k w : Q) :
  (- (1 # 2) <= k - w <= 1 # 2)%Q -> (inject_Z (2 ^ 52) <= w)%Q ->
  (w - w * (1 # 2 ^ 53) <= k <= w + w * (1 # 2 ^ 53))%Q.
Proof.
  intros Hk Hw.
  assert (H : (inject_Z (2 ^ 52) * (1 # 2 ^ 53) == 1 # 2)%Q) by reflexivity.
  assert (Hm : (inject_Z (2 ^ 52) * (1 # 2 ^ 53) <= w * (1 # 2 ^ 53))%Q).
  { apply Qmult_le_compat_r; [exact Hw | discriminate]. }
  rewrite H in Hm. split; lra.
Qed.

Lemma binary_round_aux_Q (p d e n : Z) :
  0 <= p -> 0 < d -> 0 <= n -> Zdigits2 (p / d) = 53 + n ->
  -1074 <= e + n -> e + n + 1 <= 971 ->
  exists mr er,
    binary_round_aux prec emax false (p / d) e (loc_of (p mod d) d)
    = S754_finite false mr er
    /\ 2 ^ 52 <= Z.pos mr < 2 ^ 53
    /\ e + n <= er <= e + n + 1
    /\ (let v := inject_Z p / inject_Z d * 2 ^ e in
        v - v * (1 # 2 ^ 53) <= Qvalue mr er <= v + v * (1 # 2 ^ 53))%Q.
Proof.
  intros Hp Hd Hn Hdig He1 He2.
  destruct (binary_round_aux_rec_of p d e n Hp Hd Hn Hdig He1 He2)
    as (mr & c & Hr & Hmr & Hc & Hnear & Hbig).
  exists mr, (e + n + c). split; [exact Hr|]. split; [exact Hmr|].
  split; [lia|]. cbv zeta.
  assert (Hpow : 0 < 2 ^ n) by (apply Z.pow_pos_nonneg; lia).
  set (D := d * 2 ^ n) in *.
  assert (HD : 0 < D) by (apply Z.mul_pos_pos; lia).
  set (k := Z.pos mr * 2 ^ c) in *.
  set (s := (2 ^ (e + n))%Q).
  assert (Hs : (0 < s)%Q) by apply Qpow2_pos.
  set (w := (inject_Z p / inject_Z D)%Q).
  assert (HDq : (0 < inject_Z D)%Q) by (rewrite <- (Zlt_Qlt 0); exact HD).
  assert (Hdq : (0 < inject_Z d)%Q) by (rewrite <- (Zlt_Qlt 0); exact Hd).
  assert (Hval : (Qvalue mr (e + n + c) == inject_Z k * s)%Q).
  { unfold Qvalue, k, s. rewrite inject_Z_mult, Qpow2_add.
    rewrite (inject_Z_pow2 c) by lia. ring. }
  assert (Hv : (inject_Z p / inject_Z d * 2 ^ e == w * s)%Q).
  { unfold w, s, D. rewrite inject_Z_mult, (inject_Z_pow2 n) by lia.
    rewrite Qpow2_add. pose proof (Qpow2_pos n). field. split; lra. }
  assert (Hwp : (w * inject_Z D == inject_Z p)%Q).
  { unfold w. field. lra. }
  assert (Hw : (inject_Z (2 ^ 52) <= w)%Q).
  { apply Qmult_le_r with (inject_Z D); [exact HDq|].
    rewrite Hwp, <- inject_Z_mult, <- Zle_Qle. exact Hbig. }
  assert (Hk : (- (1 # 2) <= inject_Z k - w <= 1 # 2)%Q).
  { assert (H1 : (- inject_Z D <= 2 * (inject_Z k * inject_Z D - inject_Z p))%Q).
    { rewrite <- inject_Z_mult, <- inject_Z_opp.
      change 2%Q with (inject_Z 2). unfold Qminus.
      rewrite <- inject_Z_opp, <- inject_Z_plus, <- inject_Z_mult, <- Zle_Qle. lia. }
    assert (H2 : (2 * (inject_Z k * inject_Z D - inject_Z p) <= inject_Z D)%Q).
    { rewrite <- inject_Z_mult.
      change 2%Q with (inject_Z 2). unfold Qminus.
      rewrite <- inject_Z_opp, <- inject_Z_plus, <- inject_Z_mult, <- Zle_Qle. lia. }
    rewrite <- Hwp in H1, H2.
    split.
    - apply Qmult_le_r with (inject_Z D); [exact HDq|]. lra.
    - apply Qmult_le_r with (inject_Z D); [exact HDq|]. lra. }
  destruct (half_unit_relative _ _ Hk Hw) as [Hlo Hhi].
  rewrite Hval, Hv. split.
  - apply Qle_trans with ((w - w * (1 # 2 ^ 53)) * s)%Q; [lra|].
    apply Qmult_le_compat_r; [exact Hlo | lra].
  - apply Qle_trans with ((w + w * (1 # 2 ^ 53)) * s)%Q; [|lra].
    apply Qmult_le_compat_r; [exact Hhi | lra].
Qed.
Lemma Zdigits2_at_least (m : Z) : 2 ^ 52 <= m -> 0 <= Zdigits2 m - 53.
Proof.
  intros Hm. destruct (Zdigits2_bounds m ltac:(lia)) as [_ Hu].
  destruct (Z.le_gt_cases 53 (Zdigits2 m)) as [|Hlt]; [lia|].
  assert (2 ^ Zdigits2 m <= 2 ^ 52) by (apply Z.pow_le_mono_r; lia). lia.
Qed.

Lemma pos_digits_53 (m : positive) :
  Z.pos (digits2_pos m) = 53 -> 2 ^ 52 <= Z.pos m < 2 ^ 53.
Proof.
  intros H. pose proof (digits2_pos_lower m). pose proof (digits2_pos_upper m).
  rewrite H in *. split; assumption.
Qed.

Lemma Qvalue_pos (m : positive) (e : Z) : (0 < Qvalue m e)%Q.
Proof.
  unfold Qvalue. apply Qmult_lt_0_compat; [|apply Qpow2_pos].
  now rewrite <- (Zlt_Qlt 0).
Qed.

Lemma SFdiv_Q (ma mb : positive) (ea eb : Z) :
  Z.pos (digits2_pos ma) = 53 -> Z.pos (digits2_pos mb) = 53 ->
  -1000 <= ea - eb <= 1000 ->
  exists mr er,
    SFdiv prec emax (S754_finite false ma ea) (S754_finite false mb eb)
    = S754_finite false mr er
    /\ 2 ^ 52 <= Z.pos mr < 2 ^ 53
    /\ ea - eb - 53 <= er <= ea - eb - 51
    /\ (let v := Qvalue ma ea / Qvalue mb eb in
        v - v * (1 # 2 ^ 53) <= Qvalue mr er <= v + v * (1 # 2 ^ 53))%Q.
Proof.
  intros Ha Hb He.
  pose proof (pos_digits_53 ma Ha) as Hma. pose proof (pos_digits_53 mb Hb) as Hmb.
  unfold SFdiv, SFdiv_core_binary. cbn [Zdigits2 xorb]. rewrite Ha, Hb.
  unfold fexp, emin, prec, emax.
  replace (Z.min (Z.max (53 + ea - (53 + eb) - 53) (3 - 1024 - 53)) (ea - eb))
    with (ea - eb - 53) by lia.
  replace (ea - eb - (ea - eb - 53)) with 53 by lia.
  cbv beta iota zeta.
  set (p := Z.shiftl (Z.pos ma) 53).
  assert (Hp : p = Z.pos ma * 2 ^ 53) by (unfold p; rewrite Z.shiftl_mul_pow2 by lia; reflexivity).
  assert (Hdm : Z.div_eucl p (Z.pos mb) = (p / Z.pos mb, p mod Z.pos mb)).
  { unfold Z.div, Z.modulo. destruct (Z.div_eucl p (Z.pos mb)); reflexivity. }
  rewrite Hdm.
  rewrite new_location_spec by (try apply Z.mod_pos_bound; lia).
  assert (Hq : 2 ^ 52 <= p / Z.pos mb < 2 ^ 54).
  { split.
    - apply Z.div_le_lower_bound; [lia|]. rewrite Hp. lia.
    - apply Z.div_lt_upper_bound; [lia|]. rewrite Hp. lia. }
  set (n := Zdigits2 (p / Z.pos mb) - 53).
  assert (Hn0 : 0 <= n) by (apply Zdigits2_at_least; lia).
  assert (Hn1 : n <= 1).
  { destruct (Zdigits2_bounds (p / Z.pos mb) ltac:(lia)) as [Hl _].
    destruct (Z.le_gt_cases (Zdigits2 (p / Z.pos mb)) 54) as [|Hgt]; [lia|].
    assert (2 ^ 54 <= 2 ^ (Zdigits2 (p / Z.pos mb) - 1))
      by (apply Z.pow_le_mono_r; lia). lia. }
  destruct (binary_round_aux_Q p (Z.pos mb) (ea - eb - 53) n)
    as (mr & er & Hr & Hmr & Her & Hv); try lia.
  exists mr, er. split; [exact Hr|]. split; [exact Hmr|]. split; [lia|].
  cbv zeta in Hv |- *.
  assert (E : (inject_Z p / inject_Z (Z.pos mb) * 2 ^ (ea - eb - 53)
               == Qvalue ma ea / Qvalue mb eb)%Q).
  { unfold Qvalue. rewrite Hp, inject_Z_mult.
    replace (ea - eb - 53) with (ea + (- eb + -53)) by lia.
    rewrite !Qpow2_add, Qpower_opp.
    pose proof (Qpow2_pos eb).
    assert (Hc : (inject_Z (2 ^ 53) * 2 ^ (-53) == 1)%Q) by reflexivity.
    assert (Hmbq : (0 < inject_Z (Z.pos mb))%Q) by (rewrite <- (Zlt_Qlt 0); reflexivity).
    setoid_replace (inject_Z (Z.pos ma) * inject_Z (2 ^ 53) / inject_Z (Z.pos mb)
                    * (2 ^ ea * (/ 2 ^ eb * 2 ^ (-53))))%Q
      with (inject_Z (Z.pos ma) * 2 ^ ea / (inject_Z (Z.pos mb) * 2 ^ eb)
            * (inject_Z (2 ^ 53) * 2 ^ (-53)))%Q
      by (field; split; lra).
    rewrite Hc. ring. }
  rewrite <- E. exact Hv.
Qed.

Lemma SFmul_Q (ma mb : positive) (ea eb : Z) :
  Z.pos (digits2_pos ma) = 53 -> Z.pos (digits2_pos mb) = 53 ->
  -1000 <= ea + eb <= 900 ->
  exists mr er,
    SFmul prec emax (S754_finite false ma ea) (S754_finite false mb eb)
    = S754_finite false mr er
    /\ 2 ^ 52 <= Z.pos mr < 2 ^ 53
    /\ (let v := Qvalue ma ea * Qvalue mb eb in
        v - v * (1 # 2 ^ 53) <= Qvalue mr er <= v + v * (1 # 2 ^ 53))%Q.
Proof.
  intros Ha Hb He.
  pose proof (pos_digits_53 ma Ha) as Hma. pose proof (pos_digits_53 mb Hb) as Hmb.
  unfold SFmul. cbn [xorb]. rewrite Pos2Z.inj_mul.
  set (p := Z.pos ma * Z.pos mb).
  assert (Hp : 2 ^ 104 <= p < 2 ^ 106) by (unfold p; nia).
  set (n := Zdigits2 p - 53).
  assert (Hn0 : 52 <= n).
  { destruct (Zdigits2_bounds p ltac:(lia)) as [_ Hu].
    destruct (Z.le_gt_cases 105 (Zdigits2 p)) as [|Hlt]; [lia|].
    assert (2 ^ Zdigits2 p <= 2 ^ 104) by (apply Z.pow_le_mono_r; lia). lia. }
  assert (Hn1 : n <= 53).
  { destruct (Zdigits2_bounds p ltac:(lia)) as [Hl _].
    destruct (Z.le_gt_cases (Zdigits2 p) 106) as [|Hgt]; [lia|].
    assert (2 ^ 106 <= 2 ^ (Zdigits2 p - 1)) by (apply Z.pow_le_mono_r; lia). lia. }
  pose proof (binary_round_aux_Q p 1 (ea + eb) n) as H.
  rewrite Z.div_1_r, Z.mod_1_r in H. change (loc_of 0 1) with loc_Exact in H.
  destruct H as (mr & er & Hr & Hmr & Her & Hv); try lia.
  exists mr, er. split; [exact Hr|]. split; [exact Hmr|].
  cbv zeta in Hv |- *.
  assert (E : (inject_Z p / inject_Z 1 * 2 ^ (ea + eb)
               == Qvalue ma ea * Qvalue mb eb)%Q).
  { unfold Qvalue, p. rewrite inject_Z_mult, Qpow2_add. field. }
  rewrite <- E. exact Hv.
Qed.

Lemma iter_xO_value (p d : positive) :
  Z.pos (Pos.iter xO p d) = Z.pos p * 2 ^ Z.pos d.
Proof.
  induction d as [|d IH] using Pos.peano_ind.
  - simpl. lia.
  - rewrite Pos.iter_succ, Pos2Z.inj_xO, IH, Pos2Z.inj_succ, Z.pow_succ_r by lia.
    ring.
Qed.

Lemma float_of_Z_finite (z : Z) :
  0 < z < 2 ^ 53 ->
  exists mz ez,
    Prim2SF (float_of_Z z) = S754_finite false mz ez
    /\ Z.pos (digits2_pos mz) = 53 /\ -52 <= ez <= 0
    /\ (Qvalue mz ez == inject_Z z)%Q.
Proof.
  intros [Hz0 Hz]. rewrite float_of_Z_spec by lia.
  destruct z as [|p|p]; try lia.
  unfold binary_normalize, binary_round, shl_align, fexp, emin.
  pose proof (digits2_pos_bound p 53 ltac:(lia) Hz) as Hd.
  unfold prec, emax.
  replace (Z.max (Z.pos (digits2_pos p) + 0 - 53) (3 - 1024 - 53) - 0)
    with (Z.pos (digits2_pos p) - 53) by lia.
  replace (Z.max (Z.pos (digits2_pos p) + 0 - 53) (3 - 1024 - 53))
    with (Z.pos (digits2_pos p) - 53) by lia.
  destruct (Z.pos (digits2_pos p) - 53) as [|q|q] eqn:E; try lia;
    cbv beta iota.
  - exists p, 0. split; [apply binary_round_aux_canonical; lia|].
    split; [lia|]. split; [lia|]. unfold Qvalue. simpl. ring.
  - exists (Pos.iter xO p q), (Z.neg q).
    assert (Hdig : Z.pos (digits2_pos (Pos.iter xO p q)) = 53)
      by (rewrite digits2_pos_iter_xO; lia).
    split; [apply binary_round_aux_canonical; lia|].
    split; [exact Hdig|]. split; [lia|].
    unfold Qvalue. rewrite iter_xO_value, inject_Z_mult, (inject_Z_pow2 (Z.pos q)) by lia.
    change (Z.neg q) with (- Z.pos q). rewrite Qpower_opp.
    pose proof (Qpow2_pos (Z.pos q)). field. lra.
Qed.

Lemma nearest_even_Q (m e : Z) :
  0 <= m ->
  (- (1 # 2) <= inject_Z (nearest_even m e) - inject_Z m * 2 ^ e <= 1 # 2)%Q.
Proof.
  intros Hm. unfold nearest_even. destruct (Z.leb_spec 0 e) as [He|He].
  - rewrite inject_Z_mult, (inject_Z_pow2 e) by lia. split; lra.
  - set (den := 2 ^ (- e)).
    assert (Hden : 0 < den) by (apply Z.pow_pos_nonneg; lia).
    pose proof (Z.mod_pos_bound m den Hden) as Hr.
    pose proof (Z.div_mod m den ltac:(lia)) as E.
    set (k := if 2 * (m mod den) <? den then m / den
              else if den <? 2 * (m mod den) then m / den + 1
              else if Z.even (m / den) then m / den else m / den + 1).
    assert (Hk : - den <= 2 * (k * den - m) <= den).
    { unfold k. destruct (Z.ltb_spec (2 * (m mod den)) den); [nia|].
      destruct (Z.ltb_spec den (2 * (m mod den))); [nia|].
      destruct (Z.even (m / den)); nia. }
    assert (Hdq : (0 < inject_Z den)%Q) by (rewrite <- (Zlt_Qlt 0); exact Hden).
    assert (Hpow : (2 ^ e == / inject_Z den)%Q).
    { unfold den. rewrite (inject_Z_pow2 (- e)) by lia.
      replace e with (- - e) at 1 by lia. apply Qpower_opp. }
    rewrite Hpow.
    assert (H1 : (- inject_Z den <= 2 * (inject_Z k * inject_Z den - inject_Z m))%Q).
    { rewrite <- inject_Z_mult, <- inject_Z_opp.
      change 2%Q with (inject_Z 2). unfold Qminus.
      rewrite <- inject_Z_opp, <- inject_Z_plus, <- inject_Z_mult, <- Zle_Qle. lia. }
    assert (H2 : (2 * (inject_Z k * inject_Z den - inject_Z m) <= inject_Z den)%Q).
    { rewrite <- inject_Z_mult.
      change 2%Q with (inject_Z 2). unfold Qminus.
      rewrite <- inject_Z_opp, <- inject_Z_plus, <- inject_Z_mult, <- Zle_Qle. lia. }
    assert (Hw : (inject_Z m * / inject_Z den * inject_Z den == inject_Z m)%Q)
      by (field; lra).
    rewrite <- Hw in H1, H2.
    split.
    + apply Qmult_le_r with (inject_Z den); [exact Hdq|]. lra.
    + apply Qmult_le_r with (inject_Z den); [exact Hdq|]. lra.
Qed.

Lemma Prim2SF_100 :
  Prim2SF 100 = S754_finite false 7036874417766400 (-46).
Proof. vm_compute. reflexivity. Qed.

Lemma Qvalue_100 : (Qvalue 7036874417766400 (-46) == 100)%Q.
Proof. reflexivity. Qed.

Lemma pos_digits_of_bounds (m : positive) :
  2 ^ 52 <= Z.pos m < 2 ^ 53 -> Z.pos (digits2_pos m) = 53.
Proof. intros H. apply (Zdigits2_unique (Z.pos m) 53); lia. Qed.

(** The error of the quotient, of the product with 100 and of the rounding
    to hundredths, put together: the number of hundredths that [round]
    settles on is within [1/2 + 2^-38] of the exact share in hundredths. *)
Lemma hundredths_chain (v q x k : Q) :
  (0 <= v <= 1)%Q ->
  (v - v * (1 # 2 ^ 53) <= q <= v + v * (1 # 2 ^ 53))%Q ->
  (q * 100 - q * 100 * (1 # 2 ^ 53) <= x <= q * 100 + q * 100 * (1 # 2 ^ 53))%Q ->
  (- (1 # 2) <= k - x * 100 <= 1 # 2)%Q ->
  (- ((1 # 2) + (1 # 2 ^ 38)) <= k - 10000 * v <= (1 # 2) + (1 # 2 ^ 38))%Q.
Proof.
  change (1 # 2 ^ 53)%Q with (1 # 9007199254740992)%Q.
  change (1 # 2 ^ 38)%Q with (1 # 274877906944)%Q.
  intros Hv Hq Hx Hk. split; lra.
Qed.

Lemma share_hundredths (m t : Z) :
  0 < m <= t -> t < 2 ^ 53 ->
  exists k,
    round2 (float_of_Z m / float_of_Z t * 100)%float = (float_of_Z k / 100)%float
    /\ 2 ^ 38 * Z.abs (k * t - 10000 * m) <= (2 ^ 37 + 1) * t.
Proof.
  intros Hm Ht.
  destruct (float_of_Z_finite m ltac:(lia)) as (ma & ea & Ha & Hda & Hea & Hva).
  destruct (float_of_Z_finite t ltac:(lia)) as (mb & eb & Hb & Hdb & Heb & Hvb).
  destruct (SFdiv_Q ma mb ea eb Hda Hdb ltac:(lia))
    as (mq & eq & Hq & Hmq & Heq & Hvq).
  destruct (SFmul_Q mq 7036874417766400 eq (-46)
              (pos_digits_of_bounds mq Hmq) eq_refl ltac:(lia))
    as (mx & ex & Hx & Hmx & Hvx).
  assert (HX : Prim2SF (float_of_Z m / float_of_Z t * 100)
               = S754_finite false mx ex).
  { rewrite mul_spec, div_spec, Ha, Hb, Prim2SF_100.
    unfold SF64mul, SF64div. rewrite Hq. exact Hx. }
  exists (nearest_even (Z.pos mx * 100) ex). split.
  { unfold round2. rewrite HX. reflexivity. }
  pose proof (nearest_even_Q (Z.pos mx * 100) ex ltac:(lia)) as Hk.
  set (k := nearest_even (Z.pos mx * 100) ex) in *.
  cbv zeta in Hvq, Hvx. rewrite Hva, Hvb in Hvq. rewrite Qvalue_100 in Hvx.
  assert (Hkx : (inject_Z (Z.pos mx * 100) * 2 ^ ex == Qvalue mx ex * 100)%Q).
  { unfold Qvalue. rewrite inject_Z_mult. change (inject_Z 100) with 100%Q. ring. }
  rewrite Hkx in Hk.
  assert (Htq : (0 < inject_Z t)%Q) by (rewrite <- (Zlt_Qlt 0); lia).
  set (v := (inject_Z m / inject_Z t)%Q) in *.
  assert (Hvt : (v * inject_Z t == inject_Z m)%Q) by (unfold v; field; lra).
  assert (Hv : (0 <= v <= 1)%Q).
  { split.
    - apply Qmult_le_r with (inject_Z t); [exact Htq|]. rewrite Hvt.
      rewrite Qmult_0_l, <- (Zle_Qle 0). lia.
    - apply Qmult_le_r with (inject_Z t); [exact Htq|]. rewrite Hvt.
      rewrite Qmult_1_l, <- Zle_Qle. lia. }
  destruct (hundredths_chain v _ _ _ Hv Hvq Hvx Hk) as [Hlo Hhi].
  assert (Hlo' : (- ((1 # 2) + (1 # 2 ^ 38)) * inject_Z t
                  <= (inject_Z k - 10000 * v) * inject_Z t)%Q).
  { apply Qmult_le_compat_r; [exact Hlo | lra]. }
  assert (Hhi' : ((inject_Z k - 10000 * v) * inject_Z t
                  <= ((1 # 2) + (1 # 2 ^ 38)) * inject_Z t)%Q).
  { apply Qmult_le_compat_r; [exact Hhi | lra]. }
  assert (E : ((inject_Z k - 10000 * v) * inject_Z t
               == inject_Z (k * t - 10000 * m))%Q).
  { unfold Zminus. rewrite inject_Z_plus, inject_Z_opp, !inject_Z_mult, <- Hvt.
    change (inject_Z 10000) with 10000%Q. ring. }
  rewrite E in Hlo', Hhi'.
  assert (Z1 : - ((2 ^ 37 + 1) * t) <= 2 ^ 38 * (k * t - 10000 * m)).
  { rewrite Zle_Qle, inject_Z_opp, !inject_Z_mult.
    change (inject_Z (2 ^ 37 + 1)) with (137438953473 # 1)%Q.
    change (inject_Z (2 ^ 38)) with (274877906944 # 1)%Q.
    change (1 # 2 ^ 38)%Q with (1 # 274877906944)%Q in Hlo'. lra. }
  assert (Z2 : 2 ^ 38 * (k * t - 10000 * m) <= (2 ^ 37 + 1) * t).
  { rewrite Zle_Qle, !inject_Z_mult.
    change (inject_Z (2 ^ 37 + 1)) with (137438953473 # 1)%Q.
    change (inject_Z (2 ^ 38)) with (274877906944 # 1)%Q.
    change (1 # 2 ^ 38)%Q with (1 # 274877906944)%Q in Hhi'. lra. }
  lia.
Qed.

(** A participant without messages has the share 0.0. *)
Lemma zero_share (t : Z) :
  0 < t < 2 ^ 53 ->
  round2 (float_of_Z 0 / float_of_Z t * 100)%float = (float_of_Z 0 / 100)%float.
Proof.
  intros Ht.
  destruct (float_of_Z_finite t Ht) as (mb & eb & Hb & _).
  assert (Hx : Prim2SF (float_of_Z 0 / float_of_Z t * 100) = S754_zero false).
  { rewrite mul_spec, div_spec, Hb, Prim2SF_100. reflexivity. }
  unfold round2. rewrite Hx. apply Prim2SF_inj. rewrite Hx. reflexivity.
Qed.

(** Line 67 on a count and a total below 2^53: the contribution is [k / 100]
    for an integer [k] within [1/2 + 2^-38] of the exact share in
    hundredths. *)
Lemma contribution_of_hundredths (m t : Z) :
  0 <= m <= t -> 0 < t < 2 ^ 53 ->
  exists k,
    contribution_of m t = PyFloat (float_of_Z k / 100)
    /\ 2 ^ 38 * Z.abs (k * t - 10000 * m) <= (2 ^ 37 + 1) * t.
Proof.
  intros Hm Ht. unfold contribution_of.
  destruct (Z.eqb_spec t 0) as [E|_]; [lia|].
  destruct (Z.eq_dec m 0) as [->|Hm0].
  - exists 0. rewrite zero_share by exact Ht. split; [reflexivity | lia].
  - destruct (share_hundredths m t ltac:(lia) ltac:(lia)) as (k & Hk & Hb).
    exists k. now rewrite Hk.
Qed.

(** An integer that close to the exact share is one of the two hundredths
    that enclose it. *)
Lemma hundredths_neighbours (m t k : Z) :
  0 <= m <= t -> 0 < t ->
  2 ^ 38 * Z.abs (k * t - 10000 * m) <= (2 ^ 37 + 1) * t ->
  0 <= k <= 10000 /\ 10000 * m / t <= k <= 10000 * m / t + 1.
Proof.
  intros Hm Ht Hb.
  pose proof (Z.mod_pos_bound (10000 * m) t Ht) as Hr.
  pose proof (Z.div_mod (10000 * m) t ltac:(lia)) as E.
  set (q := 10000 * m / t) in *. set (r := (10000 * m) mod t) in *.
  assert (Hq : 0 <= q <= 10000).
  { split; [apply Z.div_pos; lia|].
    apply Z.div_le_upper_bound; lia. }
  change (2 ^ 38) with 274877906944 in Hb. change (2 ^ 37 + 1) with 137438953473 in Hb.
  assert (Hlt : Z.abs (k * t - 10000 * m) < t) by lia.
  assert (Hk : q <= k <= q + 1).
  { split.
    - destruct (Z.le_gt_cases q k) as [|Hgt]; [assumption|].
      assert (k * t <= (q - 1) * t) by (apply Z.mul_le_mono_nonneg_r; lia). lia.
    - destruct (Z.le_gt_cases k (q + 1)) as [|Hgt]; [assumption|].
      assert ((q + 2) * t <= k * t) by (apply Z.mul_le_mono_nonneg_r; lia). lia. }
  split; [|exact Hk]. split; [lia|].
  destruct (Z.eq_dec k (q + 1)) as [->|]; [|lia].
  destruct (Z.eq_dec q 10000) as [Eq|]; [|lia].
  assert (r = 0) by nia. subst r. rewrite Eq in *. lia.
Qed.

(** Below 2^37 messages it is the nearest hundredth, unless the exact share
    lies halfway between two hundredths. *)
Lemma hundredths_nearest (m t k : Z) :
  0 <= m <= t -> 0 < t < 2 ^ 37 ->
  2 ^ 38 * Z.abs (k * t - 10000 * m) <= (2 ^ 37 + 1) * t ->
  share_is_tie m t = false -> k = rounded_share m t.
Proof.
  intros Hm Ht Hb Htie.
  destruct (hundredths_neighbours m t k Hm ltac:(lia) Hb) as [_ Hk].
  unfold share_is_tie in Htie. apply Z.eqb_neq in Htie.
  unfold rounded_share.
  pose proof (Z.mod_pos_bound (10000 * m) t ltac:(lia)) as Hr.
  pose proof (Z.div_mod (10000 * m) t ltac:(lia)) as E.
  set (q := 10000 * m / t) in *. set (r := (10000 * m) mod t) in *.
  change (2 ^ 38) with 274877906944 in Hb. change (2 ^ 37 + 1) with 137438953473 in Hb.
  change (2 ^ 37) with 137438953472 in Ht.
  destruct (Z.ltb_spec (2 * r) t) as [Hlt|Hge].
  - destruct (Z.eq_dec k q) as [|Hne]; [assumption|].
    assert (k = q + 1) by lia. subst k.
    replace ((q + 1) * t - 10000 * m) with (t - r) in Hb by lia. lia.
  - destruct (Z.ltb_spec t (2 * r)) as [Hgt|Hle]; [|lia].
    destruct (Z.eq_dec k (q + 1)) as [|Hne]; [assumption|].
    assert (k = q) by lia. subst k.
    replace (q * t - 10000 * m) with (- r) in Hb by lia. lia.
Qed.

Lemma messages_le_sum (d : list (string * stats)) :
  counts_nonneg d ->
  Forall (fun kv => 0 <= messages (snd kv) <= sum_messages d) d.
Proof.
  unfold counts_nonneg, sum_messages, values.
  induction d as [|[k v] d IH]; intros H; [constructor|].
  inversion H as [|? ? Hv Hd]; subst. specialize (IH Hd).
  assert (Hs : 0 <= fold_right Z.add 0 (map messages (map snd d))).
  { clear IH H. induction Hd as [|x l Hx Hl IHl]; simpl; lia. }
  simpl in *. constructor; [simpl; lia|].
  eapply Forall_impl; [|exact IH]. intros kv Hkv. simpl in Hkv. lia.
Qed.

(** No record counts more messages than the total. *)
Lemma snapshot_counts (lines : list string) :
  Forall (fun r => 0 <= r_messages r <= snd (analyze_chat lines))
         (values (fst (analyze_chat lines))).
Proof.
  unfold analyze_chat, finalize, values. cbn [fst snd].
  destruct (ingest_counts lines) as [Hc _].
  pose proof (messages_le_sum _ Hc) as H.
  assert (Hsum : sum_messages (participants (ingest lines))
                 = total_messages (ingest lines))
    by (apply fold_process_sum; reflexivity).
  rewrite Hsum in H.
  rewrite map_map. apply Forall_map.
  eapply Forall_impl; [|exact H]. intros kv Hkv. exact Hkv.
Qed.

(** C8, amended. For a transcript of fewer than 2^37 lines, every record
    that [analyze_chat] returns has a count between 0 and the total that is
    returned with it, the total after the last line. Its contribution is
    the integer 0 when that total is 0. Otherwise it is the double [k / 100]
    for an integer [k] between 0 and 10000 that is one of the two
    hundredths enclosing the exact share [10000 * count / total], within
    [1/2 + 2^-38] of it, and the nearest one (the share rounded to two
    decimals) unless the exact share lies halfway between two hundredths.
    An empty transcript gives no record and the total 0; Eve has 20.0 and
    Frank 0.0 of 10 messages; one and two messages of three give 33.33 and
    66.67. *)
Theorem contribution_is_nearest_hundredth (lines : list string) :
  Z.of_nat (List.length lines) < 2 ^ 37 ->
  snd (analyze_chat lines) = total_messages (ingest lines)
  /\ Forall (fun r =>
       0 <= r_messages r <= snd (analyze_chat lines)
       /\ (snd (analyze_chat lines) = 0 -> contribution r = PyInt 0)
       /\ (snd (analyze_chat lines) <> 0 ->
           exists k,
             contribution r = PyFloat (float_of_Z k / 100)
             /\ 0 <= k <= 10000
             /\ 10000 * r_messages r / snd (analyze_chat lines) <= k
                <= 10000 * r_messages r / snd (analyze_chat lines) + 1
             /\ 2 ^ 38 * Z.abs (k * snd (analyze_chat lines) - 10000 * r_messages r)
                <= (2 ^ 37 + 1) * snd (analyze_chat lines)
             /\ (share_is_tie (r_messages r) (snd (analyze_chat lines)) = false ->
                 k = rounded_share (r_messages r) (snd (analyze_chat lines)))))
       (values (fst (analyze_chat lines)))
  /\ analyze_chat [] = ([], 0)
  /\ snd (analyze_chat eve_transcript) = 10
  /\ option_map (fun r => (r_messages r, contribution r))
       (lookup "Eve" (fst (analyze_chat eve_transcript))) = Some (2, PyFloat 20)
  /\ option_map (fun r => (r_messages r, contribution r))
       (lookup "Frank" (fst (analyze_chat eve_transcript))) = Some (0, PyFloat 0)
  /\ map (fun kv => (fst kv, r_messages (snd kv), contribution (snd kv)))
       (fst (analyze_chat thirds_transcript))
     = [("Ann", 1, PyFloat (float_of_Z 3333 / 100));
        ("Ben", 2, PyFloat (float_of_Z 6667 / 100))].
Proof.
  intros Hlen. split; [reflexivity|]. split.
  { pose proof (ingest_counts lines) as [_ Htot].
    assert (Ht : 0 <= snd (analyze_chat lines) < 2 ^ 37) by (simpl; lia).
    pose proof (snapshot_counts lines) as Hcounts.
    assert (Hcontr : Forall (fun r => contribution r
                       = contribution_of (r_messages r) (snd (analyze_chat lines)))
                     (values (fst (analyze_chat lines))))
      by apply finalize_contributions.
    rewrite Forall_forall in *. intros r Hr.
    specialize (Hcounts r Hr). specialize (Hcontr r Hr).
    set (t := snd (analyze_chat lines)) in *.
    split; [exact Hcounts|]. split.
    - intros E. rewrite Hcontr, E. reflexivity.
    - intros Hne.
      assert (Ht53 : 0 < t < 2 ^ 53).
      { split; [lia|]. apply Z.lt_trans with (2 ^ 37); [lia | reflexivity]. }
      destruct (contribution_of_hundredths (r_messages r) t Hcounts Ht53)
        as (k & Hk & Hb).
      destruct (hundredths_neighbours _ _ _ Hcounts ltac:(lia) Hb) as [Hk1 Hk2].
      exists k. rewrite Hcontr. split; [exact Hk|]. split; [exact Hk1|].
      split; [exact Hk2|]. split; [exact Hb|].
      apply hundredths_nearest; [exact Hcounts | lia | exact Hb]. }
  repeat split; vm_compute; reflexivity.
Qed.

Lemma contribution_is_nearest_hundredth_witness :
  Forall (fun r =>
       0 <= r_messages r <= snd (analyze_chat tie_transcript)
       /\ (snd (analyze_chat tie_transcript) = 0 -> contribution r = PyInt 0)
       /\ (snd (analyze_chat tie_transcript) <> 0 ->
           exists k,
             contribution r = PyFloat (float_of_Z k / 100)
             /\ 0 <= k <= 10000
             /\ 10000 * r_messages r / snd (analyze_chat tie_transcript) <= k
                <= 10000 * r_messages r / snd (analyze_chat tie_transcript) + 1
             /\ 2 ^ 38 * Z.abs (k * snd (analyze_chat tie_transcript)
                                - 10000 * r_messages r)
                <= (2 ^ 37 + 1) * snd (analyze_chat tie_transcript)
             /\ (share_is_tie (r_messages r) (snd (analyze_chat tie_transcript))
                 = false ->
                 k = rounded_share (r_messages r)
                       (snd (analyze_chat tie_transcript)))))
       (values (fst (analyze_chat tie_transcript))).
Proof.
  assert (Hlen : Z.of_nat (List.length tie_transcript) < 2 ^ 37)
    by (vm_compute; reflexivity).
  exact (proj1 (proj2 (contribution_is_nearest_hundredth tie_transcript Hlen))).
Defined.

(** C8 as the specification words it, refuted. Of 160 messages Eve has 23
    and Dan 49: the exact shares, 14.375 and 30.625, lie halfway between two
    hundredths, and rounded to two decimals they are 14.38 and 30.62. The
    code gives 14.37 and 30.63: the quotient and the product are rounded to
    binary64 before [round] sees them, so that one tie goes down and the
    other up. *)
Lemma tie_shares_not_rounded :
  snd (analyze_chat tie_transcript) = 160
  /\ map (fun kv => (fst kv, r_messages (snd kv), contribution (snd kv)))
       (fst (analyze_chat tie_transcript))
     = [("Eve", 23, PyFloat (float_of_Z 1437 / 100));
        ("Dan", 49, PyFloat (float_of_Z 3063 / 100));
        ("Bob", 88, PyFloat 55)]
  /\ 2 * (10000 * 23) = (2 * 1437 + 1) * 160
  /\ 2 * (10000 * 49) = (2 * 3062 + 1) * 160
  /\ rounded_share 23 160 = 1438
  /\ rounded_share 49 160 = 3062
  /\ PyFloat (float_of_Z 1437 / 100) <> PyFloat (float_of_Z 1438 / 100)
  /\ PyFloat (float_of_Z 3063 / 100) <> PyFloat (float_of_Z 3062 / 100).
Proof.
  split; [vm_compute; reflexivity|]. split; [vm_compute; reflexivity|].
  split; [reflexivity|]. split; [reflexivity|].
  split; [reflexivity|]. split; [reflexivity|].
  split; intros [= H]; apply (f_equal Prim2SF) in H; vm_compute in H;
    discriminate.
Qed.

(** ** The four computations of the status *)

Lemma pie_inactive_complement (now : datetime) (days : Z) (r : record) :
  is_number (contribution r) = true ->
  pie_inactive now days r = negb (is_active now days r).
Proof.
  intros Hn. unfold pie_inactive, is_active.
  rewrite (is_number_complement _ Hn), !negb_andb.
  replace (r_messages r <? 1) with (negb (1 <=? r_messages r))
    by (destruct (Z.leb_spec 1 (r_messages r)), (Z.ltb_spec (r_messages r) 1);
        simpl; try reflexivity; lia).
  destruct (r_last r) as [l|]; [|reflexivity].
  replace (days <? days_between now l) with (negb (days_between now l <=? days))
    by (destruct (Z.leb_spec (days_between now l) days),
                 (Z.ltb_spec days (days_between now l));
        simpl; try reflexivity; lia).
  reflexivity.
Qed.

Lemma member_status_counts_loop_spec (now : datetime) (days : Z)
    (rs : list record) (a i : Z) :
  member_status_counts_loop now days rs a i
  = (a + Z.of_nat (List.length (filter (is_active now days) rs)),
     i + Z.of_nat (List.length (filter (fun r => negb (is_active now days r)) rs))).
Proof.
  revert a i; induction rs as [|r rs IH]; intros a i; simpl.
  - f_equal; lia.
  - destruct (is_active now days r); rewrite IH; simpl List.length; f_equal; lia.
Qed.

Lemma pie_inactive_count_spec (now : datetime) (days : Z) (rs : list record) (i : Z) :
  pie_inactive_count now days rs i
  = i + Z.of_nat (List.length (filter (pie_inactive now days) rs)).
Proof.
  revert i; induction rs as [|r rs IH]; intros i; simpl; [lia|].
  rewrite IH. destruct (pie_inactive now days r); simpl List.length; lia.
Qed.

Lemma filter_complement_length {A : Type} (p : A -> bool) (l : list A) :
  (List.length (filter p l) + List.length (filter (fun x => negb (p x)) l))%nat
  = List.length l.
Proof.
  induction l as [|x l IH]; simpl; [reflexivity|].
  destruct (p x); simpl; lia.
Qed.

Lemma filter_length_perm {A : Type} (p : A -> bool) (l l' : list A) :
  Permutation l l' -> List.length (filter p l) = List.length (filter p l').
Proof.
  induction 1 as [|x l l' _ IH|x y l|l l' l'' _ IH1 _ IH2]; simpl.
  - reflexivity.
  - destruct (p x); simpl; now rewrite IH.
  - destruct (p x), (p y); reflexivity.
  - now rewrite IH1.
Qed.

Lemma count_status_rows (active : record -> bool) (ps : list (string * record)) :
  count_status "Active" (map (make_row active) ps) = count_records active ps
  /\ count_status "Inactive" (map (make_row active) ps)
     = count_records (fun r => negb (active r)) ps.
Proof.
  unfold count_status, count_records, values.
  induction ps as [|[k r] ps [IH1 IH2]]; simpl; [split; reflexivity|].
  destruct (active r); simpl; split; simpl List.length; lia.
Qed.

Lemma member_status_counts_spec (now : datetime) (ps : list (string * record))
    (days : Z) :
  member_status_counts now ps days
  = (count_records (is_active now days) ps,
     count_records (fun r => negb (is_active now days r)) ps).
Proof.
  unfold member_status_counts, count_records.
  now rewrite member_status_counts_loop_spec.
Qed.

Lemma plot_activity_pie_spec (now : datetime) (ps : list (string * record))
    (days : Z) :
  Forall (fun r => is_number (contribution r) = true) (values ps) ->
  plot_activity_pie now ps days = member_status_counts now ps days.
Proof.
  intros Hn. rewrite member_status_counts_spec.
  unfold plot_activity_pie, count_records. rewrite pie_inactive_count_spec.
  assert (Hf : filter (pie_inactive now days) (values ps)
               = filter (fun r => negb (is_active now days r)) (values ps)).
  { apply filter_ext_in. intros r Hr. apply pie_inactive_complement.
    rewrite Forall_forall in Hn. now apply Hn. }
  rewrite Hf.
  pose proof (filter_complement_length (is_active now days) (values ps)) as Hlen.
  assert (List.length (values ps) = List.length ps)
    by (unfold values; apply length_map).
  f_equal; lia.
Qed.

(** C10. For what [analyze_chat] returns (a transcript of fewer than 2^53
    lines, so that the counts are exact floats), one instant [now] and the
    default threshold of 90 days, the four computations agree: the
    condition of the pie chart is the negation of the condition of the
    other three on every record, the pie chart is given the two counts of
    [member_status_counts], the report and the CSV file hold the same rows
    with the same status, in their two orders, and the rows marked Active
    and Inactive are as many as the two counts. *)
Theorem status_sites_agree (lines : list string) (now : datetime) :
  Z.of_nat (List.length lines) < 2 ^ 53 ->
  Forall (fun r => pie_inactive now default_inactivity_days r
                   = negb (is_active now default_inactivity_days r))
         (values (fst (analyze_chat lines)))
  /\ plot_activity_pie now (fst (analyze_chat lines)) default_inactivity_days
     = member_status_counts now (fst (analyze_chat lines)) default_inactivity_days
  /\ csv_rows (export_csv now now (fst (analyze_chat lines)))
     = map (make_row (is_active now default_inactivity_days))
           (fst (analyze_chat lines))
  /\ Permutation
       (report_rows (print_report now now (fst (analyze_chat lines))
                                  (snd (analyze_chat lines))))
       (csv_rows (export_csv now now (fst (analyze_chat lines))))
  /\ (count_status "Active"
        (report_rows (print_report now now (fst (analyze_chat lines))
                                   (snd (analyze_chat lines)))),
      count_status "Inactive"
        (report_rows (print_report now now (fst (analyze_chat lines))
                                   (snd (analyze_chat lines)))))
     = member_status_counts now (fst (analyze_chat lines)) default_inactivity_days
  /\ (count_status "Active"
        (csv_rows (export_csv now now (fst (analyze_chat lines)))),
      count_status "Inactive"
        (csv_rows (export_csv now now (fst (analyze_chat lines)))))
     = member_status_counts now (fst (analyze_chat lines)) default_inactivity_days
  /\ (report_active (print_report now now (fst (analyze_chat lines))
                                  (snd (analyze_chat lines))),
      report_inactive (print_report now now (fst (analyze_chat lines))
                                    (snd (analyze_chat lines))))
     = member_status_counts now (fst (analyze_chat lines)) default_inactivity_days
  /\ (csv_active (export_csv now now (fst (analyze_chat lines))),
      csv_inactive (export_csv now now (fst (analyze_chat lines))))
     = member_status_counts now (fst (analyze_chat lines)) default_inactivity_days.
Proof.
  intros Hlen. pose proof (snapshot_numbers lines Hlen) as Hn.
  set (ps := fst (analyze_chat lines)) in *.
  set (total := snd (analyze_chat lines)).
  assert (Hreport : report_rows (print_report now now ps total)
                    = map (make_row (is_active now 90)) (sorted (report_key now) ps)).
  { unfold print_report.
    now destruct (member_status_counts now ps default_inactivity_days). }
  assert (Hcsv : csv_rows (export_csv now now ps)
                 = map (make_row (is_active now 90)) ps).
  { unfold export_csv.
    now destruct (member_status_counts now ps default_inactivity_days). }
  assert (Hperm : Permutation (report_rows (print_report now now ps total))
                              (csv_rows (export_csv now now ps))).
  { rewrite Hreport, Hcsv. apply Permutation_map, sorted_perm. }
  assert (Hcount : (count_status "Active" (csv_rows (export_csv now now ps)),
                    count_status "Inactive" (csv_rows (export_csv now now ps)))
                   = member_status_counts now ps default_inactivity_days).
  { rewrite Hcsv, member_status_counts_spec.
    destruct (count_status_rows (is_active now 90) ps) as [-> ->]. reflexivity. }
  split.
  { eapply Forall_impl; [|exact Hn]. intros r. apply pie_inactive_complement. }
  split; [now apply plot_activity_pie_spec|].
  split; [exact Hcsv|]. split; [exact Hperm|]. split.
  { rewrite <- Hcount. unfold count_status.
    now rewrite !(filter_length_perm _ _ _ Hperm). }
  split; [exact Hcount|]. split.
  - unfold print_report.
    now destruct (member_status_counts now ps default_inactivity_days).
  - unfold export_csv.
    now destruct (member_status_counts now ps default_inactivity_days).
Qed.

Lemma status_sites_agree_witness :
  Forall (fun r => pie_inactive noon default_inactivity_days r
                   = negb (is_active noon default_inactivity_days r))
         (values (fst (analyze_chat eve_transcript)))
  /\ plot_activity_pie noon (fst (analyze_chat eve_transcript)) default_inactivity_days
     = member_status_counts noon (fst (analyze_chat eve_transcript))
                            default_inactivity_days.
Proof.
  pose proof (status_sites_agree eve_transcript noon) as H.
  assert (Hlen : Z.of_nat (List.length eve_transcript) < 2 ^ 53)
    by (vm_compute; reflexivity).
  exact (conj (proj1 (H Hlen)) (proj1 (proj2 (H Hlen)))).
Defined.


(* ================================================================== *)
(** * Further properties of the script *)

(** ** One record and one row per name *)

Lemma process_line_NoDup (st : state) (raw : string) :
  NoDup (keys (participants st)) -> NoDup (keys (participants (process_line st raw))).
Proof.
  intros H. rewrite process_line_classify.
  destruct (classify (strip raw)) as [n|n|dt sender body|]; unfold apply_event.
  - now apply ensure_NoDup.
  - now apply ensure_NoDup.
  - unfold record_message. cbn [participants].
    match goal with |- NoDup (keys (if ?b then _ else _)) => destruct b end;
      rewrite ?keys_update; now apply ensure_NoDup.
  - exact H.
Qed.

Lemma ingest_NoDup (lines : list string) : NoDup (keys (participants (ingest lines))).
Proof.
  induction lines as [|raw lines IH] using rev_ind; [constructor|].
  rewrite ingest_snoc. now apply process_line_NoDup.
Qed.

Lemma keys_finalize (st : state) : keys (fst (finalize st)) = keys (participants st).
Proof.
  unfold finalize, keys. simpl. rewrite map_map. now apply map_ext.
Qed.

Lemma row_names (active : record -> bool) (ps : list (string * record)) :
  map row_name (map (make_row active) ps) = keys ps.
Proof. unfold keys. rewrite map_map. now apply map_ext. Qed.

Lemma print_report_rows (t1 t2 : datetime) (ps : list (string * record)) (total : Z) :
  report_rows (print_report t1 t2 ps total)
  = map (make_row (is_active t2 90)) (sorted (report_key t2) ps).
Proof.
  unfold print_report. now destruct (member_status_counts t1 ps default_inactivity_days).
Qed.

Lemma export_csv_rows (t3 t4 : datetime) (ps : list (string * record)) :
  csv_rows (export_csv t3 t4 ps) = map (make_row (is_active t3 90)) ps.
Proof.
  unfold export_csv. now destruct (member_status_counts t4 ps default_inactivity_days).
Qed.

Lemma main_unfold (lines : list string) (t1 t2 t3 t4 t5 : datetime) :
  main lines t1 t2 t3 t4 t5
  = MkOutputs (print_report t1 t2 (fst (analyze_chat lines)) (snd (analyze_chat lines)))
              (export_csv t3 t4 (fst (analyze_chat lines)))
              (plot_leaderboard (fst (analyze_chat lines)))
              (plot_activity_pie t5 (fst (analyze_chat lines)) default_inactivity_days).
Proof. unfold main. now destruct (analyze_chat lines). Qed.

(** X1. Whatever the transcript, no name has two records, so the report
    and the CSV file of a run each hold exactly one row per participant, and
    the member count they print is the number of those rows. *)
Theorem one_row_per_participant (lines : list string) (t1 t2 t3 t4 t5 : datetime) :
  NoDup (keys (fst (analyze_chat lines)))
  /\ NoDup (map row_name (report_rows (out_report (main lines t1 t2 t3 t4 t5))))
  /\ NoDup (map row_name (csv_rows (out_csv (main lines t1 t2 t3 t4 t5))))
  /\ map row_name (csv_rows (out_csv (main lines t1 t2 t3 t4 t5)))
     = keys (fst (analyze_chat lines))
  /\ report_members (out_report (main lines t1 t2 t3 t4 t5))
     = Z.of_nat (List.length (report_rows (out_report (main lines t1 t2 t3 t4 t5))))
  /\ csv_members (out_csv (main lines t1 t2 t3 t4 t5))
     = Z.of_nat (List.length (csv_rows (out_csv (main lines t1 t2 t3 t4 t5)))).
Proof.
  assert (Hnd : NoDup (keys (fst (analyze_chat lines)))).
  { unfold analyze_chat. rewrite keys_finalize. apply ingest_NoDup. }
  rewrite main_unfold. cbn [out_report out_csv].
  rewrite print_report_rows, export_csv_rows, !row_names.
  split; [exact Hnd|]. split.
  { eapply Permutation_NoDup; [|exact Hnd].
    unfold keys. apply Permutation_map. symmetry. apply sorted_perm. }
  split; [exact Hnd|]. split; [reflexivity|]. split.
  - unfold print_report.
    destruct (member_status_counts t1 _ default_inactivity_days). cbn [report_members].
    rewrite length_map. f_equal.
    apply Permutation_length. symmetry. apply sorted_perm.
  - unfold export_csv.
    destruct (member_status_counts t4 _ default_inactivity_days). cbn [csv_members].
    now rewrite length_map.
Qed.

(** ** The two counts *)

Lemma filter_length_le {A : Type} (p : A -> bool) (l : list A) :
  (List.length (filter p l) <= List.length l)%nat.
Proof.
  induction l as [|x l IH]; simpl; [lia|]. destruct (p x); simpl; lia.
Qed.

(** X2. For any records, instant and threshold, the active and inactive
    counts of [member_status_counts] are not negative and add up to the
    number of participants; the same holds of the two numbers given to the
    pie chart, so no slice is negative. *)
Theorem counts_partition_members (now : datetime) (ps : list (string * record))
    (inactivity_days : Z) :
  0 <= fst (member_status_counts now ps inactivity_days)
  /\ 0 <= snd (member_status_counts now ps inactivity_days)
  /\ fst (member_status_counts now ps inactivity_days)
     + snd (member_status_counts now ps inactivity_days)
     = Z.of_nat (List.length ps)
  /\ 0 <= fst (plot_activity_pie now ps inactivity_days)
  /\ 0 <= snd (plot_activity_pie now ps inactivity_days)
  /\ fst (plot_activity_pie now ps inactivity_days)
     + snd (plot_activity_pie now ps inactivity_days)
     = Z.of_nat (List.length ps).
Proof.
  rewrite member_status_counts_spec. unfold count_records, plot_activity_pie.
  rewrite pie_inactive_count_spec. cbn [fst snd].
  pose proof (filter_complement_length (is_active now inactivity_days) (values ps)).
  pose proof (filter_length_le (pie_inactive now inactivity_days) (values ps)).
  assert (List.length (values ps) = List.length ps) by (unfold values; apply length_map).
  repeat split; lia.
Qed.

(** ** The Messages column *)

Lemma messages_column_rows (active : record -> bool) (ps : list (string * record)) :
  messages_column_sum (map (make_row active) ps) = sum_r_messages ps.
Proof.
  unfold messages_column_sum, sum_r_messages, values. rewrite !map_map.
  f_equal.
Qed.

Lemma sum_r_messages_perm (ps ps' : list (string * record)) :
  Permutation ps ps' -> sum_r_messages ps = sum_r_messages ps'.
Proof.
  unfold sum_r_messages, values.
  induction 1 as [|x l l' _ IH|x y l|l l' l'' _ IH1 _ IH2]; simpl; lia.
Qed.

Lemma analyze_chat_sum (lines : list string) :
  sum_r_messages (fst (analyze_chat lines)) = snd (analyze_chat lines).
Proof.
  unfold analyze_chat. rewrite sum_finalize. simpl. now apply fold_process_sum.
Qed.

Lemma export_csv_summary (t3 t4 : datetime) (ps : list (string * record)) :
  csv_members (export_csv t3 t4 ps) = Z.of_nat (List.length ps)
  /\ csv_active (export_csv t3 t4 ps) + csv_inactive (export_csv t3 t4 ps)
     = Z.of_nat (List.length ps).
Proof.
  unfold export_csv. rewrite member_status_counts_spec. cbn [csv_members csv_active
    csv_inactive]. unfold count_records.
  pose proof (filter_complement_length (is_active t4 default_inactivity_days)
                (values ps)).
  assert (List.length (values ps) = List.length ps) by (unfold values; apply length_map).
  split; [reflexivity | lia].
Qed.

Lemma file_column_sum_written (f : csv_file) :
  file_column_sum (csv_written f)
  = messages_column_sum (csv_rows f) + (csv_members f + (csv_active f + csv_inactive f)).
Proof.
  unfold file_column_sum, csv_written, messages_column_sum. cbn [tl app].
  induction (csv_rows f) as [|[[[sender messages] contribution] status] rows IH].
  - simpl. lia.
  - cbn [map app fold_right second_column]. rewrite IH.
    unfold row_messages. simpl. lia.
Qed.

(** X3. In one run the participant rows of the CSV file and of the report
    have message counts that add up to the total that [analyze_chat]
    returned, the number printed as "Total Messages in Group". The file's
    second column, headed "Messages", holds the three summary counts as
    well: summing the whole column gives that total plus twice the number
    of participants, and gives the total only when there is no
    participant. *)
Theorem csv_messages_column (lines : list string) (t1 t2 t3 t4 t5 : datetime) :
  nth_error (hd [] (csv_written (out_csv (main lines t1 t2 t3 t4 t5)))) 1
  = Some (CStr "Messages")
  /\ messages_column_sum (csv_rows (out_csv (main lines t1 t2 t3 t4 t5)))
     = snd (analyze_chat lines)
  /\ messages_column_sum (report_rows (out_report (main lines t1 t2 t3 t4 t5)))
     = snd (analyze_chat lines)
  /\ report_total_messages (out_report (main lines t1 t2 t3 t4 t5))
     = snd (analyze_chat lines)
  /\ file_column_sum (csv_written (out_csv (main lines t1 t2 t3 t4 t5)))
     = snd (analyze_chat lines)
       + 2 * Z.of_nat (List.length (fst (analyze_chat lines)))
  /\ (file_column_sum (csv_written (out_csv (main lines t1 t2 t3 t4 t5)))
      = snd (analyze_chat lines)
      <-> fst (analyze_chat lines) = []).
Proof.
  rewrite main_unfold. cbn [out_report out_csv].
  pose proof (analyze_chat_sum lines) as Hsum.
  assert (Hcsv : messages_column_sum (csv_rows (export_csv t3 t4 (fst (analyze_chat lines))))
                 = snd (analyze_chat lines))
    by (now rewrite export_csv_rows, messages_column_rows).
  destruct (export_csv_summary t3 t4 (fst (analyze_chat lines))) as [Hmem Hact].
  assert (Hfile : file_column_sum (csv_written (export_csv t3 t4 (fst (analyze_chat lines))))
                  = snd (analyze_chat lines)
                    + 2 * Z.of_nat (List.length (fst (analyze_chat lines)))).
  { rewrite file_column_sum_written, Hcsv, Hmem, Hact. lia. }
  split; [reflexivity|]. split; [exact Hcsv|]. split.
  { rewrite print_report_rows, messages_column_rows, <- Hsum.
    apply sum_r_messages_perm, sorted_perm. }
  split.
  { unfold print_report.
    now destruct (member_status_counts t1 _ default_inactivity_days). }
  split; [exact Hfile|]. rewrite Hfile.
  destruct (fst (analyze_chat lines)) as [|x l]; simpl List.length.
  - split; [reflexivity | intros _; lia].
  - split; [lia | discriminate].
Qed.

(** ** The bar chart *)

Lemma StronglySorted_impl {A : Type} (R R' : A -> A -> Prop) (l : list A) :
  (forall x y, R x y -> R' x y) -> StronglySorted R l -> StronglySorted R' l.
Proof.
  intros HR. induction 1 as [|x l Hl IH Hx]; [constructor|].
  constructor; [exact IH|]. eapply Forall_impl; [|exact Hx]. intros y. apply HR.
Qed.

Section ReverseSort.
Context {A : Type} (key : A -> Z * Z).

Lemma sorted_reverse_perm (l : list A) : Permutation (sorted_reverse key l) l.
Proof.
  unfold sorted_reverse. rewrite <- Permutation_rev, sorted_perm.
  symmetry. apply Permutation_rev.
Qed.

Lemma StronglySorted_snoc (R : A -> A -> Prop) (l : list A) (x : A) :
  StronglySorted R l -> Forall (fun y => R y x) l -> StronglySorted R (l ++ [x]).
Proof.
  induction l as [|y l IH]; intros Hs Hx; simpl.
  - constructor; constructor.
  - inversion Hs as [|? ? Hl Hy]; subst. inversion Hx as [|? ? Hyx Hlx]; subst.
    constructor; [now apply IH|].
    apply Forall_app. split; [exact Hy | now constructor].
Qed.

Lemma StronglySorted_rev (R : A -> A -> Prop) (l : list A) :
  StronglySorted R l -> StronglySorted (fun x y => R y x) (rev l).
Proof.
  induction 1 as [|x l Hl IH Hx]; simpl; [constructor|].
  apply StronglySorted_snoc; [exact IH|].
  apply Forall_rev. exact Hx.
Qed.

Lemma StronglySorted_app_between (R : A -> A -> Prop) (l1 l2 : list A) :
  StronglySorted R (l1 ++ l2) ->
  forall x y, In x l1 -> In y l2 -> R x y.
Proof.
  induction l1 as [|a l1 IH]; simpl; intros Hs x y Hx Hy; [easy|].
  inversion Hs as [|? ? Hl Ha]; subst. destruct Hx as [<-|Hx].
  - rewrite Forall_forall in Ha. apply Ha, in_or_app. now right.
  - now apply IH.
Qed.

Lemma sorted_reverse_descending (l : list A) :
  StronglySorted (fun x y => key_le (key y) (key x) = true) (sorted_reverse key l).
Proof.
  unfold sorted_reverse.
  apply (StronglySorted_rev (key_ordered key)), sorted_ordered.
Qed.

Lemma filter_rev_eq (p : A -> bool) (l : list A) :
  filter p (rev l) = rev (filter p l).
Proof.
  induction l as [|x l IH]; simpl; [reflexivity|].
  rewrite filter_app, IH. simpl. destruct (p x); simpl; [reflexivity|].
  now rewrite app_nil_r.
Qed.

Lemma sorted_reverse_filter (p : A -> bool) (l : list A) :
  (forall a b, p a = true -> p b = true -> key_le (key a) (key b) = true) ->
  filter p (sorted_reverse key l) = filter p l.
Proof.
  intros Hp. unfold sorted_reverse.
  rewrite filter_rev_eq, (sorted_filter key p _ Hp), filter_rev_eq.
  apply rev_involutive.
Qed.
End ReverseSort.

(** X4. The bar chart shows at most five participants, the five of the
    sorted list: counts from the largest down, every participant left out
    having no more messages than any shown one, participants of equal
    count in dictionary order. The first bar, the one painted gold, is the
    largest count of all; the other bars are green. *)
Theorem leaderboard_shows_top_five (ps : list (string * record)) :
  exists shown hidden,
    lb_names (plot_leaderboard ps) = map fst shown
    /\ lb_msgs (plot_leaderboard ps) = map (fun x => r_messages (snd x)) shown
    /\ List.length shown = Nat.min 5 (List.length ps)
    /\ Permutation (shown ++ hidden) ps
    /\ StronglySorted (fun a b => b <= a) (lb_msgs (plot_leaderboard ps))
    /\ (forall x y, In x shown -> In y hidden ->
          r_messages (snd y) <= r_messages (snd x))
    /\ (forall count,
          filter (fun x => r_messages (snd x) =? count) ps
          = (filter (fun x => r_messages (snd x) =? count) shown
             ++ filter (fun x => r_messages (snd x) =? count) hidden)%list)
    /\ (forall top x, hd_error (lb_msgs (plot_leaderboard ps)) = Some top ->
          In x ps -> r_messages (snd x) <= top)
    /\ lb_colors (plot_leaderboard ps)
       = match shown with
         | [] => []
         | _ :: others => "#FFD700" :: map (fun _ => "#4CAF50") others
         end.
Proof.
  set (L := sorted_reverse leaderboard_key ps).
  exists (firstn 5 L), (skipn 5 L).
  assert (Hperm : Permutation L ps) by apply sorted_reverse_perm.
  assert (Hdesc : StronglySorted
            (fun x y => r_messages (snd y) <= r_messages (snd x)) L).
  { eapply StronglySorted_impl; [|apply (sorted_reverse_descending leaderboard_key)].
    intros x y Hy. apply key_le_iff in Hy. unfold leaderboard_key in Hy.
    simpl in Hy. lia. }
  assert (Hsplit : L = (firstn 5 L ++ skipn 5 L)%list)
    by (symmetry; apply firstn_skipn).
  assert (Hbetween : forall x y, In x (firstn 5 L) -> In y (skipn 5 L) ->
            r_messages (snd y) <= r_messages (snd x)).
  { rewrite Hsplit in Hdesc. exact (StronglySorted_app_between _ _ _ Hdesc). }
  assert (Hshown : StronglySorted
            (fun x y => r_messages (snd y) <= r_messages (snd x)) (firstn 5 L)).
  { rewrite Hsplit in Hdesc. clear - Hdesc.
    induction (firstn 5 L) as [|a l IH]; [constructor|].
    simpl in Hdesc. inversion Hdesc as [|? ? Hl Ha]; subst.
    constructor; [now apply IH|]. apply Forall_app in Ha. tauto. }
  split; [reflexivity|]. split; [reflexivity|]. split.
  { rewrite length_firstn. f_equal. now apply Permutation_length. }
  split; [now rewrite <- Hsplit|]. split.
  { unfold plot_leaderboard. cbn [lb_msgs]. fold L. clear - Hshown.
    induction Hshown as [|a l Hl IH Ha]; simpl; constructor; [exact IH|].
    apply Forall_map. exact Ha. }
  split; [exact Hbetween|]. split.
  { intros count. rewrite <- filter_app, <- Hsplit. symmetry.
    apply sorted_reverse_filter. intros a b Ha Hb.
    apply Z.eqb_eq in Ha, Hb. apply key_le_iff. unfold leaderboard_key. simpl. lia. }
  split.
  { intros top x Htop Hx. unfold plot_leaderboard in Htop. cbn [lb_msgs] in Htop.
    fold L in Htop.
    apply (Permutation_in _ (Permutation_sym Hperm)) in Hx.
    rewrite Hsplit in Hx. apply in_app_or in Hx.
    destruct (firstn 5 L) as [|a l] eqn:Ef; [discriminate|].
    simpl in Htop. injection Htop as <-.
    destruct Hx as [[<-|Hx]|Hx].
    - lia.
    - inversion Hshown as [|? ? _ Ha]; subst.
      rewrite Forall_forall in Ha. now apply Ha.
    - apply Hbetween; [now left | exact Hx]. }
  unfold plot_leaderboard. cbn [lb_colors]. fold L.
  destruct (firstn 5 L) as [|a l]; [reflexivity|]. simpl. now rewrite map_map.
Qed.

(** ** A transcript without messages *)

(** X5. When the total is 0 (an empty file, or only membership events and
    lines that are skipped) every participant is Inactive at any instant
    and for any threshold: the active count is 0 and every row of the CSV
    file says Inactive. *)
Theorem no_message_everyone_inactive (lines : list string) (now now0 : datetime)
    (inactivity_days : Z) :
  snd (analyze_chat lines) = 0 ->
  member_status_counts now (fst (analyze_chat lines)) inactivity_days
  = (0, Z.of_nat (List.length (fst (analyze_chat lines))))
  /\ Forall (fun r => row_status r = "Inactive")
            (csv_rows (export_csv now now0 (fst (analyze_chat lines)))).
Proof.
  intros Htotal.
  assert (Hin : Forall (fun r => forall t d, is_active t d r = false)
                       (values (fst (analyze_chat lines)))).
  { unfold analyze_chat in *. eapply Forall_impl; [|apply finalize_contributions].
    intros r Hr t d. simpl in Htotal. rewrite Htotal in Hr.
    unfold is_active. rewrite Hr. simpl. now rewrite andb_false_r. }
  split.
  - rewrite member_status_counts_spec. unfold count_records.
    assert (Hnone : filter (is_active now inactivity_days)
                           (values (fst (analyze_chat lines))) = []).
    { induction Hin as [|r l Hr _ IH]; simpl; [reflexivity|]. now rewrite Hr. }
    pose proof (filter_complement_length (is_active now inactivity_days)
                  (values (fst (analyze_chat lines)))) as Hlen.
    assert (Hv : List.length (values (fst (analyze_chat lines)))
                 = List.length (fst (analyze_chat lines)))
      by (unfold values; apply length_map).
    rewrite Hnone in *. cbn [List.length] in *. f_equal. lia.
  - rewrite export_csv_rows. unfold values in Hin.
    induction (fst (analyze_chat lines)) as [|[k r] l IH]; simpl; constructor.
    + inversion Hin as [|? ? Hr _]; subst. simpl in Hr.
      unfold make_row, row_status. simpl. now rewrite Hr.
    + apply IH. now inversion Hin.
Qed.

Lemma no_message_everyone_inactive_witness :
  member_status_counts noon (fst (analyze_chat ["Bob added Carol"; "hello"])) 90
  = (0, Z.of_nat (List.length (fst (analyze_chat ["Bob added Carol"; "hello"]))))
  /\ Forall (fun r => row_status r = "Inactive")
            (csv_rows (export_csv noon noon
                         (fst (analyze_chat ["Bob added Carol"; "hello"])))).
Proof.
  apply (no_message_everyone_inactive ["Bob added Carol"; "hello"] noon noon 90).
  vm_compute. reflexivity.
Defined.

(** ** Which lines are membership events *)

Lemma added_match_iff (line : string) :
  all dot line = true ->
  (re_match ADDED_PATTERN line <> None <-> contains added_token line).
Proof.
  intros Hdot. rewrite added_pattern_unfold. split.
  - destruct (rep true dot 0 None line added_after_group1) as [m|] eqn:Hm;
      [intros _ | intros H; now elim H].
    apply rep_star_greedy_inv in Hm as (u & v & E & _ & Hk & _).
    unfold added_after_group1 in Hk.
    destruct (drop_prefix added_token v) as [rest|] eqn:Hv; [|discriminate].
    apply drop_prefix_spec in Hv. subst v. now exists u, rest.
  - intros (a & b & E). rewrite E, !all_append in Hdot.
    apply andb_prop in Hdot as [Ha Hb]. apply andb_prop in Hb as [_ Hb].
    assert (Hk : added_after_group1 a (added_token ++ b)
                 = Some (MkMatch (a ++ added_token ++ b ++ "") ""
                                 [("2", b); ("1", a)])).
    { unfold added_after_group1. rewrite drop_prefix_append.
      now apply added_group2_all. }
    destruct (rep_star_some dot true line added_after_group1 a (added_token ++ b) _
                E Ha Hk) as [y Hy].
    rewrite Hy. discriminate.
Qed.

(** X6. A stripped line (without a line feed) is taken as an added-event
    exactly when it contains " added " somewhere; a line without it never
    creates a member through line 41. *)
Theorem added_event_iff_contains_token (line : string) :
  all dot line = true ->
  ((exists name, classify line = MemberAddedEvent name) <-> contains " added " line).
Proof.
  intros Hdot. rewrite <- (added_match_iff line Hdot). unfold classify.
  destruct (re_match ADDED_PATTERN line) as [m|].
  - split; [discriminate | eauto].
  - split; [|intros H; now elim H]. intros [name H].
    destruct (re_match JOINED_PATTERN line); [discriminate|].
    destruct (re_match LINE_PATTERN line); [|discriminate].
    destruct (parse_date _); discriminate.
Qed.

Lemma added_event_iff_contains_token_witness :
  (exists name, classify "12/5/23, 14:05 - Alice: I added sugar"
                = MemberAddedEvent name)
  <-> contains " added " "12/5/23, 14:05 - Alice: I added sugar".
Proof.
  apply (added_event_iff_contains_token "12/5/23, 14:05 - Alice: I added sugar").
  reflexivity.
Defined.

Lemma joined_pattern_unfold (line : string) :
  re_match JOINED_PATTERN line = rep true dot 0 None line joined_after_group1.
Proof. reflexivity. Qed.

Lemma append_cancel_r (a b c : string) : a ++ c = b ++ c -> a = b.
Proof.
  revert b; induction a as [|x a IH]; intros [|y b] H; simpl in H.
  - reflexivity.
  - apply (f_equal String.length) in H. simpl in H. rewrite length_append in H. lia.
  - apply (f_equal String.length) in H. simpl in H. rewrite length_append in H. lia.
  - injection H as -> H. f_equal. now apply IH.
Qed.

Lemma joined_match (who : string) :
  all dot (who ++ joined_suffix) = true ->
  re_match JOINED_PATTERN (who ++ joined_suffix)
  = Some (MkMatch (who ++ joined_suffix ++ "") "" [("1", who)]).
Proof.
  intros Hdot. rewrite joined_pattern_unfold.
  assert (Hwho : all dot who = true)
    by (rewrite all_append in Hdot; now apply andb_prop in Hdot).
  assert (Hk : joined_after_group1 who joined_suffix
               = Some (MkMatch (who ++ joined_suffix ++ "") "" [("1", who)])).
  { reflexivity. }
  destruct (rep_star_some dot true _ joined_after_group1 who joined_suffix _
              eq_refl Hwho Hk) as [y Hy].
  rewrite Hy. f_equal.
  apply rep_star_greedy_inv in Hy as (u & v & E & Hu & Hkv & _).
  unfold joined_after_group1 in Hkv.
  destruct (drop_prefix joined_suffix v) as [rest|] eqn:Hv; [|discriminate].
  apply drop_prefix_spec in Hv. subst v.
  destruct (at_end rest) eqn:Hend; [|discriminate].
  assert (rest = "").
  { apply at_end_dot; [|exact Hend]. rewrite E, !all_append in Hdot.
    apply andb_prop in Hdot as [_ H]. now apply andb_prop in H. }
  subst rest. rewrite append_nil_r in E. apply append_cancel_r in E. subst u.
  now injection Hkv as <-.
Qed.

(** X7. A stripped line without " added " in it is a joined-event exactly
    when it ends with " joined using this group's invite link", and the
    member is then everything before that ending, stripped. *)
Theorem joined_event_iff_suffix (line name : string) :
  all dot line = true -> ~ contains " added " line ->
  (classify line = MemberJoinedEvent name <->
   exists who, line = who ++ joined_suffix /\ name = strip who).
Proof.
  intros Hdot Hnot.
  assert (Hadd : re_match ADDED_PATTERN line = None).
  { destruct (re_match ADDED_PATTERN line) eqn:E; [|reflexivity].
    elim Hnot. apply (added_match_iff line Hdot). congruence. }
  unfold classify. rewrite Hadd. split.
  - destruct (re_match JOINED_PATTERN line) as [m|] eqn:Hm.
    + intros [= <-]. rewrite joined_pattern_unfold in Hm.
      apply rep_star_greedy_inv in Hm as (u & v & E & Hu & Hk & _).
      unfold joined_after_group1 in Hk.
      destruct (drop_prefix joined_suffix v) as [rest|] eqn:Hv; [|discriminate].
      apply drop_prefix_spec in Hv. subst v.
      destruct (at_end rest) eqn:Hend; [|discriminate].
      assert (rest = "").
      { apply at_end_dot; [|exact Hend]. rewrite E, !all_append in Hdot.
        apply andb_prop in Hdot as [_ H]. now apply andb_prop in H. }
      subst rest. rewrite append_nil_r in E. injection Hk as <-.
      exists u. split; [exact E | reflexivity].
    + destruct (re_match LINE_PATTERN line); [|discriminate].
      destruct (parse_date _); discriminate.
  - intros (who & -> & ->). now rewrite (joined_match who Hdot).
Qed.

Lemma joined_event_iff_suffix_witness :
  classify "Dave joined using this group's invite link" = MemberJoinedEvent "Dave"
  <-> exists who, "Dave joined using this group's invite link" = who ++ joined_suffix
                  /\ "Dave" = strip who.
Proof.
  apply (joined_event_iff_suffix "Dave joined using this group's invite link" "Dave").
  - reflexivity.
  - intros H.
    apply (added_match_iff "Dave joined using this group's invite link" eq_refl) in H.
    apply H. vm_compute. reflexivity.
Defined.

(** ** The order of the lines does not matter *)

Lemma lex_compare_eq (a b : list Z) : lex_compare a b = Eq -> a = b.
Proof.
  revert b; induction a as [|x a IH]; intros [|y b]; simpl; try discriminate;
    [reflexivity|].
  destruct (Z.compare_spec x y) as [->|_|_]; try discriminate.
  intros H. f_equal. now apply IH.
Qed.

Lemma dt_gt_total (a b : datetime) :
  dt_gt a b = false -> dt_gt b a = false -> a = b.
Proof.
  unfold dt_gt. rewrite (lex_compare_antisym (fields a) (fields b)).
  destruct (lex_compare (fields a) (fields b)) eqn:E; simpl; try discriminate.
  intros _ _. apply lex_compare_eq in E.
  destruct a, b. unfold fields in E. simpl in E. now injection E as -> -> -> -> -> -> ->.
Qed.

Lemma latest_perm (ts ts' : list datetime) :
  Permutation ts ts' -> latest ts = latest ts'.
Proof.
  intros Hp.
  destruct (latest_spec ts) as [Hn Hs], (latest_spec ts') as [Hn' Hs'].
  destruct (latest ts) as [l|] eqn:E, (latest ts') as [l'|] eqn:E'.
  - destruct (Hs l eq_refl) as [Hin Hmax], (Hs' l' eq_refl) as [Hin' Hmax'].
    f_equal. apply dt_gt_total.
    + apply Hmax'. now apply (Permutation_in _ Hp).
    + apply Hmax. now apply (Permutation_in _ (Permutation_sym Hp)).
  - rewrite (proj1 Hn' eq_refl) in Hp. apply Permutation_sym, Permutation_nil in Hp.
    apply Hn in Hp. discriminate.
  - rewrite (proj1 Hn eq_refl) in Hp. apply Permutation_nil in Hp.
    apply Hn' in Hp. discriminate.
  - reflexivity.
Qed.

Lemma timestamps_of_perm (name : string) (lines lines' : list string) :
  Permutation lines lines' ->
  Permutation (timestamps_of name lines) (timestamps_of name lines').
Proof.
  induction 1 as [|x l l' _ IH|x y l|l l' l'' _ IH1 _ IH2]; simpl.
  - constructor.
  - destruct (classify (strip x)); try exact IH.
    destruct (String.eqb sender name); [now constructor | exact IH].
  - destruct (classify (strip x)) as [| |dx sx bx|],
             (classify (strip y)) as [| |dy sy by_|]; try reflexivity.
    destruct (String.eqb sx name), (String.eqb sy name);
      try reflexivity. apply perm_swap.
  - now transitivity (timestamps_of name l').
Qed.

(** A name has a record exactly when some line names it. *)
Lemma ingest_mentions (lines : list string) (name : string) :
  lookup name (participants (ingest lines)) = None
  <-> existsb (mentions name) lines = false.
Proof.
  induction lines as [|raw lines IH] using rev_ind; [simpl; tauto|].
  rewrite ingest_snoc, existsb_app, process_line_classify. simpl existsb.
  rewrite orb_false_r, orb_false_iff, <- IH. unfold mentions.
  destruct (classify (strip raw)) as [n|n|dt sender body|]; unfold apply_event.
  - unfold record_member. cbn [participants].
    destruct (String.eqb_spec n name) as [->|Hne].
    + rewrite ensure_lookup_same. split; [discriminate | intros [_ H]; discriminate].
    + rewrite ensure_lookup_other by congruence. tauto.
  - unfold record_member. cbn [participants].
    destruct (String.eqb_spec n name) as [->|Hne].
    + rewrite ensure_lookup_same. split; [discriminate | intros [_ H]; discriminate].
    + rewrite ensure_lookup_other by congruence. tauto.
  - destruct (String.eqb_spec sender name) as [->|Hne].
    + rewrite record_message_participants.
      split; [discriminate | intros [_ H]; discriminate].
    + rewrite record_message_other by congruence. tauto.
  - tauto.
Qed.

Lemma ingest_total (lines : list string) :
  total_messages (ingest lines) = Z.of_nat (List.length (filter is_message lines)).
Proof.
  induction lines as [|raw lines IH] using rev_ind; [reflexivity|].
  rewrite ingest_snoc, filter_app, length_app, process_line_classify.
  change (filter is_message [raw])
    with (if is_message raw then [raw] else []).
  unfold is_message at 2.
  destruct (classify (strip raw)); unfold apply_event, record_member, record_message;
    cbn [total_messages List.length]; rewrite IH; lia.
Qed.

Lemma existsb_perm {A : Type} (p : A -> bool) (l l' : list A) :
  Permutation l l' -> existsb p l = existsb p l'.
Proof.
  induction 1 as [|x l l' _ IH|x y l|l l' l'' _ IH1 _ IH2]; simpl.
  - reflexivity.
  - now rewrite IH.
  - now destruct (p x), (p y).
  - now rewrite IH1.
Qed.

(** X8. Shuffling the lines of a transcript changes neither the total nor
    any participant's record: the same names have records, with the same
    message count, the same last timestamp and the same contribution. Only
    the order of the dictionary depends on the order of the lines. *)
Theorem line_order_does_not_matter (lines lines' : list string) (name : string) :
  Permutation lines lines' ->
  snd (analyze_chat lines) = snd (analyze_chat lines')
  /\ lookup name (fst (analyze_chat lines)) = lookup name (fst (analyze_chat lines')).
Proof.
  intros Hp.
  assert (Htotal : total_messages (ingest lines) = total_messages (ingest lines')).
  { rewrite !ingest_total. f_equal. now apply filter_length_perm. }
  split; [exact Htotal|].
  unfold analyze_chat. rewrite !lookup_finalize, Htotal. f_equal.
  pose proof (ingest_tracks lines name) as H.
  pose proof (ingest_tracks lines' name) as H'.
  pose proof (ingest_mentions lines name) as Hm.
  pose proof (ingest_mentions lines' name) as Hm'.
  rewrite (existsb_perm _ _ _ Hp) in Hm.
  rewrite <- (latest_perm _ _ (timestamps_of_perm name _ _ Hp)) in H'.
  rewrite <- (Permutation_length (timestamps_of_perm name _ _ Hp)) in H'.
  unfold stats_of in H, H'.
  destruct (lookup name (participants (ingest lines))) as [s|],
           (lookup name (participants (ingest lines'))) as [s'|].
  - congruence.
  - pose proof (proj2 Hm (proj1 Hm' eq_refl)). discriminate.
  - pose proof (proj2 Hm' (proj1 Hm eq_refl)). discriminate.
  - reflexivity.
Qed.

Lemma line_order_does_not_matter_witness :
  snd (analyze_chat ["Bob added Carol"; alice_line])
  = snd (analyze_chat [alice_line; "Bob added Carol"])
  /\ lookup "Alice" (fst (analyze_chat ["Bob added Carol"; alice_line]))
     = lookup "Alice" (fst (analyze_chat [alice_line; "Bob added Carol"])).
Proof.
  apply (line_order_does_not_matter ["Bob added Carol"; alice_line]
                                    [alice_line; "Bob added Carol"] "Alice").
  apply perm_swap.
Defined.

(** ** The timestamps that are kept *)

Lemma strptime_to_the_minute (s fmt : string) (t : datetime) :
  strptime s fmt = Some t -> to_the_minute t.
Proof.
  unfold strptime. destruct (format_regex false fmt) as [r|]; [|discriminate].
  destruct (re_match r s) as [found|]; [|discriminate].
  destruct (negb _); [discriminate|].
  match goal with |- (if valid_datetime ?x then _ else _) = _ -> _ =>
    destruct (valid_datetime x) eqn:Hv end; [|discriminate].
  intros [= <-]. now split.
Qed.

Lemma parse_date_to_the_minute (s : string) (t : datetime) :
  parse_date s = Some t -> to_the_minute t.
Proof.
  unfold parse_date. intros H. apply first_parse_some in H.
  destruct H as (i & fmt & _ & H & _). now apply strptime_to_the_minute in H.
Qed.

Lemma classify_message (line sender body : string) (dt : datetime) :
  classify line = MessageEvent dt sender body ->
  exists m, re_match ADDED_PATTERN line = None
            /\ re_match JOINED_PATTERN line = None
            /\ re_match LINE_PATTERN line = Some m
            /\ parse_date (grp "1" m) = Some dt
            /\ sender = grp "2" m /\ body = grp "3" m.
Proof.
  unfold classify.
  destruct (re_match ADDED_PATTERN line); [discriminate|].
  destruct (re_match JOINED_PATTERN line); [discriminate|].
  destruct (re_match LINE_PATTERN line) as [m|]; [|discriminate].
  destruct (parse_date (grp "1" m)) as [t|] eqn:Hp; [|discriminate].
  intros [= <- <- <-]. exists m. repeat split; auto.
Qed.

Lemma timestamps_to_the_minute (name : string) (lines : list string) :
  Forall to_the_minute (timestamps_of name lines).
Proof.
  induction lines as [|raw lines IH]; simpl; [constructor|].
  destruct (classify (strip raw)) as [n|n|dt sender body|] eqn:E; try exact IH.
  destruct (String.eqb sender name); [|exact IH].
  constructor; [|exact IH].
  apply classify_message in E as (m & _ & _ & _ & Hp & _).
  now apply parse_date_to_the_minute in Hp.
Qed.

Lemma snapshot_last (lines : list string) (name : string) (r : record) (l : datetime) :
  lookup name (fst (analyze_chat lines)) = Some r -> r_last r = Some l ->
  In l (timestamps_of name lines)
  /\ forall t, In t (timestamps_of name lines) -> dt_gt t l = false.
Proof.
  unfold analyze_chat. rewrite lookup_finalize.
  pose proof (ingest_tracks lines name) as Htr. unfold stats_of in Htr.
  destruct (lookup name (participants (ingest lines))) as [s|]; [|discriminate].
  intros [= <-]. simpl. rewrite Htr. simpl. apply latest_spec.
Qed.

(** X9. Every last-message timestamp in what [analyze_chat] returns is a
    real calendar date with a time of day, to the minute: no 31 February, no
    hour 24, seconds and microseconds zero. *)
Theorem last_timestamps_are_calendar_dates (lines : list string) :
  Forall (fun r => forall l, r_last r = Some l -> to_the_minute l)
         (values (fst (analyze_chat lines))).
Proof.
  assert (Hnd : NoDup (keys (fst (analyze_chat lines)))).
  { unfold analyze_chat. rewrite keys_finalize. apply ingest_NoDup. }
  unfold values. apply Forall_map. apply Forall_forall. intros [name r] Hin l Hl.
  apply (In_lookup name r _ Hnd) in Hin.
  destruct (snapshot_last lines name r l Hin Hl) as [Hl' _].
  pose proof (timestamps_to_the_minute name lines) as Hall.
  rewrite Forall_forall in Hall. now apply Hall.
Qed.

(** ** Comparison and subtraction of timestamps agree *)

Lemma valid_datetime_bounds (t : datetime) :
  valid_datetime t = true ->
  1 <= year t <= 9999 /\ 1 <= month t <= 12
  /\ 1 <= day t <= _days_in_month (year t) (month t)
  /\ 0 <= hour t <= 23 /\ 0 <= minute t <= 59 /\ 0 <= second t <= 59
  /\ 0 <= microsecond t <= 999999.
Proof.
  unfold valid_datetime. rewrite !andb_true_iff, !Z.leb_le. tauto.
Qed.

Lemma days_before_year_succ (y : Z) :
  _days_before_year (y + 1) = _days_before_year y + year_length y.
Proof.
  unfold _days_before_year, year_length, _is_leap.
  replace (y + 1 - 1) with y by lia.
  destruct (Z.eqb_spec (y mod 4) 0), (Z.eqb_spec (y mod 100) 0),
           (Z.eqb_spec (y mod 400) 0); simpl;
    Z.to_euclidean_division_equations; lia.
Qed.

Lemma days_before_year_mono (y y' : Z) :
  y <= y' -> _days_before_year y <= _days_before_year y'.
Proof.
  unfold _days_before_year. intros H. Z.to_euclidean_division_equations. lia.
Qed.

Ltac month_cases m :=
  let H := fresh "Hm" in
  assert (H : m = 1 \/ m = 2 \/ m = 3 \/ m = 4 \/ m = 5 \/ m = 6 \/ m = 7
              \/ m = 8 \/ m = 9 \/ m = 10 \/ m = 11 \/ m = 12) by lia;
  repeat (destruct H as [H | H]); subst m.

Lemma day_of_year_range (y m d : Z) :
  1 <= m <= 12 -> 1 <= d <= _days_in_month y m ->
  1 <= _days_before_month y m + d <= year_length y.
Proof.
  intros Hm. unfold _days_before_month, _days_in_month, year_length.
  month_cases m; destruct (_is_leap y); cbv -[Z.add Z.le Z.lt]; lia.
Qed.

Lemma day_of_year_lt (y m d m' d' : Z) :
  1 <= m -> m < m' -> m' <= 12 -> d <= _days_in_month y m -> 1 <= d' ->
  _days_before_month y m + d < _days_before_month y m' + d'.
Proof.
  intros H1 H2 H3. unfold _days_before_month, _days_in_month.
  month_cases m; month_cases m'; try lia; destruct (_is_leap y);
    cbv -[Z.add Z.le Z.lt]; lia.
Qed.

Lemma toordinal_lt (a b : datetime) :
  valid_datetime a = true -> valid_datetime b = true ->
  year a < year b
  \/ (year a = year b
      /\ (month a < month b \/ (month a = month b /\ day a < day b))) ->
  toordinal a < toordinal b.
Proof.
  intros Ha Hb. apply valid_datetime_bounds in Ha, Hb.
  unfold toordinal, _ymd2ord.
  pose proof (day_of_year_range (year a) (month a) (day a)) as Ra.
  pose proof (day_of_year_range (year b) (month b) (day b)) as Rb.
  intros [Hy | [Hy [Hm | [Hm Hd]]]].
  - pose proof (days_before_year_succ (year a)).
    pose proof (days_before_year_mono (year a + 1) (year b)). lia.
  - rewrite Hy in *.
    pose proof (day_of_year_lt (year b) (month a) (day a) (month b) (day b)). lia.
  - rewrite Hy, Hm. lia.
Qed.

(** A later timestamp, as line 62 compares them, is a later instant, as
    line 77 subtracts them. *)
Lemma dt_gt_to_micros (a b : datetime) :
  valid_datetime a = true -> valid_datetime b = true ->
  dt_gt a b = true -> to_micros b < to_micros a.
Proof.
  intros Ha Hb. pose proof (toordinal_lt b a Hb Ha) as Hord.
  pose proof (valid_datetime_bounds a Ha) as Ba.
  pose proof (valid_datetime_bounds b Hb) as Bb.
  unfold dt_gt, fields, lex_compare, to_micros.
  destruct (Z.compare_spec (year a) (year b)) as [Ey|Ey|Ey]; try discriminate;
    [|intros _; lia].
  destruct (Z.compare_spec (month a) (month b)) as [Em|Em|Em]; try discriminate;
    [|intros _; lia].
  destruct (Z.compare_spec (day a) (day b)) as [Ed|Ed|Ed]; try discriminate;
    [|intros _; lia].
  assert (Hsame : toordinal a = toordinal b)
    by (unfold toordinal; now rewrite Ey, Em, Ed).
  rewrite Hsame.
  destruct (Z.compare_spec (hour a) (hour b)); try discriminate; [|intros _; lia].
  destruct (Z.compare_spec (minute a) (minute b)); try discriminate; [|intros _; lia].
  destruct (Z.compare_spec (second a) (second b)); try discriminate; [|intros _; lia].
  destruct (Z.compare_spec (microsecond a) (microsecond b)); try discriminate.
  intros _. lia.
Qed.

(** X10. The last timestamp of a record is the most recent instant among
    that participant's messages, not only the greatest in field order: for
    any [now], the age in days that the status rule reads off it is the
    smallest age of any of the participant's messages. *)
Theorem age_is_that_of_latest_message (lines : list string) (name : string)
    (r : record) (l : datetime) :
  lookup name (fst (analyze_chat lines)) = Some r -> r_last r = Some l ->
  forall t, In t (timestamps_of name lines) ->
    to_micros t <= to_micros l
    /\ forall now, days_between now l <= days_between now t.
Proof.
  intros Hr Hl t Ht.
  destruct (snapshot_last lines name r l Hr Hl) as [Hin Hmax].
  pose proof (timestamps_to_the_minute name lines) as Hall.
  rewrite Forall_forall in Hall.
  assert (Hle : to_micros t <= to_micros l).
  { destruct (dt_gt l t) eqn:Hlt.
    - apply dt_gt_to_micros in Hlt; [lia | now apply Hall | now apply Hall].
    - rewrite (dt_gt_total l t Hlt (Hmax t Ht)). lia. }
  split; [exact Hle|]. intros now. unfold days_between.
  apply Z.div_le_mono; lia.
Qed.

Lemma age_is_that_of_latest_message_witness :
  to_micros (MkDatetime 2024 6 1 9 1 0 0)
  <= to_micros (MkDatetime 2024 6 2 10 15 0 0)
  /\ forall now, days_between now (MkDatetime 2024 6 2 10 15 0 0)
                 <= days_between now (MkDatetime 2024 6 1 9 1 0 0).
Proof.
  apply (age_is_that_of_latest_message eve_transcript "Eve"
           (MkRecord 2 (Some (MkDatetime 2024 6 2 10 15 0 0)) (PyFloat 20))
           (MkDatetime 2024 6 2 10 15 0 0)).
  - vm_compute. reflexivity.
  - reflexivity.
  - vm_compute. tauto.
Defined.

(** ** The width of the inactivity window *)

Lemma days_between_le (now l : datetime) (d : Z) :
  days_between now l <= d <-> to_micros now - to_micros l < (d + 1) * 86400000000.
Proof.
  unfold days_between. split; intros H.
  - Z.to_euclidean_division_equations. lia.
  - Z.to_euclidean_division_equations. lia.
Qed.

(** X11. [.days] rounds the age down, so a threshold of [d] days admits any
    last message less than [d + 1] full days old: with the default, up to
    but excluding 91 days. A last message dated after [now] has a negative
    age and passes every threshold that is not negative, and raising the
    threshold never makes an active participant inactive. *)
Theorem inactivity_window (now : datetime) (d : Z) (r : record) :
  (is_active now d r = true <->
     1 <= r_messages r /\ ge1 (contribution r) = true
     /\ exists l, r_last r = Some l
                  /\ to_micros now - to_micros l < (d + 1) * 86400000000)
  /\ (forall l, r_last r = Some l -> to_micros now <= to_micros l -> 0 <= d ->
        is_active now d r = (1 <=? r_messages r) && ge1 (contribution r))
  /\ (forall d', d <= d' -> is_active now d r = true -> is_active now d' r = true).
Proof.
  split; [|split].
  - rewrite is_active_iff. split.
    + intros (Hm & Hc & l & Hl & Hd). repeat split; auto.
      exists l. split; [exact Hl|]. now apply days_between_le.
    + intros (Hm & Hc & l & Hl & Hd). repeat split; auto.
      exists l. split; [exact Hl|]. now apply days_between_le.
  - intros l Hl Hfut Hd. unfold is_active. rewrite Hl.
    replace (days_between now l <=? d) with true; [now rewrite andb_true_r|].
    symmetry. apply Z.leb_le, days_between_le. lia.
  - intros d' Hdd. rewrite !is_active_iff.
    intros (Hm & Hc & l & Hl & Hd). repeat split; auto.
    exists l. split; [exact Hl | lia].
Qed.

(** ** Member names carry no surrounding white space *)

Lemma lstrip_head (s : string) (c : ascii) (t : string) :
  lstrip s = String c t -> is_space c = false.
Proof.
  induction s as [|x s IH]; simpl; [discriminate|].
  destruct (is_space x) eqn:Hx; [exact IH|]. now intros [= <- _].
Qed.

Lemma rstrip_head (c : ascii) (t : string) :
  is_space c = false -> exists t', rstrip (String c t) = String c t'.
Proof.
  intros Hc. simpl. destruct (rstrip t); [rewrite Hc|]; eauto.
Qed.

Lemma rstrip_last (s init : string) (c : ascii) :
  rstrip s = init ++ String c "" -> is_space c = false.
Proof.
  revert init; induction s as [|x s IH]; intros init; simpl.
  - destruct init; discriminate.
  - destruct (rstrip s) as [|y r] eqn:Hr.
    + destruct (is_space x) eqn:Hx; [destruct init; discriminate|].
      destruct init as [|i init]; simpl; [now intros [= <-]|].
      intros [= _ H]. destruct init; discriminate.
    + destruct init as [|i init]; simpl; [discriminate|].
      intros [= _ H]. now apply (IH init).
Qed.

Lemma rstrip_idempotent (s : string) : rstrip (rstrip s) = rstrip s.
Proof.
  induction s as [|x s IH]; simpl; [reflexivity|].
  destruct (rstrip s) as [|y r] eqn:Hr.
  - destruct (is_space x) eqn:Hx; simpl; [reflexivity | now rewrite Hx].
  - simpl. simpl in IH. now rewrite IH.
Qed.

Lemma strip_idempotent (s : string) : strip (strip s) = strip s.
Proof.
  unfold strip. destruct (lstrip s) as [|c t] eqn:E; [reflexivity|].
  pose proof (lstrip_head s c t E) as Hc.
  destruct (rstrip_head c t Hc) as [t' Ht']. rewrite Ht'.
  simpl lstrip. rewrite Hc, <- Ht'. apply rstrip_idempotent.
Qed.

Lemma strip_head (s : string) (c : ascii) (t : string) :
  strip s = String c t -> is_space c = false.
Proof.
  unfold strip. destruct (lstrip s) as [|x u] eqn:E; [discriminate|].
  pose proof (lstrip_head s x u E) as Hx.
  destruct (rstrip_head x u Hx) as [u' Hu']. rewrite Hu'. now intros [= <- _].
Qed.

(** X12. The name that an added or joined event records is stripped: it
    neither begins nor ends with white space, and stripping it again changes
    nothing, so spaces around a name in such a line never make a second
    participant. *)
Theorem member_names_are_stripped (line name : string) :
  classify line = MemberAddedEvent name \/ classify line = MemberJoinedEvent name ->
  strip name = name
  /\ (forall c t, name = String c t -> is_space c = false)
  /\ (forall init c, name = init ++ String c "" -> is_space c = false).
Proof.
  intros H.
  assert (Hs : exists s, name = strip s).
  { unfold classify in H.
    destruct (re_match ADDED_PATTERN line) as [m|].
    - destruct H as [[= <-] | H]; [eauto | discriminate].
    - destruct (re_match JOINED_PATTERN line) as [m|].
      + destruct H as [H | [= <-]]; [discriminate | eauto].
      + destruct (re_match LINE_PATTERN line) as [m|].
        * destruct (parse_date _); destruct H; discriminate.
        * destruct H; discriminate. }
  destruct Hs as [s ->]. split; [apply strip_idempotent|]. split.
  - intros c t. apply strip_head.
  - intros init c. unfold strip. apply rstrip_last.
Qed.

Lemma member_names_are_stripped_witness :
  strip "Carol" = "Carol"
  /\ (forall c t, "Carol" = String c t -> is_space c = false)
  /\ (forall init c, "Carol" = init ++ String c "" -> is_space c = false).
Proof.
  apply (member_names_are_stripped "Bob added   Carol" "Carol").
  left. vm_compute. reflexivity.
Defined.

(** ** How a message line is cut *)

Lemma line_pattern_unfold (line : string) :
  re_match LINE_PATTERN line
  = rmatch line_date line [] (fun d s1 c1 => line_after_date c1 d s1).
Proof. reflexivity. Qed.

Section MatcherSound.
Context {R : Type}.

(** Whatever a repetition hands to its continuation is a split of the
    subject whose first part lies in the class. *)
Lemma rep_sound (g : bool) (p : ascii -> bool) (lo : nat) (hi : option nat)
    (s : string) (k : string -> string -> option R) (x : R) :
  rep g p lo hi s k = Some x ->
  exists u v, s = u ++ v /\ all p u = true /\ k u v = Some x.
Proof.
  revert lo hi k; induction s as [|c s IH]; intros lo hi k; simpl.
  - destruct lo; [|discriminate]. intros H. now exists "", "".
  - assert (Hstop : match lo with O => k "" (String c s) | S _ => None end = Some x ->
                    exists u v, String c s = u ++ v /\ all p u = true
                                /\ k u v = Some x).
    { destruct lo; [|discriminate]. intros H. now exists "", (String c s). }
    assert (Hmore : p c = true ->
              rep g p (Nat.pred lo) (option_map Nat.pred hi) s
                  (fun m rest => k (String c m) rest) = Some x ->
              exists u v, String c s = u ++ v /\ all p u = true /\ k u v = Some x).
    { intros Hc H. apply IH in H as (u & v & -> & Hu & Hk).
      exists (String c u), v. simpl. now rewrite Hc, Hu. }
    destruct (p c) eqn:Hc; simpl; [|exact Hstop].
    destruct (may_repeat hi); simpl; [|exact Hstop].
    destruct g.
    + destruct (rep true p _ _ s _) eqn:Hr; [|exact Hstop].
      intros [= <-]. now apply Hmore.
    + destruct (match lo with O => _ | S _ => None end) eqn:Hs.
      * intros [= <-]. now apply Hstop.
      * now apply Hmore.
Qed.

(** An expression without groups hands on a split of the subject and the
    captures it was given. *)
Lemma rmatch_group_free (r : regex) (s : string) (caps : captures)
    (k : string -> string -> captures -> option R) (x : R) :
  group_free r = true -> rmatch r s caps k = Some x ->
  exists m rest, s = m ++ rest /\ k m rest caps = Some x.
Proof.
  revert s caps k; induction r as [|l|p|g p lo hi|r1 IH1 r2 IH2|r1 IH1 r2 IH2|n r IH|];
    intros s caps k Hg; simpl.
  - intros H. now exists "", s.
  - destruct (drop_prefix l s) as [rest|] eqn:E; [|discriminate].
    apply drop_prefix_spec in E. intros H. now exists l, rest.
  - destruct s as [|c rest]; [discriminate|].
    destruct (p c); [|discriminate]. intros H. now exists (String c ""), rest.
  - intros H. apply rep_sound in H as (u & v & E & _ & Hk). now exists u, v.
  - simpl in Hg. apply andb_prop in Hg as [H1 H2]. intros H.
    apply (IH1 _ _ _ H1) in H as (m1 & s1 & -> & H).
    apply (IH2 _ _ _ H2) in H as (m2 & s2 & -> & H).
    exists (m1 ++ m2), s2. now rewrite append_assoc.
  - simpl in Hg. apply andb_prop in Hg as [H1 H2].
    destruct (rmatch r1 s caps k) eqn:E.
    + intros [= <-]. now apply (IH1 _ _ _ H1).
    + now apply (IH2 _ _ _ H2).
  - discriminate.
  - destruct (at_end s); [|discriminate]. intros H. now exists "", s.
Qed.

(** What a lazy star returns is the answer of the continuation at the
    shortest accepted split. *)
Lemma rep_star_lazy_inv (p : ascii -> bool) (s : string)
    (k : string -> string -> option R) (x : R) :
  rep false p 0 None s k = Some x ->
  exists u v, s = u ++ v /\ all p u = true /\ k u v = Some x /\
    forall u' v', s = u' ++ v' ->
                  (String.length u' < String.length u)%nat -> k u' v' = None.
Proof.
  revert k; induction s as [|c s IH]; intros k H; simpl in H.
  - exists "", "". repeat split; auto. intros u' v' _ Hlt. simpl in Hlt. lia.
  - destruct (k "" (String c s)) eqn:H0.
    + assert (Hx : Some r = Some x) by (now destruct (p c)).
      injection Hx as ->. exists "", (String c s). repeat split; auto.
      intros u' v' _ Hlt. simpl in Hlt. lia.
    + destruct (p c) eqn:Hc; simpl in H; [|discriminate].
      apply IH in H as (u & v & -> & Hu & Hk & Hmin).
      exists (String c u), v. simpl. rewrite Hc, Hu. repeat split; auto.
      intros u' v' E Hlt. destruct u' as [|d u']; simpl in E.
      * now subst v'.
      * injection E as <- E. apply (Hmin u' v' E). simpl in Hlt. lia.
Qed.
End MatcherSound.

(** X13. A line that the line pattern matches is its three groups put back
    together: the date and time, " - ", the sender, ": ", the body, and
    nothing after (or one final line feed). The sender is cut at the first
    ": " that follows, so on a stripped line the sender never contains ": "
    while the body may. *)
Theorem message_line_reassembles (line : string) (m : match_obj) :
  re_match LINE_PATTERN line = Some m ->
  line = grp "1" m ++ " - " ++ grp "2" m ++ ": " ++ grp "3" m ++ unmatched m
  /\ groups m = [("3", grp "3" m); ("2", grp "2" m); ("1", grp "1" m)]
  /\ at_end (unmatched m) = true
  /\ all dot (grp "2" m) = true /\ all dot (grp "3" m) = true
  /\ (all dot line = true -> unmatched m = "" /\ ~ contains ": " (grp "2" m)).
Proof.
  rewrite line_pattern_unfold. intros H.
  apply rmatch_group_free in H as (d & s1 & E1 & H); [|reflexivity].
  unfold line_after_date in H.
  destruct (drop_prefix " - " s1) as [s2|] eqn:E2; [|discriminate].
  apply drop_prefix_spec in E2.
  apply rep_star_lazy_inv in H as (sender & s3 & E3 & Hsender & H & Hmin).
  unfold line_after_sender in H.
  destruct (drop_prefix ": " s3) as [s4|] eqn:E4; [|discriminate].
  apply drop_prefix_spec in E4.
  pose proof H as Hbody.
  apply rep_sound in Hbody as (body & rest & E5 & Hb & Hk).
  unfold line_tail in Hk. destruct (at_end rest) eqn:Hend; [|discriminate].
  injection Hk as <-. cbn [groups unmatched]. unfold grp. cbn [groups group].
  simpl String.eqb. cbv iota.
  assert (Hline : line = d ++ " - " ++ sender ++ ": " ++ body ++ rest)
    by (subst; reflexivity).
  split; [exact Hline|]. split; [reflexivity|]. split; [exact Hend|].
  split; [exact Hsender|]. split; [exact Hb|].
  intros Hdot. split.
  - apply at_end_dot; [|exact Hend]. rewrite Hline, !all_append in Hdot.
    repeat (apply andb_prop in Hdot as [_ Hdot]). exact Hdot.
  - intros (a & b & Ea).
    assert (Es2 : s2 = a ++ ": " ++ b ++ s3)
      by (rewrite E3, Ea, !append_assoc; reflexivity).
    assert (Hlen : (String.length a < String.length sender)%nat)
      by (rewrite Ea, !length_append; simpl; lia).
    pose proof (Hmin a (": " ++ b ++ s3) Es2 Hlen) as Hshort.
    unfold line_after_sender in Hshort. rewrite drop_prefix_append in Hshort.
    assert (Hrest : all dot (b ++ s3) = true).
    { rewrite E1, E2, Es2, !all_append in Hdot.
      repeat rewrite andb_true_iff in Hdot.
      rewrite all_append, andb_true_iff. tauto. }
    destruct (rep_star_some dot true (b ++ s3) (line_tail [] d a) (b ++ s3) "" _
                (eq_sym (append_nil_r _)) Hrest eq_refl) as [y Hy].
    congruence.
Qed.

Lemma message_line_reassembles_witness :
  alice_line = "12/5/23, 14:05" ++ " - " ++ "Alice" ++ ": " ++ "hello" ++ ""
  /\ ~ contains ": " "Alice".
Proof.
  destruct (message_line_reassembles alice_line
              (MkMatch alice_line ""
                       [("3", "hello"); ("2", "Alice"); ("1", "12/5/23, 14:05")])
              ltac:(vm_compute; reflexivity)) as (H1 & _ & _ & _ & _ & H2).
  split; [exact H1 | apply H2; reflexivity].
Defined.

(** ** What the numbers count *)

Lemma length_update {V : Type} (key : string) (f : V -> V) (d : list (string * V)) :
  List.length (update key f d) = List.length d.
Proof.
  induction d as [|[k v] d IH]; simpl; [reflexivity|].
  destruct (String.eqb k key); simpl; [reflexivity | now rewrite IH].
Qed.

Lemma length_ensure (key : string) (d : list (string * stats)) :
  (List.length d <= List.length (ensure key d) <= List.length d + 1)%nat.
Proof.
  unfold ensure. destruct (lookup key d); [lia|]. rewrite length_app. simpl. lia.
Qed.

Lemma process_line_length (st : state) (raw : string) :
  (List.length (participants (process_line st raw))
   <= List.length (participants st) + 1)%nat.
Proof.
  rewrite process_line_classify.
  destruct (classify (strip raw)) as [n|n|dt sender body|]; unfold apply_event.
  - apply length_ensure.
  - apply length_ensure.
  - unfold record_message. cbn [participants].
    pose proof (length_ensure sender (participants st)).
    match goal with |- (List.length (if ?b then _ else _) <= _)%nat => destruct b end;
      rewrite ?length_update; lia.
  - lia.
Qed.

Lemma ingest_length (lines : list string) :
  (List.length (participants (ingest lines)) <= List.length lines)%nat.
Proof.
  induction lines as [|raw lines IH] using rev_ind; [simpl; lia|].
  rewrite ingest_snoc, length_app. simpl.
  pose proof (process_line_length (ingest lines) raw). lia.
Qed.

(** X14. The total that [analyze_chat] returns is the number of lines that
    count as messages, and the count of a participant is the number of
    those lines that carry that sender; neither the total nor the number of
    participants exceeds the number of lines. *)
Theorem totals_count_message_lines (lines : list string) (name : string) :
  snd (analyze_chat lines) = Z.of_nat (List.length (filter is_message lines))
  /\ 0 <= snd (analyze_chat lines) <= Z.of_nat (List.length lines)
  /\ (List.length (fst (analyze_chat lines)) <= List.length lines)%nat
  /\ option_map r_messages (lookup name (fst (analyze_chat lines)))
     = (if existsb (mentions name) lines
        then Some (Z.of_nat (List.length (timestamps_of name lines)))
        else None).
Proof.
  split; [apply ingest_total|]. split.
  { pose proof (filter_length_le is_message lines).
    change (snd (analyze_chat lines)) with (total_messages (ingest lines)).
    rewrite ingest_total. lia. }
  split.
  { unfold analyze_chat, finalize. cbn [fst]. rewrite length_map. apply ingest_length. }
  unfold analyze_chat. rewrite lookup_finalize.
  pose proof (ingest_tracks lines name) as Htr. unfold stats_of in Htr.
  pose proof (ingest_mentions lines name) as Hm.
  destruct (lookup name (participants (ingest lines))) as [s|].
  - destruct (existsb (mentions name) lines).
    + simpl. now rewrite Htr.
    + pose proof (proj2 Hm eq_refl). discriminate.
  - now rewrite (proj1 Hm eq_refl).
Qed.

(** ** The four formats exclude one another *)

Section MatcherLang.
Context {R : Type}.

Lemma rep_lang (g : bool) (p : ascii -> bool) (lo : nat) (hi : option nat)
    (s : string) (k : string -> string -> option R) (x : R) :
  rep g p lo hi s k = Some x ->
  exists u v, s = u ++ v /\ lang (RRep g p lo hi) u /\ k u v = Some x.
Proof.
  revert lo hi k; induction s as [|c s IH]; intros lo hi k.
  - simpl. destruct lo; [|discriminate]. intros H. exists "", "".
    repeat split; auto. simpl. destruct hi; [lia | exact I].
  - assert (Hstop : match lo with O => k "" (String c s) | S _ => None end = Some x ->
                    exists u v, String c s = u ++ v /\ lang (RRep g p lo hi) u
                                /\ k u v = Some x).
    { destruct lo; [|discriminate]. intros H. exists "", (String c s).
      repeat split; auto. simpl. destruct hi; [lia | exact I]. }
    assert (Hmore : p c = true -> may_repeat hi = true ->
              rep g p (Nat.pred lo) (option_map Nat.pred hi) s
                  (fun m rest => k (String c m) rest) = Some x ->
              exists u v, String c s = u ++ v /\ lang (RRep g p lo hi) u
                          /\ k u v = Some x).
    { intros Hc Hrep H. apply IH in H as (u & v & -> & (Hu & Hlo & Hhi) & Hk).
      exists (String c u), v. simpl. rewrite Hc, Hu. repeat split; auto; [lia|].
      destruct hi as [[|h]|]; simpl in *; [discriminate | lia | exact I]. }
    simpl. destruct (p c) eqn:Hc; simpl; [|exact Hstop].
    destruct (may_repeat hi) eqn:Hrep; simpl; [|exact Hstop].
    destruct g.
    + destruct (rep true p _ _ s _) eqn:Hr; [|exact Hstop].
      intros [= <-]. now apply Hmore.
    + destruct (match lo with O => _ | S _ => None end) eqn:Hs.
      * intros [= <-]. now apply Hstop.
      * now apply Hmore.
Qed.

(** What the matcher consumes lies in the language of the expression. *)
Lemma rmatch_lang (r : regex) (s : string) (caps : captures)
    (k : string -> string -> captures -> option R) (x : R) :
  rmatch r s caps k = Some x ->
  exists m rest caps', s = m ++ rest /\ lang r m /\ k m rest caps' = Some x.
Proof.
  revert s caps k; induction r as [|l|p|g p lo hi|r1 IH1 r2 IH2|r1 IH1 r2 IH2|n r IH|];
    intros s caps k; simpl.
  - intros H. now exists "", s, caps.
  - destruct (drop_prefix l s) as [rest|] eqn:E; [|discriminate].
    apply drop_prefix_spec in E. intros H. now exists l, rest, caps.
  - destruct s as [|c rest]; [discriminate|].
    destruct (p c) eqn:Hc; [|discriminate]. intros H.
    exists (String c ""), rest, caps. repeat split; eauto.
  - intros H. apply rep_lang in H as (u & v & E & Hl & Hk). now exists u, v, caps.
  - intros H.
    apply IH1 in H as (m1 & s1 & c1 & -> & L1 & H).
    apply IH2 in H as (m2 & s2 & c2 & -> & L2 & H).
    exists (m1 ++ m2), s2, c2. rewrite append_assoc. repeat split; eauto.
  - destruct (rmatch r1 s caps k) eqn:E.
    + intros [= <-]. destruct (IH1 _ _ _ E) as (m & rest & c' & E' & L & H).
      exists m, rest, c'. auto.
    + intros H. apply IH2 in H as (m & rest & c' & E' & L & H).
      exists m, rest, c'. auto.
  - intros H. apply IH in H as (m & rest & c' & E & L & H). eauto 6.
  - destruct (at_end s); [|discriminate]. intros H. now exists "", s, caps.
Qed.
End MatcherLang.

(** A date that [strptime] reads lies, whole, in the language of the
    expression of its format. *)
Lemma strptime_lang (s fmt : string) (t : datetime) :
  strptime s fmt = Some t ->
  exists r, format_regex false fmt = Some r /\ lang r s.
Proof.
  unfold strptime. destruct (format_regex false fmt) as [r|]; [|discriminate].
  destruct (re_match r s) as [found|] eqn:Hm; [|discriminate].
  destruct (String.eqb_spec (unmatched found) "") as [Hrest|]; simpl; [|discriminate].
  intros _. exists r. split; [reflexivity|].
  unfold re_match in Hm. apply rmatch_lang in Hm as (m & rest & c' & E & L & H).
  injection H as <-. simpl in Hrest. subst rest. rewrite append_nil_r in E. now subst.
Qed.

Lemma formats_regexes :
  format_regex false "%d/%m/%Y, %H:%M" = Some (day_first_regex "Y")
  /\ format_regex false "%d/%m/%y, %H:%M" = Some (day_first_regex "y")
  /\ format_regex false "%m/%d/%Y, %I:%M %p" = Some (month_first_regex "Y")
  /\ format_regex false "%m/%d/%y, %I:%M %p" = Some (month_first_regex "y").
Proof. repeat split; reflexivity. Qed.

Ltac each_ascii :=
  intros [[] [] [] [] [] [] [] []]; vm_compute; intros; congruence.

Lemma sep_slash (c : ascii) : ci "/" c = true -> c = "/"%char.
Proof. revert c. each_ascii. Qed.

Lemma sep_comma (c : ascii) : ci "," c = true -> c = ","%char.
Proof. revert c. each_ascii. Qed.

Lemma short_number_class (c : ascii) :
  one_of "3" c || in_range "0" "1" c || in_range "1" "2" c || is_digit c
  || one_of "0" c || in_range "1" "9" c || one_of " " c || one_of "1" c
  || in_range "0" "2" c = true ->
  digit_or_space c = true.
Proof. revert c. each_ascii. Qed.

Lemma digit_is_no_m (c : ascii) : is_digit c = true -> ci "m" c = true -> False.
Proof. revert c. each_ascii. Qed.

Ltac open_directive H :=
  unfold dir in H; cbv [directive Ascii.eqb Bool.eqb] in H; cbn [lang] in H;
  repeat match goal with
         | H' : _ \/ _ |- _ => destruct H'
         | H' : exists _, _ |- _ => destruct H'
         | H' : _ /\ _ |- _ => destruct H'
         end;
  subst.

Ltac short_number :=
  simpl all;
  repeat match goal with
         | |- context [digit_or_space ?c] =>
             rewrite (short_number_class c)
               by (repeat rewrite orb_true_iff; tauto)
         end;
  reflexivity.

Lemma day_directive (m : string) : lang (dir "d") m -> all digit_or_space m = true.
Proof. intros H. open_directive H; short_number. Qed.

Lemma month_directive (m : string) : lang (dir "m") m -> all digit_or_space m = true.
Proof. intros H. open_directive H; short_number. Qed.

Lemma year4_directive (m : string) :
  lang (dir "Y") m -> all is_digit m = true /\ String.length m = 4%nat.
Proof.
  intros H. unfold dir in H. cbv [directive Ascii.eqb Bool.eqb] in H.
  cbn [lang] in H. unfold times in H. cbn [lang] in H.
  destruct H as (Ha & Hlo & Hhi). split; [exact Ha | lia].
Qed.

Lemma year2_directive (m : string) :
  lang (dir "y") m -> all is_digit m = true /\ String.length m = 2%nat.
Proof.
  intros H. unfold dir in H. cbv [directive Ascii.eqb Bool.eqb] in H.
  cbn [lang] in H. unfold times in H. cbn [lang] in H.
  destruct H as (Ha & Hlo & Hhi). split; [exact Ha | lia].
Qed.

Lemma ends_with_append (c : ascii) (a b : string) :
  ends_with c b -> ends_with c (a ++ b).
Proof. intros [init ->]. exists (a ++ init). now rewrite append_assoc. Qed.

Ltac last_char :=
  match goal with
  | |- exists c, ends_with c (String ?a "" ++ String ?b "") /\ _ =>
      exists b; split; [now exists (String a "") | assumption]
  | |- exists c, ends_with c (String ?a "") /\ _ =>
      exists a; split; [now exists "" | assumption]
  end.

Lemma minute_directive (m : string) :
  lang (dir "M") m -> exists c, ends_with c m /\ is_digit c = true.
Proof.
  intros H. open_directive H; last_char.
Qed.

Lemma marker_directive (m : string) :
  lang (dir "p") m -> exists c, ends_with c m /\ ci "m" c = true.
Proof.
  intros H. open_directive H; last_char.
Qed.

Lemma day_first_shape (y : ascii) (n : nat) (s : string) :
  (forall m, lang (dir y) m -> all is_digit m = true /\ String.length m = n) ->
  lang (day_first_regex y) s -> date_shape true n s.
Proof.
  intros Hy H. unfold day_first_regex, sep in H. cbn [lang] in H.
  destruct H as (d & ? & -> & Hd & ? & ? & -> & (c1 & -> & Hc1)
                 & m & ? & -> & Hm & ? & ? & -> & (c2 & -> & Hc2)
                 & yr & ? & -> & Hyr & ? & ? & -> & (c3 & -> & Hc3)
                 & sp & ? & -> & Hsp & hr & ? & -> & Hhr
                 & ? & ? & -> & (c4 & -> & Hc4)
                 & mi & ? & -> & Hmi & ->).
  apply sep_slash in Hc1, Hc2. apply sep_comma in Hc3. subst.
  apply day_directive in Hd. apply month_directive in Hm.
  apply Hy in Hyr as (Hyr & Hn).
  apply minute_directive in Hmi as (c & He & Hc).
  exists d, m, yr, (sp ++ hr ++ String c4 "" ++ mi ++ ""), c.
  repeat split; auto. rewrite append_nil_r.
  repeat apply ends_with_append. exact He.
Qed.

Lemma month_first_shape (y : ascii) (n : nat) (s : string) :
  (forall m, lang (dir y) m -> all is_digit m = true /\ String.length m = n) ->
  lang (month_first_regex y) s -> date_shape false n s.
Proof.
  intros Hy H. unfold month_first_regex, sep in H. cbn [lang] in H.
  destruct H as (m & ? & -> & Hm & ? & ? & -> & (c1 & -> & Hc1)
                 & d & ? & -> & Hd & ? & ? & -> & (c2 & -> & Hc2)
                 & yr & ? & -> & Hyr & ? & ? & -> & (c3 & -> & Hc3)
                 & sp & ? & -> & Hsp & hr & ? & -> & Hhr
                 & ? & ? & -> & (c4 & -> & Hc4)
                 & mi & ? & -> & Hmi & sp2 & ? & -> & Hsp2
                 & mk & ? & -> & Hmk & ->).
  apply sep_slash in Hc1, Hc2. apply sep_comma in Hc3. subst.
  apply day_directive in Hd. apply month_directive in Hm.
  apply Hy in Hyr as (Hyr & Hn).
  apply marker_directive in Hmk as (c & He & Hc).
  exists m, d, yr, (sp ++ hr ++ String c4 "" ++ mi ++ sp2 ++ mk ++ ""), c.
  repeat split; auto. rewrite append_nil_r.
  repeat apply ends_with_append. exact He.
Qed.

(** A text is cut in one way only at the first character outside a class. *)
Lemma first_outside_unique (p : ascii -> bool) (c : ascii) (a a' r r' : string) :
  p c = false -> all p a = true -> all p a' = true ->
  a ++ String c r = a' ++ String c r' -> a = a' /\ r = r'.
Proof.
  intros Hc. revert a'. induction a as [|x a IH]; intros [|x' a']; simpl.
  - intros _ _ [= ->]. auto.
  - intros _ H [= <- _]. rewrite Hc in H. discriminate.
  - intros H _ [= -> _]. rewrite Hc in H. discriminate.
  - destruct (p x) eqn:Hx; [|discriminate]. destruct (p x') eqn:Hx'; [|discriminate].
    simpl. intros Ha Ha' [= -> E]. destruct (IH a' Ha Ha' E) as [-> ->]. auto.
Qed.

Lemma last_char_unique (c c' : ascii) (s : string) :
  ends_with c s -> ends_with c' s -> c = c'.
Proof.
  intros [i ->] [i' E]. revert i' E. induction i as [|x i IH]; intros [|x' i']; simpl.
  - now intros [= ->].
  - intros [= _ E]. destruct i'; discriminate.
  - intros [= _ E]. destruct i; discriminate.
  - intros [= _ E]. eauto.
Qed.

Lemma slash_outside : digit_or_space "/" = false.
Proof. reflexivity. Qed.

Lemma comma_outside : is_digit "," = false.
Proof. reflexivity. Qed.

Lemma date_shape_unique (c24 c24' : bool) (n n' : nat) (s : string) :
  date_shape c24 n s -> date_shape c24' n' s -> c24 = c24' /\ n = n'.
Proof.
  intros (a & b & y & r & c & -> & Ha & Hb & Hy & Hn & He & Hc)
         (a' & b' & y' & r' & c' & E & Ha' & Hb' & Hy' & Hn' & He' & Hc').
  assert (c' = c) as ->.
  { eapply last_char_unique; eassumption. }
  split.
  - destruct c24, c24'; auto; exfalso; eapply digit_is_no_m; eassumption.
  - simpl in E.
    apply (first_outside_unique _ _ _ _ _ _ slash_outside Ha Ha') in E as [-> E].
    apply (first_outside_unique _ _ _ _ _ _ slash_outside Hb Hb') in E as [-> E].
    apply (first_outside_unique _ _ _ _ _ _ comma_outside Hy Hy') in E as [-> E].
    congruence.
Qed.

Lemma read_date_has_shape (s fmt : string) (t : datetime) :
  In fmt formats -> strptime s fmt = Some t ->
  date_shape (fst (format_shape fmt)) (snd (format_shape fmt)) s.
Proof.
  intros Hin H. apply strptime_lang in H as (r & Hr & L).
  destruct formats_regexes as (R1 & R2 & R3 & R4).
  destruct Hin as [<- | [<- | [<- | [<- | []]]]].
  - rewrite R1 in Hr. injection Hr as <-.
    exact (day_first_shape _ _ _ year4_directive L).
  - rewrite R2 in Hr. injection Hr as <-.
    exact (day_first_shape _ _ _ year2_directive L).
  - rewrite R3 in Hr. injection Hr as <-.
    exact (month_first_shape _ _ _ year4_directive L).
  - rewrite R4 in Hr. injection Hr as <-.
    exact (month_first_shape _ _ _ year2_directive L).
Qed.

Lemma formats_exclusive (s f g : string) (t u : datetime) :
  In f formats -> In g formats ->
  strptime s f = Some t -> strptime s g = Some u -> f = g.
Proof.
  intros Hf Hg Ht Hu.
  pose proof (read_date_has_shape _ _ _ Hf Ht) as Sf.
  pose proof (read_date_has_shape _ _ _ Hg Hu) as Sg.
  destruct (date_shape_unique _ _ _ _ _ Sf Sg) as [E1 E2].
  destruct Hf as [<- | [<- | [<- | [<- | []]]]];
    destruct Hg as [<- | [<- | [<- | [<- | []]]]];
    try reflexivity; vm_compute in E1, E2; discriminate.
Qed.

Lemma first_parse_found (s f : string) (t : datetime) (fmts : list string) :
  (forall g u, In g fmts -> strptime s g = Some u -> g = f) ->
  In f fmts -> strptime s f = Some t -> first_parse s fmts = Some t.
Proof.
  induction fmts as [|g fmts IH]; intros Hex Hin Ht; [destruct Hin|].
  simpl. destruct (strptime s g) as [u|] eqn:Hu.
  - rewrite (Hex g u (or_introl eq_refl) Hu) in Hu. congruence.
  - destruct Hin as [-> | Hin]; [congruence|].
    apply IH; auto. intros g' u' Hg'. apply Hex. now right.
Qed.

(** X15. At most one of the four formats of [parse_date] reads a given date:
    when the format [f] of the list reads the text [s] as [t], no other
    format of the list reads [s], and [parse_date s] is [t]. The order in
    which the formats are tried therefore has no influence on the result. *)
Theorem parse_date_is_the_only_reading (s f : string) (t : datetime) :
  In f formats -> strptime s f = Some t ->
  parse_date s = Some t
  /\ forall g u, In g formats -> strptime s g = Some u -> g = f.
Proof.
  intros Hf Ht.
  assert (Hex : forall g u, In g formats -> strptime s g = Some u -> g = f).
  { intros g u Hg Hu. exact (formats_exclusive s g f u t Hg Hf Hu Ht). }
  split; [|exact Hex]. unfold parse_date. now apply first_parse_found with f.
Qed.

Lemma parse_date_is_the_only_reading_witness :
  parse_date "12/25/23, 2:05 PM" = Some (MkDatetime 2023 12 25 14 5 0 0)
  /\ forall g u, In g formats -> strptime "12/25/23, 2:05 PM" g = Some u ->
                 g = "%m/%d/%y, %I:%M %p".
Proof.
  apply (parse_date_is_the_only_reading "12/25/23, 2:05 PM" "%m/%d/%y, %I:%M %p").
  - simpl. tauto.
  - vm_compute. reflexivity.
Defined.
